(** * A workflow execution engine: graph definitions, node registry,
      synchronous and asynchronous traversal, job tracker and event
      broadcaster.

    The development embeds the Python sources of the engine
    ([engine/state.py], [engine/registry.py], [engine/graph.py],
    [engine/job_tracker.py], [engine/websocket_manager.py],
    [engine/async_graph.py]) and the loop-control node of the
    summarization workflow ([workflows/summarization/nodes_upgraded.py]).

    Conventions of the embedding:
    - a Python [int] is a [Z]; a [str] is a [string]; a [dict] used as a map
      is a [gmap]; a [set] is a [gset];
    - a function that may raise returns a [result]; the exception carries
      its Python class and the text it was built with;
    - the singletons [job_tracker] and [websocket_manager] are the fields of
      an explicit [World], threaded through the asynchronous run;
    - logging has no counterpart. *)

From Stdlib Require Import ZArith String List Lia Floats.
From stdpp Require Import base gmap strings list.

Set Warnings "-clear-no-such-hyp".

Open Scope string_scope.
Open Scope Z_scope.
Open Scope list_scope.

(** ** Exceptions and fallible computations *)

(** The exceptions the engine raises or catches, by Python class.
    [Exception] stands for any other class a node function may raise; its
    argument is the text [str(e)] yields. *)
Inductive exn : Type :=
| ValueError (msg : string)
| KeyError (msg : string)
| RuntimeError (msg : string)
| Exception (text : string).

Inductive result (E A : Type) : Type :=
| Ok (a : A)
| Raise (e : E).

Arguments Ok {E A} a.
Arguments Raise {E A} e.

Definition bind {E A B : Type} (c : result E A) (k : A -> result E B)
  : result E B :=
  match c with
  | Ok a => k a
  | Raise e => Raise e
  end.

Notation "'let*' x ':=' c 'in' k" := (bind c (fun x => k))
  (at level 10, x pattern, c at level 100, k at level 200).

(** ** engine/state.py *)

(** Values a metadata entry holds in the workflow's nodes. *)
Inductive meta : Type :=
| MInt (n : Z)
| MStr (s : string).

Record WorkflowState : Type := mkState {
  text : string;
  max_length : Z;
  chunk_size : Z;
  chunks : list string;
  chunk_summaries : list string;
  merged_summary : string;
  refined_summary : string;
  current_length : Z;
  refinement_iterations : Z;
  max_refinement_iterations : Z;
  execution_metadata : gmap string meta
}.

(** [WorkflowState()] with every field at its declared default. *)
Definition default_state : WorkflowState :=
  {| text := ""; max_length := 100; chunk_size := 50;
     chunks := []; chunk_summaries := [];
     merged_summary := ""; refined_summary := "";
     current_length := 0; refinement_iterations := 0;
     max_refinement_iterations := 5;
     execution_metadata := ∅ |}.

(** The values of a dumped model and of keyword arguments. *)
Inductive value : Type :=
| VStr (s : string)
| VInt (n : Z)
| VList (l : list string)
| VDict (d : gmap string meta).

(** [self.model_dump()]: a fresh dict, one key per field. *)
Definition model_dump (s : WorkflowState) : gmap string value :=
  list_to_map
    [ ("text", VStr (text s));
      ("max_length", VInt (max_length s));
      ("chunk_size", VInt (chunk_size s));
      ("chunks", VList (chunks s));
      ("chunk_summaries", VList (chunk_summaries s));
      ("merged_summary", VStr (merged_summary s));
      ("refined_summary", VStr (refined_summary s));
      ("current_length", VInt (current_length s));
      ("refinement_iterations", VInt (refinement_iterations s));
      ("max_refinement_iterations", VInt (max_refinement_iterations s));
      ("execution_metadata", VDict (execution_metadata s)) ].

(** The field names of [WorkflowState], in declaration order. *)
Definition field_names : list string :=
  [ "text"; "max_length"; "chunk_size"; "chunks"; "chunk_summaries";
    "merged_summary"; "refined_summary"; "current_length";
    "refinement_iterations"; "max_refinement_iterations";
    "execution_metadata" ].

(** What the model constructor reports for a value of the wrong type. *)
Inductive validation_error : Type :=
| WrongType (field : string).

Definition str_field (data : gmap string value) (k : string) (dflt : string)
  : result validation_error string :=
  match data !! k with
  | None => Ok dflt
  | Some (VStr s) => Ok s
  | Some _ => Raise (WrongType k)
  end.

Definition int_field (data : gmap string value) (k : string) (dflt : Z)
  : result validation_error Z :=
  match data !! k with
  | None => Ok dflt
  | Some (VInt n) => Ok n
  | Some _ => Raise (WrongType k)
  end.

Definition list_field (data : gmap string value) (k : string)
  : result validation_error (list string) :=
  match data !! k with
  | None => Ok []
  | Some (VList l) => Ok l
  | Some _ => Raise (WrongType k)
  end.

Definition dict_field (data : gmap string value) (k : string)
  : result validation_error (gmap string meta) :=
  match data !! k with
  | None => Ok ∅
  | Some (VDict d) => Ok d
  | Some _ => Raise (WrongType k)
  end.

(** The constructor [WorkflowState] applied to the entries of [data] as
    keyword arguments: each field is read from [data] or takes its
    default, keys that name no field are ignored, and a value that is not
    of the field's type is refused.  The embedding agrees with the
    validator on data of the declared types, and on the refusal of an
    [int], a list or a dict given for a [str] field, of anything but a
    list for a list field and of anything but a dict for a dict field.
    It does not follow the validator where it converts: a [str] that
    spells an integer is accepted for an [int] field by the validator and
    refused here, so nothing below is stated about such data. *)
Definition WorkflowState_init (data : gmap string value)
  : result validation_error WorkflowState :=
  let* f1 := str_field data "text" "" in
  let* f2 := int_field data "max_length" 100 in
  let* f3 := int_field data "chunk_size" 50 in
  let* f4 := list_field data "chunks" in
  let* f5 := list_field data "chunk_summaries" in
  let* f6 := str_field data "merged_summary" "" in
  let* f7 := str_field data "refined_summary" "" in
  let* f8 := int_field data "current_length" 0 in
  let* f9 := int_field data "refinement_iterations" 0 in
  let* f10 := int_field data "max_refinement_iterations" 5 in
  let* f11 := dict_field data "execution_metadata" in
  Ok (mkState f1 f2 f3 f4 f5 f6 f7 f8 f9 f10 f11).

(** [copy_with_updates], the keyword arguments being [updates]:
    [current_data = self.model_dump(); current_data.update(updates);
     return WorkflowState(current_data as keyword arguments)].
    [updates ∪ current_data] is the dict after [update]: a key of
    [updates] wins. *)
Definition copy_with_updates (self : WorkflowState)
    (updates : gmap string value) : result validation_error WorkflowState :=
  let current_data := model_dump self in
  let current_data := updates ∪ current_data in
  WorkflowState_init current_data.

(** The [WorkflowState] objects alive, each under its identity. *)
Abbreviation Store := (gmap positive WorkflowState).

(** [self.copy_with_updates(...)] on the object [self] of a store.  The
    method assigns to no attribute of [self]: [model_dump] reads its
    fields into a new dict, [update] writes to that dict only, and the
    constructor makes a new object of it, which the store then holds
    under an identity not in use.  When the constructor raises, no object
    is made.  [None] when [self] is no object of the store. *)
Definition copy_with_updates_at (self : positive)
    (updates : gmap string value) (store : Store)
  : option (result validation_error positive * Store) :=
  match store !! self with
  | None => None
  | Some s =>
      match copy_with_updates s updates with
      | Ok s' =>
          let new := fresh (dom store) in
          Some (Ok new, <[new := s']> store)
      | Raise e => Some (Raise e, store)
      end
  end.

(** The declared type of each field, as a test on values. *)
Definition is_str (v : value) : bool :=
  match v with VStr _ => true | _ => false end.
Definition is_int (v : value) : bool :=
  match v with VInt _ => true | _ => false end.
Definition is_list (v : value) : bool :=
  match v with VList _ => true | _ => false end.
Definition is_dict (v : value) : bool :=
  match v with VDict _ => true | _ => false end.

Definition field_type (k : string) : value -> bool :=
  if bool_decide (k ∈ ["text"; "merged_summary"; "refined_summary"])
  then is_str
  else if bool_decide (k ∈ ["chunks"; "chunk_summaries"]) then is_list
  else if bool_decide (k = "execution_metadata") then is_dict
  else is_int.

(** The updates give each field they name a value of that field's type. *)
Definition well_typed (updates : gmap string value) : bool :=
  forallb
    (fun k => match updates !! k with
              | Some v => field_type k v
              | None => true
              end)
    field_names.

(** ** workflows/summarization/nodes_upgraded.py: the loop-control node *)

Definition check_length_loop (state : WorkflowState) : WorkflowState :=
  let should_continue :=
    (max_length state <? current_length state) &&
    (refinement_iterations state <? max_refinement_iterations state) in
  state.

(** ** engine/registry.py *)

(** A node function: a callable on states that returns a state or
    raises. *)
Definition node_func : Type := WorkflowState -> result exn WorkflowState.

Record NodeRegistry : Type := mkRegistry {
  _nodes : gmap string node_func
}.

Definition NodeRegistry_init : NodeRegistry := mkRegistry ∅.

(** [register_node(self, name, func)]; the second component is the
    registry after the call. *)
Definition register_node (self : NodeRegistry) (name : string)
    (func : node_func) : result exn unit * NodeRegistry :=
  match _nodes self !! name with
  | Some _ =>
      (Raise (ValueError ("Node '" +:+ name +:+ "' is already registered")),
       self)
  | None => (Ok tt, mkRegistry (<[name := func]> (_nodes self)))
  end.

Definition get_node (self : NodeRegistry) (name : string)
  : result exn node_func :=
  match _nodes self !! name with
  | None => Raise (KeyError ("Node '" +:+ name +:+ "' not found in registry"))
  | Some f => Ok f
  end.

Definition has_node (self : NodeRegistry) (name : string) : bool :=
  bool_decide (is_Some (_nodes self !! name)).

(** [list(self._nodes.keys())], in the order the map enumerates the
    names.  (Python lists them in the order of registration; only
    membership is stated below.) *)
Definition list_nodes (self : NodeRegistry) : list string :=
  (map_to_list (_nodes self)).*1.

(** A sequence of [register_node] calls; a call that raises is skipped
    over, as a caller that catches the error would. *)
Definition register_all (self : NodeRegistry)
    (calls : list (string * node_func)) : NodeRegistry :=
  fold_left (fun r c => snd (register_node r (fst c) (snd c))) calls self.

(** ** engine/graph.py: definitions and their validation *)

Record GraphDefinition : Type := mkDefinition {
  nodes : list string;
  edges : gmap string (list string);
  entry_point : string
}.

(** [self.edges.keys()] and the targets of [self.edges.values()], in the
    order the map enumerates them.  (Python enumerates a dict in insertion
    order; the order decides only which offending name an error message
    quotes, never whether validation fails.) *)
Definition edge_sources (d : GraphDefinition) : list string :=
  (map_to_list (edges d)).*1.

Definition edge_targets (d : GraphDefinition) : list string :=
  concat ((map_to_list (edges d)).*2).

Definition not_in_nodes (d : GraphDefinition) (n : string) : bool :=
  bool_decide (n ∉ nodes d).

Definition validate_structure (self : GraphDefinition) : result exn unit :=
  if not_in_nodes self (entry_point self) then
    Raise (ValueError
      ("Entry point '" +:+ entry_point self +:+ "' not in nodes list"))
  else
    match List.find (not_in_nodes self) (edge_sources self) with
    | Some source =>
        Raise (ValueError
          ("Edge source '" +:+ source +:+ "' not in nodes list"))
    | None =>
        match List.find (not_in_nodes self) (edge_targets self) with
        | Some target =>
            Raise (ValueError
              ("Edge target '" +:+ target +:+ "' not in nodes list"))
        | None => Ok tt
        end
    end.

Record WorkflowGraph : Type := mkGraph {
  definition : GraphDefinition;
  registry : NodeRegistry
}.

(** [WorkflowGraph.__init__(definition, registry)]. *)
Definition WorkflowGraph_init (definition : GraphDefinition)
    (registry : NodeRegistry) : result exn WorkflowGraph :=
  let* _ := validate_structure definition in
  match List.find (fun node_name => negb (has_node registry node_name))
          (nodes definition) with
  | Some node_name =>
      Raise (ValueError ("Node '" +:+ node_name +:+ "' not found in registry"))
  | None => Ok (mkGraph definition registry)
  end.

(** ** engine/graph.py: successor resolution *)

Definition _handle_loop_condition (next_nodes : list string)
    (state : WorkflowState) : option string :=
  let should_loop :=
    (max_length state <? current_length state) &&
    (refinement_iterations state <? max_refinement_iterations state) in
  if should_loop then
    if bool_decide ("refine_summary" ∈ next_nodes)
    then Some "refine_summary"
    else None
  else None.

Definition _get_next_node (self : WorkflowGraph) (current_node : string)
    (state : WorkflowState) : option string :=
  match edges (definition self) !! current_node with
  | None => None
  | Some next_nodes =>
      match next_nodes with
      | [] => None
      | next_node :: _ =>
          if bool_decide (current_node = "check_length_loop")
          then _handle_loop_condition next_nodes state
          else Some next_node
      end
  end.

(** ** engine/job_tracker.py *)

Inductive JobStatus : Type :=
| STARTED
| RUNNING
| COMPLETED
| FAILED.

Record JobInfo : Type := mkJob {
  run_id : string;
  graph_id : string;
  status : JobStatus;
  progress_percent : Z;
  last_node : string;
  error_message : string;
  start_time : Z;
  end_time : option Z;
  total_nodes : Z;
  completed_nodes : Z
}.

(** Conversion of an [int] to a [float] (binary64), exact for the
    integers below [2^53] in magnitude.  On such operands the true
    division [a / b] of two [int]s is the binary64 quotient of their
    conversions.  It is used for the counts of nodes only, which stay
    below 1001; from [2^63] on it wraps and is not Python's
    conversion. *)
Definition float_of_int (n : Z) : float :=
  if n <? 0 then PrimFloat.opp (PrimFloat.of_uint63 (Uint63.of_Z (- n)))
  else PrimFloat.of_uint63 (Uint63.of_Z n).

(** [int(x)] on a finite [float]: truncation toward zero. *)
Definition int_of_float (x : float) : Z :=
  match Prim2SF x with
  | S754_finite s m e =>
      let a := if 0 <=? e then Z.pos m * 2 ^ e else Z.pos m / 2 ^ (- e) in
      if s then - a else a
  | _ => 0
  end.

(** [int((completed_nodes / total_nodes) * 100) if total_nodes > 0 else 0]:
    a true division and a product of floats, then a truncation. *)
Definition percent_of (completed_nodes total_nodes : Z) : Z :=
  if 0 <? total_nodes then
    int_of_float
      (PrimFloat.mul
         (PrimFloat.div (float_of_int completed_nodes)
                        (float_of_int total_nodes))
         (float_of_int 100))
  else 0.

Definition update_progress (self : JobInfo) (node : string)
    (completed_nodes total_nodes : Z) : JobInfo :=
  {| run_id := run_id self;
     graph_id := graph_id self;
     status := RUNNING;
     progress_percent := percent_of completed_nodes total_nodes;
     last_node := node;
     error_message := error_message self;
     start_time := start_time self;
     end_time := end_time self;
     total_nodes := total_nodes;
     completed_nodes := completed_nodes |}.

(** [mark_completed] and [mark_failed]; [now] is the reading of the
    clock they take. *)
Definition mark_completed (self : JobInfo) (now : Z) : JobInfo :=
  {| run_id := run_id self;
     graph_id := graph_id self;
     status := COMPLETED;
     progress_percent := 100;
     last_node := last_node self;
     error_message := error_message self;
     start_time := start_time self;
     end_time := Some now;
     total_nodes := total_nodes self;
     completed_nodes := completed_nodes self |}.

Definition mark_failed (self : JobInfo) (error_message : string) (now : Z)
  : JobInfo :=
  {| run_id := run_id self;
     graph_id := graph_id self;
     status := FAILED;
     progress_percent := progress_percent self;
     last_node := last_node self;
     error_message := error_message;
     start_time := start_time self;
     end_time := Some now;
     total_nodes := total_nodes self;
     completed_nodes := completed_nodes self |}.

(** ** engine/websocket_manager.py: connections and messages *)

(** A connection object, known by its identity. *)
Abbreviation WebSocket := positive (only parsing).

(** The three events of the stream; [state_snapshot] holds
    [current_length] and [refinement_iterations]. *)
Inductive message : Type :=
| NodeExecuted (node : string) (iteration : Z) (timestamp : Z)
               (state_snapshot : Z * Z)
| Completed (run_id : string) (graph_id : string)
| Error (text : string).

(** ** The state shared by a run *)

(** What a run does to the two singletons, in order: [JobEvent] is the
    record a tracker method has just stored under a run id, [Published] a
    call of [broadcast_to_graph], [SendText] one [send_text] on a
    connection, with [true] when it returned and [false] when it raised.
    The trace is an observation of the run, not a variable of the source. *)
Inductive event : Type :=
| JobEvent (run_id : string) (job : JobInfo)
| Published (graph_id : string) (m : message)
| SendText (ws : WebSocket) (m : message) (delivered : bool).

(** [jobs] is [job_tracker.jobs]; [active_connections] is
    [websocket_manager.active_connections]; [closed] holds the connections
    on which [send_text] raises; [ticks] counts the readings of the clock
    taken so far.  The two locks have no counterpart: the operations below
    run one at a time. *)
Record World : Type := mkWorld {
  jobs : gmap string JobInfo;
  active_connections : gmap string (gset WebSocket);
  closed : gset WebSocket;
  ticks : nat;
  trace : list event
}.

Definition set_jobs (w : World) (j : gmap string JobInfo) : World :=
  mkWorld j (active_connections w) (closed w) (ticks w) (trace w).

Definition set_connections (w : World) (c : gmap string (gset WebSocket))
  : World :=
  mkWorld (jobs w) c (closed w) (ticks w) (trace w).

Definition observe (w : World) (evs : list event) : World :=
  mkWorld (jobs w) (active_connections w) (closed w) (ticks w)
          (trace w ++ evs).

Definition tick (w : World) : World :=
  mkWorld (jobs w) (active_connections w) (closed w) (S (ticks w)) (trace w).

(** The channels subscribed to a topic. *)
Definition subscribers (w : World) (graph_id : string) : gset WebSocket :=
  default ∅ (active_connections w !! graph_id).

(** The values [progress_percent] took for a run, oldest first. *)
Definition percent_history (run_id : string) (tr : list event) : list Z :=
  omap (fun ev => match ev with
                  | JobEvent r job =>
                      if bool_decide (r = run_id)
                      then Some (progress_percent job) else None
                  | _ => None
                  end) tr.

(** The messages handed to [broadcast_to_graph], oldest first. *)
Definition published (tr : list event) : list (string * message) :=
  omap (fun ev => match ev with
                  | Published g m => Some (g, m)
                  | _ => None
                  end) tr.

Section Engine.

(** Python's [repr] on strings, which [str] applies to the argument of
    a [KeyError]. *)
Variable repr : string -> string.

(** The system clock: [utcnow k] is its [k]-th reading, in
    microseconds. *)
Variable utcnow : nat -> Z.

Definition str (e : exn) : string :=
  match e with
  | ValueError msg => msg
  | KeyError msg => repr msg
  | RuntimeError msg => msg
  | Exception text => text
  end.

(** *** JobTracker *)

Definition create_job (run_id graph_id : string) (w : World) : World :=
  let job := mkJob run_id graph_id STARTED 0 "" "" (utcnow (ticks w))
                   None 0 0 in
  observe (set_jobs (tick w) (<[run_id := job]> (jobs w)))
          [JobEvent run_id job].

Definition get_job (run_id : string) (w : World) : option JobInfo :=
  jobs w !! run_id.

Definition update_job_progress (run_id node : string)
    (completed_nodes total_nodes : Z) (w : World) : World :=
  match jobs w !! run_id with
  | Some job =>
      let job := update_progress job node completed_nodes total_nodes in
      observe (set_jobs w (<[run_id := job]> (jobs w)))
              [JobEvent run_id job]
  | None => w
  end.

Definition mark_job_completed (run_id : string) (w : World) : World :=
  match jobs w !! run_id with
  | Some job =>
      let job := mark_completed job (utcnow (ticks w)) in
      observe (set_jobs (tick w) (<[run_id := job]> (jobs w)))
              [JobEvent run_id job]
  | None => w
  end.

Definition mark_job_failed (run_id error_message : string) (w : World)
  : World :=
  match jobs w !! run_id with
  | Some job =>
      let job := mark_failed job error_message (utcnow (ticks w)) in
      observe (set_jobs (tick w) (<[run_id := job]> (jobs w)))
              [JobEvent run_id job]
  | None => w
  end.

(** *** WebSocketManager *)

(** [connect], after the handshake. *)
Definition connect (websocket : WebSocket) (graph_id : string) (w : World)
  : World :=
  set_connections w
    (<[graph_id := {[websocket]} ∪ subscribers w graph_id]>
       (active_connections w)).

Definition disconnect (websocket : WebSocket) (graph_id : string)
    (w : World) : World :=
  match active_connections w !! graph_id with
  | Some conns =>
      let conns := conns ∖ {[websocket]} in
      if bool_decide (conns = ∅)
      then set_connections w (delete graph_id (active_connections w))
      else set_connections w (<[graph_id := conns]> (active_connections w))
  | None => w
  end.

(** The [for] loop of [broadcast_to_graph] over a snapshot of the set:
    the connections whose send raised, and the sends in order. *)
Fixpoint send_all (closed : gset WebSocket) (m : message)
    (snapshot : list WebSocket) : gset WebSocket * list event :=
  match snapshot with
  | [] => (∅, [])
  | websocket :: rest =>
      let '(disconnected, sends) := send_all closed m rest in
      if bool_decide (websocket ∈ closed)
      then ({[websocket]} ∪ disconnected,
            SendText websocket m false :: sends)
      else (disconnected, SendText websocket m true :: sends)
  end.

Definition broadcast_to_graph (graph_id : string) (m : message) (w : World)
  : World :=
  let w := observe w [Published graph_id m] in
  match active_connections w !! graph_id with
  | None => w
  | Some conns =>
      let '(disconnected, sends) := send_all (closed w) m (elements conns) in
      let w := observe w sends in
      if bool_decide (disconnected = ∅) then w
      else
        let conns := conns ∖ disconnected in
        if bool_decide (conns = ∅)
        then set_connections w (delete graph_id (active_connections w))
        else set_connections w
               (<[graph_id := conns]> (active_connections w))
  end.

Definition send_node_executed (graph_id node : string) (iteration : Z)
    (timestamp : Z) (state_snapshot : Z * Z) (w : World) : World :=
  broadcast_to_graph graph_id
    (NodeExecuted node iteration timestamp state_snapshot) w.

Definition send_completed (graph_id run_id : string) (w : World) : World :=
  broadcast_to_graph graph_id (Completed run_id graph_id) w.

Definition send_error (graph_id error_message : string) (w : World)
  : World :=
  broadcast_to_graph graph_id (Error error_message) w.

(** *** engine/graph.py: the synchronous run *)

(** One entry of the execution log.  [duration_us] is the difference of
    the two clock readings, which the source stores in milliseconds
    rounded to two decimals. *)
Record log_entry : Type := mkEntry {
  node : string;
  timestamp : Z;
  duration_us : Z;
  iteration : Z
}.

Definition max_iterations : Z := 1000.

(** The body of the [try]: look the node up and call it. *)
Definition call_node (self : WorkflowGraph) (current_node : string)
    (state : WorkflowState) : result exn WorkflowState :=
  let* node_func := get_node (registry self) current_node in
  node_func state.

Definition node_failed (current_node : string) (e : exn) : string :=
  "Node '" +:+ current_node +:+ "' failed: " +:+ str e.

(** The [while] loop of [execute].  [fuel] bounds the number of turns
    of the embedding; [None] is the answer when it runs out.
    [clock] counts the readings of the clock the run has taken.  The list
    [visited_sequence] of the source feeds a log line only and is left
    out. *)
Fixpoint execute_loop (fuel : nat) (self : WorkflowGraph)
    (current_node : option string) (state : WorkflowState)
    (execution_log : list log_entry) (iteration_count : Z) (clock : nat)
  : option (result exn WorkflowState * list log_entry) :=
  match current_node with
  | None => Some (Ok state, execution_log)
  | Some current_node =>
      match fuel with
      | O => None
      | S fuel =>
          let iteration_count := iteration_count + 1 in
          if max_iterations <? iteration_count then
            Some (Raise (RuntimeError
                    ("Execution exceeded maximum iterations (1000). "
                     +:+ "Possible infinite loop detected.")),
                  execution_log)
          else
            let start_time := utcnow clock in
            match call_node self current_node state with
            | Raise e =>
                Some (Raise (RuntimeError (node_failed current_node e)),
                      execution_log)
            | Ok state =>
                let end_time := utcnow (S clock) in
                let entry :=
                  mkEntry current_node start_time (end_time - start_time)
                          iteration_count in
                let execution_log := execution_log ++ [entry] in
                execute_loop fuel self
                  (_get_next_node self current_node state) state
                  execution_log iteration_count (S (S clock))
            end
      end
  end.

(** [execute(self, initial_state)]: the outcome, and [execution_log] as
    it stands when the call ends (a caller receives the log with [Ok]
    only). *)
Definition execute (self : WorkflowGraph) (initial_state : WorkflowState)
  : option (result exn WorkflowState * list log_entry) :=
  execute_loop (S (Z.to_nat max_iterations)) self
    (Some (entry_point (definition self))) initial_state [] 0 0%nat.

(** *** engine/async_graph.py *)

Definition now (w : World) : Z * World := (utcnow (ticks w), tick w).

(** The [while] loop of [execute_async]: it ends with the state and the
    counter when its condition fails, or with the error the handler of
    a failed node raises. *)
Fixpoint execute_async_loop (fuel : nat) (self : WorkflowGraph)
    (run_id graph_id : string) (current_node : option string)
    (state : WorkflowState) (execution_log : list log_entry)
    (iteration_count : Z) (w : World)
  : option (result exn (WorkflowState * Z) * list log_entry * World) :=
  match current_node with
  | None => Some (Ok (state, iteration_count), execution_log, w)
  | Some current_node =>
      if iteration_count <? max_iterations then
        match fuel with
        | O => None
        | S fuel =>
            let iteration_count := iteration_count + 1 in
            let '(start_time, w) := now w in
            let w :=
              update_job_progress run_id current_node (iteration_count - 1)
                (Z.of_nat (length (nodes (definition self)))) w in
            match call_node self current_node state with
            | Raise e =>
                let error_msg := node_failed current_node e in
                let w := mark_job_failed run_id error_msg w in
                let w := send_error graph_id error_msg w in
                Some (Raise (RuntimeError error_msg), execution_log, w)
            | Ok state =>
                let '(end_time, w) := now w in
                let entry :=
                  mkEntry current_node start_time (end_time - start_time)
                          iteration_count in
                let execution_log := execution_log ++ [entry] in
                let w :=
                  send_node_executed graph_id current_node iteration_count
                    start_time
                    (current_length state, refinement_iterations state) w in
                let current_node :=
                  _get_next_node self current_node state in
                execute_async_loop fuel self run_id graph_id current_node
                  state execution_log iteration_count w
            end
        end
      else Some (Ok (state, iteration_count), execution_log, w)
  end.

(** The body of the outer [try] of [execute_async]. *)
Definition execute_async_try (self : WorkflowGraph) (run_id : string)
    (initial_state : WorkflowState) (w : World)
  : option (result exn WorkflowState * list log_entry * World) :=
  let graph_id := "async_execution" in
  let total := Z.of_nat (length (nodes (definition self))) in
  let w := update_job_progress run_id "starting" 0 total w in
  match execute_async_loop (Z.to_nat max_iterations) self run_id graph_id
          (Some (entry_point (definition self))) initial_state [] 0 w with
  | None => None
  | Some (Raise e, execution_log, w) => Some (Raise e, execution_log, w)
  | Some (Ok (state, iteration_count), execution_log, w) =>
      if max_iterations <=? iteration_count then
        let error_msg := "Execution exceeded maximum iterations (1000)" in
        let w := mark_job_failed run_id error_msg w in
        let w := send_error graph_id error_msg w in
        Some (Raise (RuntimeError error_msg), execution_log, w)
      else
        let w := mark_job_completed run_id w in
        let w := send_completed graph_id run_id w in
        Some (Ok state, execution_log, w)
  end.

(** [execute_async(self, run_id, initial_state)]: the outer handler
    marks the job failed and publishes an error once more, then raises
    the exception again. *)
Definition execute_async (self : WorkflowGraph) (run_id : string)
    (initial_state : WorkflowState) (w : World)
  : option (result exn WorkflowState * list log_entry * World) :=
  match execute_async_try self run_id initial_state w with
  | Some (Raise e, execution_log, w) =>
      let error_msg := "Async execution failed: " +:+ str e in
      let w := mark_job_failed run_id error_msg w in
      let w := send_error "async_execution" error_msg w in
      Some (Raise e, execution_log, w)
  | r => r
  end.

(** *** How a run ends *)

(** The log entries of the nodes [names] completed one after the other,
    the counter standing at [it] and the clock at its [clock]-th reading
    when the first of them starts. *)
Fixpoint path_log (names : list string) (it : Z) (clock : nat)
  : list log_entry :=
  match names with
  | [] => []
  | n :: rest =>
      mkEntry n (utcnow clock) (utcnow (S clock) - utcnow clock) (it + 1)
      :: path_log rest (it + 1) (S (S clock))
  end.

Definition iteration_limit_error : exn :=
  RuntimeError
    ("Execution exceeded maximum iterations (1000). "
     +:+ "Possible infinite loop detected.").

(** How a run of the loop ends when the counter stands at [it] and
    [more] entries were added to the log. *)
Definition bounded_outcome (out : result exn WorkflowState) (it : Z)
    (more : list log_entry) : Prop :=
  it + Z.of_nat (length more) <= max_iterations /\
  match out with
  | Ok _ => True
  | Raise e =>
      (e = iteration_limit_error /\
       it + Z.of_nat (length more) = max_iterations) \/
      (exists n e', e = RuntimeError (node_failed n e') /\
                    it + Z.of_nat (length more) < max_iterations)
  end.

End Engine.

(** The tracker holds a record for the run. *)
Definition tracked (run_id : string) (w : World) : Prop :=
  is_Some (jobs w !! run_id).

(** The status the tracker holds for a run. *)
Definition job_status (run_id : string) (w : World) : option JobStatus :=
  status <$> jobs w !! run_id.

Definition job_percent (run_id : string) (w : World) : option Z :=
  progress_percent <$> jobs w !! run_id.

(** What the statements below read off the end of an asynchronous run:
    the outcome, the length of the log, the status and the percentage of
    the job, and the completion and error messages published. *)
Record run_summary : Type := mkSummary {
  sum_outcome : result exn WorkflowState;
  sum_executed : nat;
  sum_status : option JobStatus;
  sum_percent : option Z;
  sum_published : list (string * message)
}.

Definition is_completed_event (gm : string * message) : bool :=
  match gm.2 with Completed _ _ => true | _ => false end.

Definition is_error_event (gm : string * message) : bool :=
  match gm.2 with Error _ => true | _ => false end.

Definition is_final_event (gm : string * message) : bool :=
  is_completed_event gm || is_error_event gm.

Definition summary (run_id : string)
    (r : option (result exn WorkflowState * list log_entry * World))
  : option run_summary :=
  match r with
  | Some (out, log, w) =>
      Some (mkSummary out (length log) (job_status run_id w)
              (job_percent run_id w)
              (List.filter is_final_event (published (trace w))))
  | None => None
  end.

(** The percentages the job of a run went through. *)
Definition run_history (run_id : string)
    (r : option (result exn WorkflowState * list log_entry * World))
  : option (list Z) :=
  match r with
  | Some (_, _, w) => Some (percent_history run_id (trace w))
  | None => None
  end.

Definition sync_summary
    (r : option (result exn WorkflowState * list log_entry))
  : option (result exn WorkflowState * nat) :=
  match r with
  | Some (out, log) => Some (out, length log)
  | None => None
  end.

(** ** Auxiliary notions for the statements *)

(** The entry of a key once [current_data.update(updates)] has run. *)
Definition updated (u d : gmap string value) (k : string) : option value :=
  match u !! k with Some v => Some v | None => d !! k end.

Definition typed_at (u : gmap string value) (k : string)
    (ty : value -> bool) : Prop :=
  match u !! k with Some v => ty v | None => true end = true.

(** The loop predicate of the control node, on the fields of a state. *)
Definition should_loop (state : WorkflowState) : Prop :=
  current_length state > max_length state /\
  refinement_iterations state < max_refinement_iterations state.

(** A definition the validator refuses: the entry point, the source of
    an edge or the target of an edge is not one of the nodes. *)
Definition structurally_invalid (d : GraphDefinition) : Prop :=
  entry_point d ∉ nodes d \/
  (exists source, is_Some (edges d !! source) /\ source ∉ nodes d) \/
  (exists source targets target,
     edges d !! source = Some targets /\ target ∈ targets /\
     target ∉ nodes d).

(** [path self cur s names cur' s']: from node [cur] and state [s], the
    nodes [names] run to completion one after the other, each chosen by
    successor resolution, and leave the state [s'] with [cur'] next. *)
Inductive path (self : WorkflowGraph)
  : option string -> WorkflowState -> list string ->
    option string -> WorkflowState -> Prop :=
| path_nil cur s : path self cur s [] cur s
| path_step n s s1 names cur' s' :
    call_node self n s = Ok s1 ->
    path self (_get_next_node self n s1) s1 names cur' s' ->
    path self (Some n) s (n :: names) cur' s'.

(** The iteration indices [first + 1, ..., first + k]. *)
Definition iterations_from (first : Z) (k : nat) : list Z :=
  List.map (fun i => first + Z.of_nat i) (seq 1 k).

(** ** Example inputs *)

(** A node that counts one more refinement and changes nothing else. *)
Definition record_refinement : node_func := fun s =>
  Ok (mkState (text s) (max_length s) (chunk_size s) (chunks s)
        (chunk_summaries s) (merged_summary s) (refined_summary s)
        (current_length s) (refinement_iterations s + 1)
        (max_refinement_iterations s) (execution_metadata s)).

(** A node that always raises. *)
Definition failing_node : node_func := fun _ => Raise (Exception "boom").

Definition loop_registry : NodeRegistry :=
  register_all NodeRegistry_init
    [ ("refine_summary", record_refinement);
      ("check_length_loop", fun s => Ok (check_length_loop s));
      ("broken", failing_node) ].

(** Two nodes in a cycle: refine, then the loop control, which routes
    back while the summary is too long. *)
Definition loop_definition : GraphDefinition :=
  mkDefinition ["refine_summary"; "check_length_loop"]
    (<["refine_summary" := ["check_length_loop"]]>
       (<["check_length_loop" := ["refine_summary"]]> ∅))
    "refine_summary".

Definition loop_graph : WorkflowGraph := mkGraph loop_definition loop_registry.

(** A refinement followed by a node that raises. *)
Definition broken_definition : GraphDefinition :=
  mkDefinition ["refine_summary"; "broken"]
    (<["refine_summary" := ["broken"; "refine_summary"]]> ∅)
    "refine_summary".

Definition broken_graph : WorkflowGraph :=
  mkGraph broken_definition loop_registry.

(** A state whose summary stays too long: the control node loops until
    [k] refinements are counted. *)
Definition too_long (k : Z) : WorkflowState :=
  mkState "" 5 50 [] [] "" "" 10 0 k ∅.

Definition example_clock (k : nat) : Z := Z.of_nat k.

(** The tracker and the broadcaster as [run_async] leaves them when it
    has created the job of run [r1]. *)
Definition submitted : World :=
  create_job example_clock "r1" "g1" (mkWorld ∅ ∅ ∅ 0 []).

(** A state in the middle of a run, no field at its default, and a
    store that holds it as its only object. *)
Definition busy_state : WorkflowState :=
  mkState "some text to summarize" 80 20 ["some text"; "to summarize"]
    ["some"; "summarize"] "some. summarize." "some." 5 1 4
    (<["chunks_created" := MInt 2]> ∅).

Definition one_object : Store := <[1%positive := busy_state]> ∅.

(** Three subscribers of one topic, the second with a closed
    connection. *)
Definition three_subscribers : World :=
  mkWorld ∅ (<["g1" := {[1%positive; 2%positive; 3%positive]}]> ∅)
          {[2%positive]} 0 [].

(** * Further notions: how runs end, what they publish, and the nodes of
      the summarization workflow *)

Section Outcomes.

Variable repr : string -> string.

(** How [execute] ends on a graph, given the nodes [names] it completed
    and the node [cur'] and state [s'] they lead to: it returns [s'] when
    there is no next node; it raises the limit error when 1000 nodes are
    completed and one more is due; it raises the error of the next node
    when the call of that node raises. *)
Definition ends_as (self : WorkflowGraph) (out : result exn WorkflowState)
    (names : list string) (cur' : option string) (s' : WorkflowState)
  : Prop :=
  match out with
  | Ok final => cur' = None /\ s' = final
  | Raise e =>
      exists n,
        cur' = Some n /\
        ((e = iteration_limit_error /\ length names = 1000%nat) \/
         (exists e', call_node self n s' = Raise e' /\
                     e = RuntimeError (node_failed repr n e') /\
                     (length names < 1000)%nat))
  end.

End Outcomes.

(** A graph as [WorkflowGraph.__init__] accepts it. *)
Definition constructed (self : WorkflowGraph) : Prop :=
  WorkflowGraph_init (definition self) (registry self) = Ok self.

(** The nodes a traversal completes within [fuel] steps, with the node
    and the state it then stands at; a node whose call raises stops it. *)
Fixpoint follow (fuel : nat) (self : WorkflowGraph) (cur : option string)
    (s : WorkflowState) : list string * option string * WorkflowState :=
  match fuel, cur with
  | S fuel, Some n =>
      match call_node self n s with
      | Ok s1 =>
          let '(names, cur', s') :=
            follow fuel self (_get_next_node self n s1) s1 in
          (n :: names, cur', s')
      | Raise _ => ([], cur, s)
      end
  | _, _ => ([], cur, s)
  end.

(** The [NODE_EXECUTED] messages among the published ones: topic, node,
    iteration and timestamp of each, oldest first. *)
Definition executed_events (ms : list (string * message))
  : list (string * string * Z * Z) :=
  omap (fun gm => match gm.2 with
                  | NodeExecuted n i t _ => Some (gm.1, n, i, t)
                  | _ => None
                  end) ms.

(** What the entries of a log announce on a topic. *)
Definition log_events (graph_id : string) (log : list log_entry)
  : list (string * string * Z * Z) :=
  List.map (fun e => (graph_id, node e, iteration e, timestamp e)) log.

(** The completion and error messages among the published ones. *)
Definition final_events (w : World) : list (string * message) :=
  List.filter is_final_event (published (trace w)).

(** [run_effect run_id graph_id w w' entries finals]: from [w] to [w']
    the records of the other runs are unchanged, no record is created or
    removed, the [NODE_EXECUTED] messages published are those of
    [entries] and the completion and error messages published are
    [finals]. *)
Definition run_effect (run_id graph_id : string) (w w' : World)
    (entries : list log_entry) (finals : list (string * message)) : Prop :=
  (forall r, r <> run_id -> jobs w' !! r = jobs w !! r) /\
  (forall r, is_Some (jobs w' !! r) <-> is_Some (jobs w !! r)) /\
  executed_events (published (trace w'))
  = executed_events (published (trace w)) ++ log_events graph_id entries /\
  final_events w' = final_events w ++ finals.

(** The error text the tracker holds for a run. *)
Definition job_error (run_id : string) (w : World) : option string :=
  error_message <$> jobs w !! run_id.

Definition async_limit_error : exn :=
  RuntimeError "Execution exceeded maximum iterations (1000)".

(** The completion or error messages [execute_async] publishes when it
    ends with the given outcome; [text] is [str(e)] of the exception. *)
Definition finals_of (run_id : string) (text : exn -> string)
    (out : result exn WorkflowState) : list (string * message) :=
  match out with
  | Ok _ => [("async_execution", Completed run_id "async_execution")]
  | Raise e =>
      [ ("async_execution", Error (text e));
        ("async_execution",
         Error ("Async execution failed: " +:+ text e)) ]
  end.

(** What the tracker holds for a tracked run that ended with the given
    outcome. *)
Definition job_settled (run_id : string) (text : exn -> string)
    (out : result exn WorkflowState) (w : World) : Prop :=
  match out with
  | Ok _ =>
      job_status run_id w = Some COMPLETED /\
      job_percent run_id w = Some 100
  | Raise e =>
      job_status run_id w = Some FAILED /\
      job_error run_id w = Some ("Async execution failed: " +:+ text e)
  end.

(** The outcome of [execute_async] in terms of that of [execute] and of
    the number of nodes completed: the same below 1000 nodes. *)
Definition async_outcome (out : result exn WorkflowState) (executed : nat)
  : result exn WorkflowState :=
  if bool_decide (executed < 1000)%nat then out else Raise async_limit_error.

(** ** engine/job_tracker.py: the sweep of old jobs *)

(** What the subtraction of an [int] from a [float] raises when the
    [int] is beyond the range of a [float]. *)
Inductive arithmetic_error : Type :=
| OverflowError (msg : string).

(** The conversion of an [int] to a [float] that arithmetic between the
    two performs: the nearest binary64, ties to even; [None] when that
    is not finite, where Python raises [OverflowError]. *)
Definition int_to_float (n : Z) : option float :=
  let x := SF2Prim (binary_normalize prec emax n 0 false) in
  if PrimFloat.is_infinity x then None else Some x.

Section Cleanup.

Variable utcnow : nat -> Z.

(** [datetime.timestamp()]: the float, in seconds, of a reading of the
    clock. *)
Variable timestamp : Z -> float.

(** [job.end_time and job.end_time.timestamp() < cutoff_time]. *)
Definition is_old (cutoff_time : float) (job : JobInfo) : bool :=
  match end_time job with
  | Some t => PrimFloat.ltb (timestamp t) cutoff_time
  | None => false
  end.

(** [cleanup_old_jobs(self, max_age_hours)]: the clock is read, the age
    in seconds is converted and subtracted, which raises when it is
    beyond the range of a float; then the keys to remove are collected
    and deleted one by one.  The second component is the state after the
    call. *)
Definition cleanup_old_jobs (max_age_hours : Z) (w : World)
  : result arithmetic_error unit * World :=
  let now := timestamp (utcnow (ticks w)) in
  let w := tick w in
  match int_to_float (max_age_hours * 3600) with
  | None => (Raise (OverflowError "int too large to convert to float"), w)
  | Some age =>
      let cutoff_time := PrimFloat.sub now age in
      let to_remove :=
        (List.filter (fun rj => is_old cutoff_time rj.2)
                     (map_to_list (jobs w))).*1 in
      (Ok tt,
       set_jobs w (fold_left (fun js run_id => delete run_id js) to_remove
                             (jobs w)))
  end.

(** A job that has ended, and ended before the cutoff: the timestamp of
    its end and the cutoff are numbers and the first is the smaller, in
    the order of IEEE 754. *)
Definition expired (cutoff_time : float) (job : JobInfo) : Prop :=
  exists t,
    end_time job = Some t /\
    SFcompare (Prim2SF (timestamp t)) (Prim2SF cutoff_time) = Some Lt.

End Cleanup.

(** ** engine/websocket_manager.py: the shape of the subscriber map *)

(** No topic is kept with an empty set of subscribers. *)
Definition no_empty_topic (w : World) : Prop :=
  forall graph_id conns,
    active_connections w !! graph_id = Some conns -> conns <> ∅.

(** ** Python's string methods *)

(** A [str] is embedded as a [string] whose characters are the code
    points below 256; the definitions of this part follow the methods of
    [str] on such texts. *)

From Stdlib Require Import Ascii.
From Stdlib Require DecimalString.

(** [str(n)] on an [int]: its decimal digits, after a minus sign when
    it is negative. *)
Definition str_int (n : Z) : string :=
  DecimalString.NilZero.string_of_int (Z.to_int n).

(** [len(s)]. *)
Definition len (s : string) : Z := Z.of_nat (String.length s).

(** [c.isspace()]: the code points 9 to 13, 28 to 32, 133 and 160. *)
Definition isspace (c : ascii) : bool :=
  let n := nat_of_ascii c in
  ((9 <=? n)%nat && (n <=? 13)%nat) || ((28 <=? n)%nat && (n <=? 32)%nat)
  || (n =? 133)%nat || (n =? 160)%nat.

Definition is_dot (c : ascii) : bool := Ascii.eqb c "."%char.

Fixpoint lstrip (s : string) : string :=
  match s with
  | EmptyString => EmptyString
  | String c r => if isspace c then lstrip r else s
  end.

(** [s.rstrip()] and [s.rstrip(".")]: the characters satisfying [p] are
    removed from the end. *)
Fixpoint rstrip_with (p : ascii -> bool) (s : string) : string :=
  match s with
  | EmptyString => EmptyString
  | String c r =>
      match rstrip_with p r with
      | EmptyString => if p c then EmptyString else String c EmptyString
      | r' => String c r'
      end
  end.

(** [s.strip()]. *)
Definition strip (s : string) : string := rstrip_with isspace (lstrip s).

(** [s.split()]: the maximal runs of characters that are not white
    space; [cur] is the run being read. *)
Fixpoint split_from (cur : string) (s : string) : list string :=
  match s with
  | EmptyString => if String.eqb cur "" then [] else [cur]
  | String c r =>
      if isspace c
      then if String.eqb cur "" then split_from "" r
           else cur :: split_from "" r
      else split_from (cur +:+ String c EmptyString) r
  end.

Definition split (s : string) : list string := split_from "" s.

(** [s.split(sep)] for a separator of one character. *)
Fixpoint split_at (sep : ascii) (s : string) : list string :=
  match s with
  | EmptyString => [""]
  | String c r =>
      if Ascii.eqb c sep then "" :: split_at sep r
      else match split_at sep r with
           | h :: t => String c h :: t
           | [] => [String c EmptyString]
           end
  end.

(** [s.replace("..", ".")]: the occurrences are replaced from the left,
    without overlap. *)
Fixpoint replace_dots (s : string) : string :=
  match s with
  | EmptyString => EmptyString
  | String c r =>
      if is_dot c then
        match r with
        | String c2 r2 =>
            if is_dot c2 then String "."%char (replace_dots r2)
            else String c (replace_dots r)
        | EmptyString => String c EmptyString
        end
      else String c (replace_dots r)
  end.

(** [s[:k]]: a negative [k] counts from the end. *)
Definition slice_to (k : Z) (s : string) : string :=
  if 0 <=? k then substring 0 (Z.to_nat k) s
  else substring 0 (Z.to_nat (len s + k)) s.

(** [s.rsplit(" ", 1)[0]]: what stands before the last space, or [s]
    when there is none. *)
Fixpoint before_last_space (s : string) : option string :=
  match s with
  | EmptyString => None
  | String c r =>
      match before_last_space r with
      | Some p => Some (String c p)
      | None => if Ascii.eqb c " "%char then Some EmptyString else None
      end
  end.

Definition rsplit_head (s : string) : string :=
  default s (before_last_space s).

(** [x or y] on strings: the empty string is false. *)
Definition str_or (x y : string) : string :=
  if String.eqb x "" then y else x.

(** ** workflows/summarization/nodes_upgraded.py: the nodes *)

(** Keyword arguments as a dict. *)
Definition kwargs (l : list (string * value)) : gmap string value :=
  list_to_map l.

(** One turn of the loop of [split_text] over the words: the chunks
    closed so far, the words of the chunk being filled and the length
    counted for it. *)
Definition split_step (chunk_size : Z)
    (acc : list string * list string * Z) (word : string)
  : list string * list string * Z :=
  let '(chunks, current_chunk, current_length) := acc in
  let word_length := len word + 1 in
  if (chunk_size <? current_length + word_length)
     && negb (bool_decide (current_chunk = []))
  then (chunks ++ [String.concat " " current_chunk], [word], word_length)
  else (chunks, current_chunk ++ [word], current_length + word_length).

Definition split_text (state : WorkflowState)
  : result validation_error WorkflowState :=
  let text := strip (text state) in
  let chunk_size := chunk_size state in
  if String.eqb text "" then
    copy_with_updates state (kwargs [("chunks", VList [])])
  else
    let words := split text in
    let '(chunks, current_chunk, _) :=
      fold_left (split_step chunk_size) words ([], [], 0) in
    let chunks :=
      if bool_decide (current_chunk = []) then chunks
      else chunks ++ [String.concat " " current_chunk] in
    copy_with_updates state
      (kwargs
         [ ("chunks", VList chunks);
           ("execution_metadata",
            VDict (<["chunks_created" := MInt (Z.of_nat (length chunks))]>
                     (execution_metadata state))) ]).

Section Summarize.

(** The function [_frequency_based_summarize] of the source, which
    rests on regular expressions and float scores: the node below is
    stated for whatever function of one chunk stands in its place. *)
Variable _frequency_based_summarize : string -> string.

Definition summarize_chunks (state : WorkflowState)
  : result validation_error WorkflowState :=
  let chunks := chunks state in
  if bool_decide (chunks = []) then
    copy_with_updates state (kwargs [("chunk_summaries", VList [])])
  else
    let summaries := List.map _frequency_based_summarize chunks in
    copy_with_updates state
      (kwargs
         [ ("chunk_summaries", VList summaries);
           ("execution_metadata",
            VDict (<["summarization_method" :=
                       MStr "frequency_based_scoring"]>
                     (<["summaries_created" :=
                          MInt (Z.of_nat (length summaries))]>
                        (execution_metadata state)))) ]).

End Summarize.

(** [". ".join(s.strip().rstrip(".") for s in summaries if s.strip())],
    then a final dot. *)
Definition merge_text (summaries : list string) : string :=
  String.concat ". "
    (List.map (fun s => rstrip_with is_dot (strip s))
       (List.filter (fun s => negb (String.eqb (strip s) "")) summaries))
  +:+ ".".

Definition merge_summaries (state : WorkflowState)
  : result validation_error WorkflowState :=
  let summaries := chunk_summaries state in
  if bool_decide (summaries = []) then
    copy_with_updates state
      (kwargs [("merged_summary", VStr ""); ("current_length", VInt 0)])
  else
    let merged := merge_text summaries in
    copy_with_updates state
      (kwargs
         [ ("merged_summary", VStr merged);
           ("current_length", VInt (len merged));
           ("refined_summary", VStr merged);
           ("execution_metadata",
            VDict (<["merged_length" := MInt (len merged)]>
                     (execution_metadata state))) ]).

(** The sentences [refine_summary] keeps: the stripped pieces between
    dots that are not empty and have at least four words. *)
Definition refine_parts (merged : string) : list string :=
  let parts :=
    List.map strip
      (List.filter (fun p => negb (String.eqb (strip p) ""))
         (split_at "." merged)) in
  List.filter (fun p => 4 <=? Z.of_nat (length (split p))) parts.

(** The [for] loop of [refine_summary], left at the first part that
    does not fit. *)
Fixpoint refine_fill (max_len : Z) (refined : string) (parts : list string)
  : string :=
  match parts with
  | [] => refined
  | p :: rest =>
      if len refined + len p + 2 <=? max_len
      then refine_fill max_len (strip (refined +:+ " " +:+ p)) rest
      else refined
  end.

Definition refine_summary (state : WorkflowState)
  : result validation_error WorkflowState :=
  let merged := str_or (merged_summary state) (text state) in
  let max_len := max_length state in
  let merged := replace_dots merged in
  let parts := refine_parts merged in
  let refined := refine_fill max_len "" parts in
  let refined :=
    if max_len <? len refined then rsplit_head (slice_to max_len refined)
    else refined in
  let final_summary := refined +:+ "." in
  let new_length := len final_summary in
  let iterations := refinement_iterations state + 1 in
  copy_with_updates state
    (kwargs
       [ ("refined_summary", VStr final_summary);
         ("current_length", VInt new_length);
         ("refinement_iterations", VInt iterations);
         ("execution_metadata",
          VDict (<["refinement_" +:+ str_int iterations +:+ "_reduction" :=
                     MInt (len merged - new_length)]>
                   (<["refinement_" +:+ str_int iterations +:+ "_length" :=
                        MInt new_length]>
                      (execution_metadata state)))) ]).

(** ** workflows/summarization/graph_def.py *)

Section Workflow.

Variable _frequency_based_summarize : string -> string.

(** The text [str(e)] of the validation error of a field, were a node to
    raise one. *)
Variable validation_text : string -> string.

(** A node of the workflow as the engine calls it. *)
Definition as_node (f : WorkflowState -> result validation_error WorkflowState)
  : node_func :=
  fun s =>
    match f s with
    | Ok s' => Ok s'
    | Raise (WrongType field) => Raise (Exception (validation_text field))
    end.

Definition summarization_nodes : list (string * node_func) :=
  [ ("split_text", as_node split_text);
    ("summarize_chunks",
     as_node (summarize_chunks _frequency_based_summarize));
    ("merge_summaries", as_node merge_summaries);
    ("refine_summary", as_node refine_summary);
    ("check_length_loop", fun s => Ok (check_length_loop s)) ].

Definition summarization_definition : GraphDefinition :=
  mkDefinition
    [ "split_text"; "summarize_chunks"; "merge_summaries";
      "refine_summary"; "check_length_loop" ]
    (list_to_map
       [ ("split_text", ["summarize_chunks"]);
         ("summarize_chunks", ["merge_summaries"]);
         ("merge_summaries", ["refine_summary"]);
         ("refine_summary", ["check_length_loop"]);
         ("check_length_loop", ["refine_summary"]) ])
    "split_text".

(** Registrations one after the other; the first that raises ends the
    sequence and the registry keeps the registrations made before it. *)
Fixpoint register_each (registry : NodeRegistry)
    (calls : list (string * node_func)) : result exn unit * NodeRegistry :=
  match calls with
  | [] => (Ok tt, registry)
  | (name, func) :: rest =>
      match register_node registry name func with
      | (Ok _, registry) => register_each registry rest
      | (Raise e, registry) => (Raise e, registry)
      end
  end.

(** [create_summarization_graph(registry)]; the second component is the
    registry after the call. *)
Definition create_summarization_graph (registry : NodeRegistry)
  : result exn WorkflowGraph * NodeRegistry :=
  match register_each registry summarization_nodes with
  | (Raise e, registry) => (Raise e, registry)
  | (Ok _, registry) =>
      (WorkflowGraph_init summarization_definition registry, registry)
  end.

End Workflow.

(** ** Notions for the statements about the nodes *)

(** The length [split_text] counts for a group of words: one more than
    its length for each. *)
Fixpoint group_cost (g : list string) : Z :=
  match g with
  | [] => 0
  | w :: rest => len w + 1 + group_cost rest
  end.

(** A group of words that [split_text] closes as a chunk: it is not
    empty, and it is one word or shorter than the chunk size once
    joined. *)
Definition fits (chunk_size : Z) (g : list string) : Prop :=
  g <> [] /\
  (length g = 1%nat \/ len (String.concat " " g) < chunk_size).

(** A state as a client submits it, with the given limits. *)
Definition document (max_length max_refinement_iterations : Z)
  : WorkflowState :=
  mkState "The engine runs the nodes of a graph one after the other."
    max_length 50 [] [] "" "" 0 0 max_refinement_iterations ∅.

(** [l[:k]] on a list: a negative [k] counts from the end. *)
Definition take_to {A : Type} (k : Z) (l : list A) : list A :=
  if 0 <=? k then take (Z.to_nat k) l
  else take (Z.to_nat (Z.of_nat (length l) + k)) l.

(** [_compress_sentence(sentence, max_words)]. *)
Definition _compress_sentence (sentence : string) (max_words : Z) : string :=
  let words := split sentence in
  if Z.of_nat (length words) <=? max_words then strip sentence
  else
    let compressed_words := take_to max_words words in
    let compressed := String.concat " " compressed_words in
    strip compressed.

(** A word: a text that is not empty and holds no white space. *)
Fixpoint has_space (s : string) : bool :=
  match s with
  | EmptyString => false
  | String c r => isspace c || has_space r
  end.

Definition is_word (w : string) : Prop := w <> "" /\ has_space w = false.


(** A clock that reads whole seconds, and the tracker at second 90000
    with three jobs: one that ended at second 0, one that ended at
    second 100000 and one that has not ended. *)
Definition seconds (t : Z) : float :=
  SF2Prim (binary_normalize prec emax t 0 false).

Definition three_jobs : World :=
  mkWorld
    (<["old" := mkJob "old" "g1" COMPLETED 100 "" "" 0 (Some 0) 0 0]>
       (<["recent" :=
            mkJob "recent" "g1" FAILED 0 "" "e" 0 (Some 100000) 0 0]>
          (<["running" := mkJob "running" "g1" RUNNING 0 "" "" 0 None 0 0]>
             ∅)))
    ∅ ∅ 0 [].

(** A topic whose only subscriber has a closed connection, beside a
    topic with a live subscriber. *)
Definition last_subscriber : World :=
  mkWorld ∅
    (<["g1" := {[2%positive]}]> (<["g2" := {[1%positive]}]> ∅))
    {[2%positive]} 0 [].

(** * Properties *)

(** ** State container *)

Lemma model_dump_lookup (s : WorkflowState) :
  model_dump s !! "text" = Some (VStr (text s)) /\
  model_dump s !! "max_length" = Some (VInt (max_length s)) /\
  model_dump s !! "chunk_size" = Some (VInt (chunk_size s)) /\
  model_dump s !! "chunks" = Some (VList (chunks s)) /\
  model_dump s !! "chunk_summaries" = Some (VList (chunk_summaries s)) /\
  model_dump s !! "merged_summary" = Some (VStr (merged_summary s)) /\
  model_dump s !! "refined_summary" = Some (VStr (refined_summary s)) /\
  model_dump s !! "current_length" = Some (VInt (current_length s)) /\
  model_dump s !! "refinement_iterations"
    = Some (VInt (refinement_iterations s)) /\
  model_dump s !! "max_refinement_iterations"
    = Some (VInt (max_refinement_iterations s)) /\
  model_dump s !! "execution_metadata"
    = Some (VDict (execution_metadata s)).
Proof. repeat split; vm_compute; reflexivity. Qed.

Lemma updated_lookup (u d : gmap string value) (k : string) :
  (u ∪ d) !! k = updated u d k.
Proof.
  unfold updated. rewrite lookup_union.
  destruct (u !! k), (d !! k); reflexivity.
Qed.

Lemma str_field_updated u d k dflt x :
  d !! k = Some (VStr x) -> typed_at u k is_str ->
  exists y, str_field (u ∪ d) k dflt = Ok y /\ updated u d k = Some (VStr y).
Proof.
  unfold typed_at, str_field. rewrite updated_lookup. unfold updated.
  intros Hd Hu. destruct (u !! k) as [[]|]; try discriminate; eauto.
  rewrite Hd. eauto.
Qed.

Lemma int_field_updated u d k dflt x :
  d !! k = Some (VInt x) -> typed_at u k is_int ->
  exists y, int_field (u ∪ d) k dflt = Ok y /\ updated u d k = Some (VInt y).
Proof.
  unfold typed_at, int_field. rewrite updated_lookup. unfold updated.
  intros Hd Hu. destruct (u !! k) as [[]|]; try discriminate; eauto.
  rewrite Hd. eauto.
Qed.

Lemma list_field_updated u d k x :
  d !! k = Some (VList x) -> typed_at u k is_list ->
  exists y, list_field (u ∪ d) k = Ok y /\ updated u d k = Some (VList y).
Proof.
  unfold typed_at, list_field. rewrite updated_lookup. unfold updated.
  intros Hd Hu. destruct (u !! k) as [[]|]; try discriminate; eauto.
  rewrite Hd. eauto.
Qed.

Lemma dict_field_updated u d k x :
  d !! k = Some (VDict x) -> typed_at u k is_dict ->
  exists y, dict_field (u ∪ d) k = Ok y /\ updated u d k = Some (VDict y).
Proof.
  unfold typed_at, dict_field. rewrite updated_lookup. unfold updated.
  intros Hd Hu. destruct (u !! k) as [[]|]; try discriminate; eauto.
  rewrite Hd. eauto.
Qed.

(** Updates of the declared types: the value returned, field by
    field. *)
Lemma copy_with_updates_typed (s : WorkflowState)
    (u : gmap string value) :
  well_typed u = true ->
  exists s', copy_with_updates s u = Ok s' /\
    forall k, k ∈ field_names ->
      model_dump s' !! k
      = match u !! k with Some v => Some v | None => model_dump s !! k end.
Proof.
  intros Hty.
  unfold well_typed, field_names in Hty. cbn [forallb] in Hty.
  repeat (apply andb_prop in Hty; destruct Hty as [? Hty]).
  destruct (model_dump_lookup s) as (D1&D2&D3&D4&D5&D6&D7&D8&D9&D10&D11).
  destruct (str_field_updated u _ _ "" _ D1) as (f1&E1&U1); [assumption|].
  destruct (int_field_updated u _ _ 100 _ D2) as (f2&E2&U2); [assumption|].
  destruct (int_field_updated u _ _ 50 _ D3) as (f3&E3&U3); [assumption|].
  destruct (list_field_updated u _ _ _ D4) as (f4&E4&U4); [assumption|].
  destruct (list_field_updated u _ _ _ D5) as (f5&E5&U5); [assumption|].
  destruct (str_field_updated u _ _ "" _ D6) as (f6&E6&U6); [assumption|].
  destruct (str_field_updated u _ _ "" _ D7) as (f7&E7&U7); [assumption|].
  destruct (int_field_updated u _ _ 0 _ D8) as (f8&E8&U8); [assumption|].
  destruct (int_field_updated u _ _ 0 _ D9) as (f9&E9&U9); [assumption|].
  destruct (int_field_updated u _ _ 5 _ D10) as (f10&E10&U10); [assumption|].
  destruct (dict_field_updated u _ _ _ D11) as (f11&E11&U11); [assumption|].
  exists (mkState f1 f2 f3 f4 f5 f6 f7 f8 f9 f10 f11). split.
  - unfold copy_with_updates, WorkflowState_init.
    rewrite E1, E2, E3, E4, E5, E6, E7, E8, E9, E10, E11. reflexivity.
  - intros k Hk. unfold field_names in Hk.
    destruct (model_dump_lookup (mkState f1 f2 f3 f4 f5 f6 f7 f8 f9 f10 f11))
      as (N1&N2&N3&N4&N5&N6&N7&N8&N9&N10&N11).
    cbn [text max_length chunk_size chunks chunk_summaries merged_summary
         refined_summary current_length refinement_iterations
         max_refinement_iterations execution_metadata] in *.
    unfold updated in *.
    repeat (apply elem_of_cons in Hk; destruct Hk as [-> | Hk];
            [ congruence | ]).
    apply elem_of_nil in Hk. destruct Hk.
Qed.

(** C9. For every state [s], held by a store as the object [self], and
    all updates [u] that give the fields they name values of the declared
    types, [copy_with_updates] returns a new object: its identity was not
    in use, every field named in [u] holds the value [u] gives and every
    other field holds the value it has in [s].  The object [self] is
    still [s] after the call and every other object of the store is what
    it was.  The fields are read through [model_dump]. *)
Theorem copy_with_updates_fields (store : Store) (self : positive)
    (s : WorkflowState) (u : gmap string value) :
  store !! self = Some s ->
  well_typed u = true ->
  exists new s' store',
    copy_with_updates_at self u store = Some (Ok new, store') /\
    copy_with_updates s u = Ok s' /\
    store !! new = None /\
    store' !! new = Some s' /\
    (forall k, k ∈ field_names ->
       model_dump s' !! k
       = match u !! k with Some v => Some v | None => model_dump s !! k end) /\
    store' !! self = Some s /\
    (forall other, other <> new -> store' !! other = store !! other).
Proof.
  intros Hself Hty.
  destruct (copy_with_updates_typed s u Hty) as (s' & Hcopy & Hfields).
  assert (store !! fresh (dom store) = None) as Hnew
    by (apply not_elem_of_dom, is_fresh).
  exists (fresh (dom store)), s', (<[fresh (dom store) := s']> store).
  split.
  { unfold copy_with_updates_at. rewrite Hself, Hcopy. reflexivity. }
  split; [exact Hcopy |]. split; [exact Hnew |].
  split; [apply lookup_insert_eq |]. split; [exact Hfields |].
  split.
  - rewrite lookup_insert_ne; [exact Hself |].
    intros Heq. rewrite Heq in Hnew. congruence.
  - intros other Hne. rewrite lookup_insert_ne by congruence. reflexivity.
Qed.

(** An update of two fields of a state no field of which is at its
    default. *)
Lemma copy_with_updates_fields_witness :
  exists new s' store',
    copy_with_updates_at 1
      (<["max_length" := VInt 7]> (<["chunks" := VList ["a"; "b"]]> ∅))
      one_object
    = Some (Ok new, store') /\
    copy_with_updates busy_state
      (<["max_length" := VInt 7]> (<["chunks" := VList ["a"; "b"]]> ∅))
    = Ok s' /\
    one_object !! new = None /\
    store' !! new = Some s' /\
    (forall k, k ∈ field_names ->
       model_dump s' !! k
       = match (<["max_length" := VInt 7]>
                  (<["chunks" := VList ["a"; "b"]]> ∅) : gmap string value)
                 !! k with
         | Some v => Some v
         | None => model_dump busy_state !! k
         end) /\
    store' !! 1%positive = Some busy_state /\
    (forall other, other <> new -> store' !! other = one_object !! other).
Proof.
  apply (copy_with_updates_fields one_object 1 busy_state
           (<["max_length" := VInt 7]> (<["chunks" := VList ["a"; "b"]]> ∅))).
  - vm_compute. reflexivity.
  - vm_compute. reflexivity.
Defined.

Example copy_with_updates_example :
  copy_with_updates busy_state
    (<["max_length" := VInt 7]> (<["chunks" := VList ["a"; "b"]]> ∅))
  = Ok (mkState "some text to summarize" 7 20 ["a"; "b"]
          ["some"; "summarize"] "some. summarize." "some." 5 1 4
          (<["chunks_created" := MInt 2]> ∅)).
Proof. vm_compute. reflexivity. Qed.

(** An [int] given for the field [text] is not of the declared type:
    the constructor refuses it, no state is returned for these updates
    and the store is left as it is. *)
Lemma copy_with_updates_refuses :
  well_typed (<["text" := VInt 5]> ∅) = false /\
  copy_with_updates busy_state (<["text" := VInt 5]> ∅)
  = Raise (WrongType "text") /\
  (forall s', copy_with_updates busy_state (<["text" := VInt 5]> ∅)
              <> Ok s') /\
  copy_with_updates_at 1 (<["text" := VInt 5]> ∅) one_object
  = Some (Raise (WrongType "text"), one_object).
Proof.
  assert (copy_with_updates busy_state (<["text" := VInt 5]> ∅)
          = Raise (WrongType "text")) as Hraise
    by (vm_compute; reflexivity).
  split; [vm_compute; reflexivity |]. split; [exact Hraise |].
  split; [intros s' Hs; rewrite Hraise in Hs; discriminate |].
  vm_compute. reflexivity.
Qed.

(** ** The loop-control node *)

Lemma should_loop_test (state : WorkflowState) :
  (max_length state <? current_length state) &&
  (refinement_iterations state <? max_refinement_iterations state) = true
  <-> should_loop state.
Proof.
  unfold should_loop. rewrite andb_true_iff, !Z.ltb_lt. lia.
Qed.

Lemma handle_loop_condition_spec (next_nodes : list string)
    (state : WorkflowState) :
  (_handle_loop_condition next_nodes state = Some "refine_summary" <->
   "refine_summary" ∈ next_nodes /\ should_loop state) /\
  (_handle_loop_condition next_nodes state = None <->
   ~ ("refine_summary" ∈ next_nodes /\ should_loop state)).
Proof.
  unfold _handle_loop_condition.
  pose proof (should_loop_test state) as Ht.
  destruct ((max_length state <? current_length state) &&
            (refinement_iterations state <? max_refinement_iterations state))
    eqn:E.
  - case_bool_decide.
    + split; split; try discriminate; tauto.
    + split; split; try discriminate; tauto.
  - assert (~ should_loop state) by (intros Hl; apply Ht in Hl; discriminate).
    split; split; try discriminate; tauto.
Qed.

(** C10. The node function [check_length_loop] returns the state it is
    given, every field unchanged; whether the loop continues is not
    recorded in the state by the node but computed again by successor
    resolution from the fields of that state. *)
Theorem check_length_loop_identity (self : WorkflowGraph)
    (state : WorkflowState) :
  check_length_loop state = state /\
  _get_next_node self "check_length_loop" (check_length_loop state)
  = _get_next_node self "check_length_loop" state /\
  (_get_next_node self "check_length_loop" (check_length_loop state)
   = Some "refine_summary" <->
   (exists next_nodes,
      edges (definition self) !! "check_length_loop" = Some next_nodes /\
      "refine_summary" ∈ next_nodes) /\
   should_loop state).
Proof.
  split; [reflexivity | split; [reflexivity |]].
  unfold check_length_loop, _get_next_node.
  destruct (edges (definition self) !! "check_length_loop") as [l|] eqn:E.
  - destruct l as [|x l].
    + split; [discriminate |].
      intros [(l' & Hl' & Hin) _]. inversion Hl'; subst.
      apply elem_of_nil in Hin. destruct Hin.
    + rewrite bool_decide_eq_true_2 by reflexivity.
      rewrite (proj1 (handle_loop_condition_spec _ _)).
      split.
      * intros [Hin Hl]. split; [eauto | assumption].
      * intros [(l' & Hl' & Hin) Hl]. inversion Hl'; subst. tauto.
  - split; [discriminate |]. intros [(l' & Hl' & _) _]. discriminate.
Qed.

(** ** Successor resolution *)

(** C1. A node whose adjacency entry is absent or empty has no
    successor; a node other than the loop-control node with a non-empty
    adjacency list has the first entry of the list as successor, whatever
    the later entries; the loop-control node has the loop target
    [refine_summary] as successor if and only if the target is in its
    adjacency list, [current_length] exceeds [max_length] and
    [refinement_iterations] is below [max_refinement_iterations], and has
    no successor otherwise, even with a non-empty adjacency list.  A
    node that completes and has no successor ends the run: [execute]
    leaves its loop and returns the state and the log. *)
Theorem get_next_node_spec (self : WorkflowGraph) (current_node : string)
    (state : WorkflowState) :
  (edges (definition self) !! current_node = None \/
   edges (definition self) !! current_node = Some [] ->
   _get_next_node self current_node state = None) /\
  (forall first rest,
     current_node <> "check_length_loop" ->
     edges (definition self) !! current_node = Some (first :: rest) ->
     _get_next_node self current_node state = Some first) /\
  (current_node = "check_length_loop" ->
   let routed :=
     (exists next_nodes,
        edges (definition self) !! current_node = Some next_nodes /\
        "refine_summary" ∈ next_nodes) /\
     should_loop state in
   (_get_next_node self current_node state = Some "refine_summary"
    <-> routed) /\
   (_get_next_node self current_node state = None <-> ~ routed)) /\
  (forall repr utcnow fuel before log it clock,
     it < max_iterations ->
     call_node self current_node before = Ok state ->
     _get_next_node self current_node state = None ->
     execute_loop repr utcnow (S fuel) self (Some current_node) before log
       it clock
     = Some (Ok state,
             log ++ [mkEntry current_node (utcnow clock)
                       (utcnow (S clock) - utcnow clock) (it + 1)])).
Proof.
  split; [| split; [| split]].
  - unfold _get_next_node. intros [-> | ->]; reflexivity.
  - unfold _get_next_node. intros first rest Hne ->.
    rewrite bool_decide_eq_false_2 by assumption. reflexivity.
  - unfold _get_next_node. intros ->. cbv zeta.
    destruct (edges (definition self) !! "check_length_loop")
      as [[|x l]|] eqn:E.
    + assert (~ (exists next_nodes : list string,
                   Some [] = Some next_nodes /\
                   "refine_summary" ∈ next_nodes)) as Hno.
      { intros (l' & Hl' & Hin). inversion Hl'; subst.
        apply elem_of_nil in Hin. destruct Hin. }
      split; split; try discriminate; tauto.
    + rewrite bool_decide_eq_true_2 by reflexivity.
      assert ((exists next_nodes : list string,
                 Some (x :: l) = Some next_nodes /\
                 "refine_summary" ∈ next_nodes)
              <-> "refine_summary" ∈ x :: l) as Hin.
      { split; [intros (l' & Hl' & Hin); inversion Hl'; subst; exact Hin
               | eauto]. }
      rewrite Hin. apply handle_loop_condition_spec.
    + assert (~ (exists next_nodes : list string,
                   None = Some next_nodes /\
                   "refine_summary" ∈ next_nodes)) as Hno.
      { intros (l' & Hl' & _). discriminate. }
      split; split; try discriminate; tauto.
  - intros repr utcnow fuel before log it clock Hit Hcall Hnext.
    cbn [execute_loop].
    destruct (Z.ltb_spec max_iterations (it + 1)); [lia |].
    rewrite Hcall, Hnext. destruct fuel; reflexivity.
Qed.

(** The control node stops although its adjacency list is not empty. *)
Example get_next_node_control_stops :
  _get_next_node loop_graph "check_length_loop" (too_long 0) = None /\
  _get_next_node loop_graph "check_length_loop" (too_long 1)
  = Some "refine_summary" /\
  _get_next_node broken_graph "refine_summary" (too_long 1) = Some "broken".
Proof. vm_compute. repeat split. Qed.

(** ** Node registry *)

Lemma register_all_fresh (calls : list (string * node_func))
    (self : NodeRegistry) (name : string) :
  _nodes self !! name = None -> name ∉ calls.*1 ->
  _nodes (register_all self calls) !! name = None.
Proof.
  revert self. induction calls as [|[n f] calls IH]; intros self Hn Hnot.
  - exact Hn.
  - cbn in Hnot. apply not_elem_of_cons in Hnot as [Hne Hnot].
    unfold register_all. cbn [fold_left]. apply IH; [| exact Hnot].
    unfold register_node. cbn [fst snd].
    destruct (_nodes self !! n); cbn [snd _nodes]; [exact Hn |].
    rewrite lookup_insert_ne by congruence. exact Hn.
Qed.

(** C7. Registering a node under a name already present raises the
    duplicate-registration error and leaves the registry as it was, so
    that lookup still returns the function registered first; looking up a
    name that is not registered, in particular one that no call ever
    registered, raises a lookup error; after a successful registration,
    lookup of the name returns the function just registered. *)
Theorem registry_operations (self : NodeRegistry) (name : string)
    (func : node_func) :
  (forall original,
     _nodes self !! name = Some original ->
     register_node self name func
     = (Raise (ValueError ("Node '" +:+ name +:+ "' is already registered")),
        self) /\
     get_node (snd (register_node self name func)) name = Ok original) /\
  (_nodes self !! name = None ->
   get_node self name
   = Raise (KeyError ("Node '" +:+ name +:+ "' not found in registry"))) /\
  (forall calls,
     name ∉ calls.*1 ->
     get_node (register_all NodeRegistry_init calls) name
     = Raise (KeyError ("Node '" +:+ name +:+ "' not found in registry"))) /\
  (_nodes self !! name = None ->
   fst (register_node self name func) = Ok tt /\
   get_node (snd (register_node self name func)) name = Ok func).
Proof.
  split; [| split; [| split]].
  - intros original H. unfold register_node, get_node. rewrite H.
    cbn [snd]. rewrite H. split; reflexivity.
  - intros H. unfold get_node. rewrite H. reflexivity.
  - intros calls H. unfold get_node.
    rewrite register_all_fresh; [reflexivity | apply lookup_empty | exact H].
  - intros H. unfold register_node, get_node. rewrite H. cbn [fst snd _nodes].
    rewrite lookup_insert_eq. split; reflexivity.
Qed.

(** A second registration of [refine_summary] is refused and the
    registry is the one before the call. *)
Example register_twice :
  register_node loop_registry "refine_summary" failing_node
  = (Raise (ValueError "Node 'refine_summary' is already registered"),
     loop_registry).
Proof. reflexivity. Qed.

(** ** Validation and construction *)

Lemma find_outside (d : GraphDefinition) (l : list string) :
  (exists x, List.find (not_in_nodes d) l = Some x /\ x ∈ l /\ x ∉ nodes d) \/
  (List.find (not_in_nodes d) l = None /\ forall x, x ∈ l -> x ∈ nodes d).
Proof.
  destruct (List.find (not_in_nodes d) l) as [x|] eqn:E.
  - left. exists x. apply find_some in E as [Hin Hx].
    apply list_elem_of_In in Hin. unfold not_in_nodes in Hx.
    apply bool_decide_eq_true_1 in Hx. auto.
  - right. split; [reflexivity |]. intros x Hin.
    apply list_elem_of_In in Hin.
    pose proof (find_none _ _ E x Hin) as Hx. unfold not_in_nodes in Hx.
    apply bool_decide_eq_false_1 in Hx.
    destruct (decide (x ∈ nodes d)); [assumption | contradiction].
Qed.

Lemma elem_of_edge_sources (d : GraphDefinition) (x : string) :
  x ∈ edge_sources d <-> is_Some (edges d !! x).
Proof.
  unfold edge_sources. rewrite list_elem_of_fmap. split.
  - intros ([k v] & -> & Hin). apply elem_of_map_to_list in Hin. eauto.
  - intros [v Hv]. exists (x, v). split; [reflexivity |].
    apply elem_of_map_to_list. exact Hv.
Qed.

Lemma elem_of_edge_targets (d : GraphDefinition) (x : string) :
  x ∈ edge_targets d <->
  exists source targets, edges d !! source = Some targets /\ x ∈ targets.
Proof.
  unfold edge_targets. rewrite list_elem_of_In, in_concat. split.
  - intros (l & Hl & Hx). apply list_elem_of_In in Hl, Hx.
    apply list_elem_of_fmap in Hl as ([k v] & -> & Hin).
    apply elem_of_map_to_list in Hin. eauto.
  - intros (k & l & Hk & Hx). exists l. split.
    + apply list_elem_of_In, list_elem_of_fmap. exists (k, l).
      split; [reflexivity |]. apply elem_of_map_to_list. exact Hk.
    + apply list_elem_of_In. exact Hx.
Qed.

Lemma validate_structure_cases (d : GraphDefinition) :
  (structurally_invalid d /\
   exists msg, validate_structure d = Raise (ValueError msg)) \/
  (~ structurally_invalid d /\ validate_structure d = Ok tt).
Proof.
  unfold validate_structure, structurally_invalid.
  destruct (not_in_nodes d (entry_point d)) eqn:Hentry.
  { apply bool_decide_eq_true_1 in Hentry.
    left; split; [left; assumption | eauto]. }
  apply bool_decide_eq_false_1 in Hentry.
  destruct (find_outside d (edge_sources d))
    as [(x & -> & Hx & Hout) | [-> Hsrc]].
  { left. apply elem_of_edge_sources in Hx.
    split; [right; left; exists x; auto | eauto]. }
  destruct (find_outside d (edge_targets d))
    as [(x & -> & Hx & Hout) | [-> Htgt]].
  { left. apply elem_of_edge_targets in Hx as (k & l & Hk & Hx).
    split; [right; right; exists k, l, x; auto | eauto]. }
  right. split; [| reflexivity].
  intros [He | [(x & Hx & Hout) | (k & l & x & Hk & Hx & Hout)]].
  - contradiction.
  - apply Hout, Hsrc, elem_of_edge_sources, Hx.
  - apply Hout, Htgt, elem_of_edge_targets. eauto.
Qed.

Lemma find_unregistered (d : GraphDefinition) (r : NodeRegistry) :
  (exists x,
     List.find (fun n => negb (has_node r n)) (nodes d) = Some x /\
     x ∈ nodes d /\ _nodes r !! x = None) \/
  (List.find (fun n => negb (has_node r n)) (nodes d) = None /\
   forall x, x ∈ nodes d -> is_Some (_nodes r !! x)).
Proof.
  destruct (List.find _ (nodes d)) as [x|] eqn:E.
  - left. exists x. apply find_some in E as [Hin Hx].
    apply list_elem_of_In in Hin. unfold has_node in Hx.
    apply negb_true_iff, bool_decide_eq_false_1 in Hx.
    split; [reflexivity |]. split; [assumption |].
    destruct (_nodes r !! x) eqn:Ex; [| reflexivity].
    exfalso. apply Hx. eauto.
  - right. split; [reflexivity |]. intros x Hin.
    apply list_elem_of_In in Hin.
    pose proof (find_none _ _ E x Hin) as Hx. cbn beta in Hx.
    unfold has_node in Hx.
    apply negb_false_iff, bool_decide_eq_true_1 in Hx. exact Hx.
Qed.

Lemma find_unregistered_names (d : GraphDefinition) (r r' : NodeRegistry) :
  (forall n, is_Some (_nodes r !! n) <-> is_Some (_nodes r' !! n)) ->
  List.find (fun n => negb (has_node r n)) (nodes d)
  = List.find (fun n => negb (has_node r' n)) (nodes d).
Proof.
  intros Hsame. induction (nodes d) as [|n l IH]; [reflexivity |].
  cbn [List.find]. rewrite IH.
  replace (has_node r' n) with (has_node r n); [reflexivity |].
  unfold has_node. apply bool_decide_ext, Hsame.
Qed.

(** C6. Validation of a definition fails, with the error of a refused
    structure, if and only if the entry point, the source of some edge or
    the target of some edge is outside the node set, and succeeds
    otherwise; construction of a graph from a refused definition fails as
    well; construction from a valid definition fails with the
    missing-node error, naming a declared node that has no registry
    entry, whenever there is such a node, and yields the graph when there
    is none.  Construction runs no node: an error it raises depends only
    on which names the registry holds, never on the functions registered
    under them, and it yields no graph that [execute] could be called
    on. *)
Theorem construction_validation (d : GraphDefinition) (r : NodeRegistry) :
  ((exists msg, validate_structure d = Raise (ValueError msg))
   <-> structurally_invalid d) /\
  (validate_structure d = Ok tt <-> ~ structurally_invalid d) /\
  (structurally_invalid d ->
   exists msg, WorkflowGraph_init d r = Raise (ValueError msg)) /\
  (~ structurally_invalid d ->
   (exists n, n ∈ nodes d /\ _nodes r !! n = None) ->
   exists missing,
     missing ∈ nodes d /\ _nodes r !! missing = None /\
     WorkflowGraph_init d r
     = Raise (ValueError ("Node '" +:+ missing +:+ "' not found in registry")))
  /\
  (~ structurally_invalid d ->
   (forall n, n ∈ nodes d -> is_Some (_nodes r !! n)) ->
   WorkflowGraph_init d r = Ok (mkGraph d r)) /\
  (forall r' e,
     (forall n, is_Some (_nodes r !! n) <-> is_Some (_nodes r' !! n)) ->
     WorkflowGraph_init d r = Raise e ->
     WorkflowGraph_init d r' = Raise e).
Proof.
  unfold WorkflowGraph_init.
  destruct (validate_structure_cases d) as [[Hbad [msg Hv]] | [Hgood Hv]];
    rewrite Hv; cbn [bind].
  - split; [split; eauto |]. split; [split; [discriminate | tauto] |].
    split; [eauto |]. split; [tauto |]. split; [tauto |].
    intros r' e _ He. exact He.
  - split; [split; [intros [msg Hm]; discriminate | tauto] |].
    split; [tauto |]. split; [tauto |].
    destruct (find_unregistered d r) as [(x & Hf & Hx & Hnone) | [Hf Hall]].
    + rewrite Hf. split; [eauto |]. split.
      * intros _ Hreg. apply Hreg in Hx. rewrite Hnone in Hx.
        destruct Hx as [? Hx]. discriminate.
      * intros r' e Hsame He.
        rewrite <- (find_unregistered_names d r r' Hsame), Hf. exact He.
    + rewrite Hf. split; [| split; [reflexivity | discriminate]].
      intros _ (n & Hn & Hnone). apply Hall in Hn. rewrite Hnone in Hn.
      destruct Hn as [? Hn]. discriminate.
Qed.

(** The cycle definition is accepted with the example registry; a
    definition that declares a node nobody registered is not. *)
Example construction_examples :
  WorkflowGraph_init loop_definition loop_registry = Ok loop_graph /\
  WorkflowGraph_init broken_definition loop_registry = Ok broken_graph /\
  WorkflowGraph_init (mkDefinition ["a"; "refine_summary"] ∅ "a") loop_registry
  = Raise (ValueError "Node 'a' not found in registry") /\
  validate_structure (mkDefinition ["a"] (<["a" := ["b"]]> ∅) "a")
  = Raise (ValueError "Edge target 'b' not in nodes list") /\
  validate_structure (mkDefinition ["a"] (<["b" := ["a"]]> ∅) "a")
  = Raise (ValueError "Edge source 'b' not in nodes list") /\
  validate_structure (mkDefinition ["a"] ∅ "b")
  = Raise (ValueError "Entry point 'b' not in nodes list").
Proof. vm_compute. repeat split. Qed.

(** ** Event broadcaster *)

Lemma connect_subscribes (ws : WebSocket) (graph_id : string) (w : World) :
  subscribers (connect ws graph_id w) graph_id
  = {[ws]} ∪ subscribers w graph_id.
Proof.
  unfold connect, subscribers at 1. cbn [set_connections active_connections].
  rewrite lookup_insert_eq. reflexivity.
Qed.

Lemma disconnect_unsubscribes (ws : WebSocket) (graph_id : string)
    (w : World) :
  subscribers (disconnect ws graph_id w) graph_id
  = subscribers w graph_id ∖ {[ws]}.
Proof.
  unfold disconnect, subscribers.
  destruct (active_connections w !! graph_id) as [conns|] eqn:Ec.
  - case_bool_decide as He; cbn [set_connections active_connections].
    + rewrite lookup_delete_eq. cbn. rewrite He. reflexivity.
    + rewrite lookup_insert_eq. reflexivity.
  - rewrite Ec. cbn. set_solver.
Qed.

(** The loop sends to every connection of the snapshot, in order, and
    collects those on which the send raised. *)
Lemma send_all_spec (cl : gset WebSocket) (m : message)
    (snapshot : list WebSocket) :
  (forall ws, ws ∈ (send_all cl m snapshot).1
              <-> ws ∈ snapshot /\ ws ∈ cl) /\
  (send_all cl m snapshot).2
  = List.map (fun ws => SendText ws m (bool_decide (ws ∉ cl))) snapshot.
Proof.
  induction snapshot as [|x l [IHd IHs]]; cbn [send_all List.map].
  - split; [| reflexivity]. intros ws. cbn. set_solver.
  - destruct (send_all cl m l) as [disc sends] eqn:E. cbn [fst snd] in *.
    case_bool_decide as Hx; cbn [fst snd].
    + rewrite IHs, (bool_decide_eq_false_2 (x ∉ cl)) by tauto.
      split; [| reflexivity]. intros ws. rewrite elem_of_union, IHd.
      set_solver.
    + rewrite IHs, (bool_decide_eq_true_2 (x ∉ cl)) by assumption.
      split; [| reflexivity]. intros ws. rewrite IHd. set_solver.
Qed.

(** The effect of a broadcast on each component of the state; the sends
    are listed in the order of the snapshot. *)
Lemma broadcast_to_graph_effect (graph_id : string) (m : message)
    (w : World) :
  let w' := broadcast_to_graph graph_id m w in
  jobs w' = jobs w /\ closed w' = closed w /\ ticks w' = ticks w /\
  trace w'
  = trace w ++ Published graph_id m ::
      List.map (fun ws => SendText ws m (bool_decide (ws ∉ closed w)))
        (elements (subscribers w graph_id)) /\
  (forall g, g <> graph_id ->
             active_connections w' !! g = active_connections w !! g) /\
  subscribers w' graph_id = subscribers w graph_id ∖ closed w /\
  (subscribers w graph_id = ∅ ->
   active_connections w' = active_connections w).
Proof.
  unfold broadcast_to_graph, subscribers.
  cbn [observe active_connections closed].
  destruct (active_connections w !! graph_id) as [conns|] eqn:Ec;
    cbn [default].
  - pose proof (send_all_spec (closed w) m (elements conns)) as [Hd Hs].
    destruct (send_all (closed w) m (elements conns)) as [disc sends].
    cbn [fst snd] in Hd, Hs. subst sends.
    assert (forall ws, ws ∈ disc <-> ws ∈ conns /\ ws ∈ closed w) as Hdisc.
    { intros ws. rewrite Hd, elem_of_elements. reflexivity. }
    case_bool_decide as Hnone.
    + cbn [observe jobs closed ticks active_connections trace].
      rewrite Ec. cbn [default]. rewrite <- app_assoc.
      split; [reflexivity |]. split; [reflexivity |].
      split; [reflexivity |]. split; [reflexivity |].
      split; [reflexivity |]. split; [set_solver | reflexivity].
    + assert (default ∅
                ((if bool_decide (conns ∖ disc = ∅)
                  then delete graph_id (active_connections w)
                  else <[graph_id := conns ∖ disc]> (active_connections w))
                 !! graph_id) = conns ∖ closed w) as Hafter.
      { case_bool_decide as He.
        - rewrite lookup_delete_eq. cbn. set_solver.
        - rewrite lookup_insert_eq. cbn. set_solver. }
      case_bool_decide as He;
        cbn [set_connections observe jobs closed ticks active_connections
             trace];
        rewrite <- app_assoc.
      * split; [reflexivity |]. split; [reflexivity |].
        split; [reflexivity |]. split; [reflexivity |].
        split; [intros g Hg; rewrite lookup_delete_ne by congruence;
                reflexivity |].
        split; [exact Hafter |].
        intros Hempty. exfalso. apply Hnone. set_solver.
      * split; [reflexivity |]. split; [reflexivity |].
        split; [reflexivity |]. split; [reflexivity |].
        split; [intros g Hg; rewrite lookup_insert_ne by congruence;
                reflexivity |].
        split; [exact Hafter |].
        intros Hempty. exfalso. apply Hnone. set_solver.
  - cbn [observe jobs closed ticks active_connections trace].
    rewrite Ec. cbn [default]. rewrite elements_empty.
    split; [reflexivity |]. split; [reflexivity |].
    split; [reflexivity |]. split; [reflexivity |].
    split; [reflexivity |]. split; [set_solver | reflexivity].
Qed.

(** C8. A call of [broadcast_to_graph] touches neither the tracker nor
    the other topics and never raises.  When the topic has no
    subscriber it is a no-op: the subscriber sets stay as they are and
    nothing is sent.  Otherwise one send is attempted on every channel
    subscribed when the call starts, each channel whose send fails is
    removed from the subscriber set of the topic, and the channels whose
    send succeeds have the message delivered and stay subscribed. *)
Theorem broadcast_to_graph_spec (graph_id : string) (m : message)
    (w : World) :
  let w' := broadcast_to_graph graph_id m w in
  jobs w' = jobs w /\ closed w' = closed w /\ ticks w' = ticks w /\
  (forall g, g <> graph_id ->
             active_connections w' !! g = active_connections w !! g) /\
  subscribers w' graph_id = subscribers w graph_id ∖ closed w /\
  (exists sends,
     trace w' = trace w ++ Published graph_id m :: sends /\
     length sends = size (subscribers w graph_id) /\
     (forall ev, ev ∈ sends ->
                 exists ws ok, ev = SendText ws m ok) /\
     (forall ws ok,
        SendText ws m ok ∈ sends
        <-> ws ∈ subscribers w graph_id /\
            ok = bool_decide (ws ∉ closed w))) /\
  (subscribers w graph_id = ∅ ->
   active_connections w' = active_connections w /\
   trace w' = trace w ++ [Published graph_id m]).
Proof.
  destruct (broadcast_to_graph_effect graph_id m w)
    as (Hj & Hc & Ht & Htr & Hother & Hsub & Hnone).
  cbv zeta. split; [exact Hj |]. split; [exact Hc |]. split; [exact Ht |].
  split; [exact Hother |]. split; [exact Hsub |]. split.
  - eexists. split; [exact Htr |].
    split; [rewrite length_map; reflexivity |]. split.
    + intros ev Hev. apply list_elem_of_fmap in Hev as (ws & -> & _). eauto.
    + intros ws ok. rewrite list_elem_of_fmap. split.
      * intros (ws' & Heq & Hin). inversion Heq; subst.
        apply elem_of_elements in Hin. auto.
      * intros [Hin ->]. exists ws. split; [reflexivity |].
        apply elem_of_elements. exact Hin.
  - intros Hempty. split; [exact (Hnone Hempty) |].
    rewrite Htr, Hempty, elements_empty. reflexivity.
Qed.

(** Of three subscribers the one with a closed connection is dropped;
    the two others receive the message and stay. *)
Example broadcast_drops_failed :
  let w' := broadcast_to_graph "g1" (Error "e") three_subscribers in
  trace w'
  = [ Published "g1" (Error "e");
      SendText 3 (Error "e") true;
      SendText 2 (Error "e") false;
      SendText 1 (Error "e") true ] /\
  subscribers w' "g1" = {[1%positive; 3%positive]} /\
  trace (broadcast_to_graph "g1" (Error "f") w')
  = trace w' ++ [ Published "g1" (Error "f");
                  SendText 3 (Error "f") true;
                  SendText 1 (Error "f") true ] /\
  broadcast_to_graph "g2" (Error "e") three_subscribers
  = observe three_subscribers [Published "g2" (Error "e")].
Proof. vm_compute. repeat split. Qed.

(** ** The synchronous run *)

Section Execute.

Variable repr : string -> string.
Variable utcnow : nat -> Z.

Lemma execute_loop_terminates (fuel : nat) (self : WorkflowGraph) :
  forall cur s log it clock,
    it <= max_iterations ->
    (Z.to_nat (max_iterations + 1 - it) <= fuel)%nat ->
    exists out more,
      execute_loop repr utcnow fuel self cur s log it clock
      = Some (out, log ++ more) /\
      bounded_outcome repr out it more.
Proof.
  unfold bounded_outcome.
  induction fuel as [|fuel IH]; intros cur s log it clock Hit Hfuel.
  - unfold max_iterations in *. lia.
  - destruct cur as [n|]; cbn [execute_loop].
    + destruct (Z.ltb_spec max_iterations (it + 1)) as [Hlim | Hlim].
      * exists (Raise iteration_limit_error), []. rewrite app_nil_r.
        split; [reflexivity |]. cbn [length]. split; [lia |].
        left. split; [reflexivity | lia].
      * destruct (call_node self n s) as [s1 | e].
        -- destruct (IH (_get_next_node self n s1) s1
                        (log ++ [mkEntry n (utcnow clock)
                                   (utcnow (S clock) - utcnow clock)
                                   (it + 1)])
                        (it + 1) (S (S clock)))
             as (out & more & Hrun & Hle & Hout); [lia | lia |].
           exists out, (mkEntry n (utcnow clock)
                          (utcnow (S clock) - utcnow clock) (it + 1) :: more).
           rewrite Hrun, <- app_assoc. split; [reflexivity |].
           cbn [length]. split; [lia |].
           destruct out as [s2 | e]; [exact I |].
           destruct Hout as [[-> Heq] | (n' & e' & -> & Hlt)].
           ++ left. split; [reflexivity | lia].
           ++ right. exists n', e'. split; [reflexivity | lia].
        -- exists (Raise (RuntimeError (node_failed repr n e))), [].
           rewrite app_nil_r. split; [reflexivity |]. cbn [length].
           split; [lia |]. right. exists n, e. split; [reflexivity | lia].
    + exists (Ok s), []. rewrite app_nil_r. split; [reflexivity |].
      cbn [length]. split; [lia | exact I].
Qed.

(** More fuel does not change the answer of a run that had enough. *)
Lemma execute_loop_more_fuel (fuel : nat) (self : WorkflowGraph) :
  forall cur s log it clock r,
    execute_loop repr utcnow fuel self cur s log it clock = Some r ->
    forall extra,
      execute_loop repr utcnow (fuel + extra) self cur s log it clock
      = Some r.
Proof.
  induction fuel as [|fuel IH]; intros cur s log it clock r Hrun extra.
  - destruct cur; [discriminate |]. destruct extra; exact Hrun.
  - destruct cur as [n|]; [| exact Hrun].
    cbn [Nat.add execute_loop] in *.
    destruct (max_iterations <? it + 1); [exact Hrun |].
    destruct (call_node self n s); [| exact Hrun].
    apply IH. exact Hrun.
Qed.

(** C4. For every graph, valid or not, and every initial state,
    [execute] ends: it returns, or raises the error of a failed node,
    having completed at most 1000 nodes and invoked at most 1000, or it
    raises the iteration-limit error with exactly 1000 nodes completed
    and the next one not invoked.  The fuel of the embedding is never
    what ends the run: any larger amount gives the same answer. *)
Theorem execute_terminates (self : WorkflowGraph)
    (initial_state : WorkflowState) :
  exists out log,
    execute repr utcnow self initial_state = Some (out, log) /\
    (length log <= 1000)%nat /\
    match out with
    | Ok _ => True
    | Raise e =>
        (e = iteration_limit_error /\ length log = 1000%nat) \/
        (exists n e', e = RuntimeError (node_failed repr n e') /\
                      (length log < 1000)%nat)
    end /\
    forall fuel,
      (1001 <= fuel)%nat ->
      execute_loop repr utcnow fuel self
        (Some (entry_point (definition self))) initial_state [] 0 0%nat
      = Some (out, log).
Proof.
  unfold execute.
  destruct (execute_loop_terminates (S (Z.to_nat max_iterations)) self
              (Some (entry_point (definition self))) initial_state [] 0 0%nat)
    as (out & more & Hrun & Hle & Hout).
  { unfold max_iterations. lia. }
  { unfold max_iterations. lia. }
  cbn [app] in Hrun. unfold max_iterations in Hle, Hout.
  exists out, more. split; [exact Hrun |]. split; [lia |]. split.
  - destruct out as [s | e]; [exact I |].
    destruct Hout as [[-> Heq] | (n & e' & -> & Hlt)].
    + left. split; [reflexivity | lia].
    + right. exists n, e'. split; [reflexivity | lia].
  - intros fuel Hfuel.
    replace fuel with (S (Z.to_nat max_iterations) + (fuel - 1001))%nat
      by (unfold max_iterations; lia).
    apply execute_loop_more_fuel. exact Hrun.
Qed.

Lemma iterations_from_S (first : Z) (k : nat) :
  iterations_from first (S k)
  = (first + 1) :: iterations_from (first + 1) k.
Proof.
  unfold iterations_from. cbn [seq List.map]. f_equal.
  rewrite <- seq_shift, List.map_map. apply List.map_ext.
  intros i. lia.
Qed.

Lemma path_log_nodes (names : list string) (it : Z) (clock : nat) :
  List.map node (path_log utcnow names it clock) = names /\
  List.map iteration (path_log utcnow names it clock)
  = iterations_from it (length names).
Proof.
  revert it clock. induction names as [|n names IH]; intros it clock.
  - split; reflexivity.
  - destruct (IH (it + 1) (S (S clock))) as [Hn Hi].
    cbn [path_log List.map node iteration length].
    rewrite Hn, Hi, iterations_from_S. split; reflexivity.
Qed.

(** The loop follows a path of completed nodes, one log entry for each,
    numbered from the counter upwards. *)
Lemma execute_loop_path (self : WorkflowGraph) cur s names cur' s' :
  path self cur s names cur' s' ->
  forall fuel log it clock,
    it + Z.of_nat (length names) <= max_iterations ->
    execute_loop repr utcnow (length names + fuel) self cur s log it clock
    = execute_loop repr utcnow fuel self cur' s'
        (log ++ path_log utcnow names it clock)
        (it + Z.of_nat (length names)) (clock + 2 * length names)%nat.
Proof.
  induction 1 as [cur s | n s s1 names cur' s' Hcall Hpath IH];
    intros fuel log it clock Hit.
  - cbn [length path_log Nat.add]. rewrite app_nil_r. f_equal; lia.
  - cbn [length] in Hit. cbn [length path_log Nat.add execute_loop].
    destruct (Z.ltb_spec max_iterations (it + 1)) as [Hlim | _]; [lia |].
    rewrite Hcall, IH, <- app_assoc by lia. cbn [app]. f_equal; lia.
Qed.

(** A path is a path of every graph with the same definition whose
    registry answers alike on the nodes of the path. *)
Lemma path_agree (self self' : WorkflowGraph) cur s names cur' s' :
  definition self' = definition self ->
  (forall m st, m ∈ names -> call_node self' m st = call_node self m st) ->
  path self cur s names cur' s' ->
  path self' cur s names cur' s'.
Proof.
  intros Hdef Hsame Hpath.
  induction Hpath as [cur s | n s s1 names cur' s' Hcall Hpath IH].
  - apply path_nil.
  - apply path_step with s1.
    + rewrite Hsame; [exact Hcall | left].
    + replace (_get_next_node self' n s1) with (_get_next_node self n s1)
        by (unfold _get_next_node; rewrite Hdef; reflexivity).
      apply IH. intros m st Hm. apply Hsame. right. exact Hm.
Qed.

Lemma execute_at_failure (self : WorkflowGraph)
    (initial_state s : WorkflowState) (names : list string) (n : string)
    (e : exn) :
  path self (Some (entry_point (definition self))) initial_state names
       (Some n) s ->
  (length names < 1000)%nat ->
  call_node self n s = Raise e ->
  execute repr utcnow self initial_state
  = Some (Raise (RuntimeError (node_failed repr n e)),
          path_log utcnow names 0 0).
Proof.
  intros Hpath Hlen Hcall. unfold execute.
  replace (S (Z.to_nat max_iterations))
    with (length names + S (1000 - length names))%nat
    by (unfold max_iterations; lia).
  rewrite (execute_loop_path self _ _ _ _ _ Hpath)
    by (unfold max_iterations; lia).
  cbn [execute_loop app].
  destruct (Z.ltb_spec max_iterations (0 + Z.of_nat (length names) + 1))
    as [Hlim | _]; [unfold max_iterations in Hlim; lia |].
  rewrite Hcall. reflexivity.
Qed.

(** C5. When the run has completed the nodes [names], fewer than the
    ceiling, and the call of the next node [n] raises [e], then
    [execute] raises the node-execution error, whose text carries the
    name [n]; the log as the run leaves it has exactly one entry for each
    node completed before, in execution order and numbered from 1, and
    none for the failing call; and no node is invoked after [n]: the
    outcome is the same for every graph with this definition whose
    registry agrees on [n] and the nodes completed before it, whatever it
    holds for the other nodes. *)
Theorem execute_node_failure (self : WorkflowGraph)
    (initial_state s : WorkflowState) (names : list string) (n : string)
    (e : exn) :
  path self (Some (entry_point (definition self))) initial_state names
       (Some n) s ->
  (length names < 1000)%nat ->
  call_node self n s = Raise e ->
  exists log,
    execute repr utcnow self initial_state
    = Some (Raise (RuntimeError ("Node '" +:+ n +:+ "' failed: "
                                 +:+ str repr e)), log) /\
    List.map node log = names /\
    List.map iteration log = iterations_from 0 (length names) /\
    forall self',
      definition self' = definition self ->
      (forall m st, m ∈ n :: names ->
                    call_node self' m st = call_node self m st) ->
      execute repr utcnow self' initial_state
      = execute repr utcnow self initial_state.
Proof.
  intros Hpath Hlen Hcall.
  exists (path_log utcnow names 0 0).
  destruct (path_log_nodes names 0 0) as [Hn Hi].
  pose proof (execute_at_failure self _ _ _ _ _ Hpath Hlen Hcall) as Hrun.
  split; [exact Hrun |]. split; [exact Hn |]. split; [exact Hi |].
  intros self' Hdef Hsame. rewrite Hrun.
  apply execute_at_failure with s.
  - rewrite Hdef. apply (path_agree self); [exact Hdef | | exact Hpath].
    intros m st Hm. apply Hsame. right. exact Hm.
  - exact Hlen.
  - rewrite Hsame; [exact Hcall | left].
Qed.

End Execute.

(** In the graph whose second node raises, the log holds the entry of
    the first node only. *)
Lemma execute_node_failure_witness :
  exists log,
    execute (fun s => s) example_clock broken_graph (too_long 1)
    = Some (Raise (RuntimeError ("Node '" +:+ "broken" +:+ "' failed: "
                                 +:+ str (fun s => s) (Exception "boom"))),
            log) /\
    List.map node log = ["refine_summary"] /\
    List.map iteration log = iterations_from 0 (length ["refine_summary"]) /\
    forall self',
      definition self' = definition broken_graph ->
      (forall m st, m ∈ ["broken"; "refine_summary"] ->
                    call_node self' m st = call_node broken_graph m st) ->
      execute (fun s => s) example_clock self' (too_long 1)
      = execute (fun s => s) example_clock broken_graph (too_long 1).
Proof.
  apply (execute_node_failure (fun s => s) example_clock broken_graph
           (too_long 1) (mkState "" 5 50 [] [] "" "" 10 1 1 ∅)
           ["refine_summary"] "broken" (Exception "boom")).
  - apply (path_step broken_graph "refine_summary" (too_long 1)
             (mkState "" 5 50 [] [] "" "" 10 1 1 ∅)).
    + vm_compute. reflexivity.
    + change (_get_next_node broken_graph "refine_summary"
                (mkState "" 5 50 [] [] "" "" 10 1 1 ∅))
        with (Some "broken") at 1.
      apply path_nil.
  - cbn. lia.
  - vm_compute. reflexivity.
Defined.

Example execute_broken_graph :
  execute (fun s => s) example_clock broken_graph (too_long 1)
  = Some (Raise (RuntimeError "Node 'broken' failed: boom"),
          [mkEntry "refine_summary" 0 1 1]).
Proof. vm_compute. reflexivity. Qed.

(** The two scenarios of the engine: a chain of two nodes, and a single
    node with an empty edge list. *)
Example execute_scenarios :
  execute (fun s => s) example_clock
    (mkGraph (mkDefinition ["refine_summary"; "check_length_loop"]
                (<["refine_summary" := ["check_length_loop"]]> ∅)
                "refine_summary") loop_registry)
    (too_long 0)
  = Some (Ok (mkState "" 5 50 [] [] "" "" 10 1 0 ∅),
          [mkEntry "refine_summary" 0 1 1;
           mkEntry "check_length_loop" 2 1 2]) /\
  execute (fun s => s) example_clock
    (mkGraph (mkDefinition ["refine_summary"]
                (<["refine_summary" := []]> ∅) "refine_summary")
       loop_registry)
    (too_long 0)
  = Some (Ok (mkState "" 5 50 [] [] "" "" 10 1 0 ∅),
          [mkEntry "refine_summary" 0 1 1]).
Proof. vm_compute. split; reflexivity. Qed.

(** ** Job tracker *)

(** What the three methods of a job record set. *)
Lemma job_record_updates (job : JobInfo) (node msg : string)
    (completed total now : Z) :
  status (update_progress job node completed total) = RUNNING /\
  progress_percent (update_progress job node completed 0) = 0 /\
  status (mark_completed job now) = COMPLETED /\
  progress_percent (mark_completed job now) = 100 /\
  status (mark_failed job msg now) = FAILED /\
  progress_percent (mark_failed job msg now) = progress_percent job.
Proof. repeat split. Qed.

(** The percentage is the truncated float product, which is not always
    the floor of the exact quotient. *)
Example percent_of_values :
  percent_of 0 5 = 0 /\ percent_of 1 2 = 50 /\ percent_of 5 5 = 100 /\
  percent_of 3 2 = 150 /\ percent_of 12 5 = 240 /\
  percent_of 29 50 = 57 /\ (100 * 29) / 50 = 58 /\
  percent_of 29 100 = 28 /\ (100 * 29) / 100 = 29.
Proof. vm_compute. repeat split. Qed.

(** ** The asynchronous run *)

Lemma summary_inv (run_id : string)
    (r : option (result exn WorkflowState * list log_entry * World))
    (sm : run_summary) :
  summary run_id r = Some sm ->
  exists log w,
    r = Some (sum_outcome sm, log, w) /\
    length log = sum_executed sm /\
    job_status run_id w = sum_status sm /\
    job_percent run_id w = sum_percent sm /\
    List.filter is_final_event (published (trace w)) = sum_published sm.
Proof.
  destruct r as [[[out log] w] |]; [| discriminate].
  intros H. inversion H; subst; clear H. cbn.
  exists log, w. repeat split.
Qed.

Lemma sync_summary_inv
    (r : option (result exn WorkflowState * list log_entry))
    (out : result exn WorkflowState) (k : nat) :
  sync_summary r = Some (out, k) ->
  exists log, r = Some (out, log) /\ length log = k.
Proof.
  destruct r as [[out' log] |]; [| discriminate].
  intros H. inversion H; subst; clear H. eauto.
Qed.

Lemma loop_twice_summary :
  summary "r1"
    (execute_async (fun s => s) example_clock loop_graph "r1" (too_long 2)
       submitted)
  = Some (mkSummary (Ok (mkState "" 5 50 [] [] "" "" 10 2 2 ∅)) 4
            (Some COMPLETED) (Some 100)
            [("async_execution", Completed "r1" "async_execution")]).
Proof. vm_compute. reflexivity. Qed.

Lemma loop_twice_history :
  run_history "r1"
    (execute_async (fun s => s) example_clock loop_graph "r1" (too_long 2)
       submitted)
  = Some [0; 0; 0; 50; 100; 150; 100].
Proof. vm_compute. reflexivity. Qed.

(** C2. A run of the two-node cycle that refines twice executes four
    nodes and completes.  Before the fourth the tracker is told that 3
    of 2 nodes are done, so the percentage of the job reads 150, outside
    0 to 100, and
    then falls to 100 when the job is marked completed: the history is
    not monotone.  Besides, the percentage of 29 nodes of 50 is 57, one
    below the floor of the exact quotient. *)
Theorem progress_percent_exceeds_100 :
  (exists s log w',
     execute_async (fun s => s) example_clock loop_graph "r1" (too_long 2)
       submitted
     = Some (Ok s, log, w') /\
     length log = 4%nat /\
     job_status "r1" w' = Some COMPLETED /\
     job_percent "r1" w' = Some 100 /\
     percent_history "r1" (trace w') = [0; 0; 0; 50; 100; 150; 100]) /\
  percent_of 29 50 = 57 /\ (100 * 29) / 50 = 58.
Proof.
  split; [| vm_compute; split; reflexivity].
  destruct (summary_inv _ _ _ loop_twice_summary)
    as (log & w & Hrun & Hlen & Hst & Hpc & _).
  cbn in Hrun, Hlen, Hst, Hpc.
  pose proof loop_twice_history as Hh. rewrite Hrun in Hh.
  cbn [run_history] in Hh. inversion Hh as [Hh'].
  exists (mkState "" 5 50 [] [] "" "" 10 2 2 ∅), log, w. rewrite Hh'. auto.
Qed.

Lemma loop_500_summary :
  summary "r1"
    (execute_async (fun s => s) example_clock loop_graph "r1" (too_long 500)
       submitted)
  = Some (mkSummary
            (Raise (RuntimeError
                      "Execution exceeded maximum iterations (1000)"))
            1000 (Some FAILED) (Some 49950)
            [ ("async_execution",
               Error "Execution exceeded maximum iterations (1000)");
              ("async_execution",
               Error ("Async execution failed: "
                      +:+ "Execution exceeded maximum iterations (1000)")) ]).
Proof. vm_compute. reflexivity. Qed.

Lemma loop_500_sync_summary :
  sync_summary (execute (fun s => s) example_clock loop_graph (too_long 500))
  = Some (Ok (mkState "" 5 50 [] [] "" "" 10 500 500 ∅), 1000%nat).
Proof. vm_compute. reflexivity. Qed.

(** C3. A run of the two-node cycle that refines 500 times executes
    exactly 1000 nodes and then finds no successor.  The synchronous
    [execute] returns, with a log of 1000 entries.  The asynchronous run
    of the same graph and state marks the job failed, publishes two error
    events and no completion event, and raises. *)
Theorem async_fails_at_exactly_1000 :
  (exists s log,
     execute (fun s => s) example_clock loop_graph (too_long 500)
     = Some (Ok s, log) /\
     length log = 1000%nat /\
     _get_next_node loop_graph "check_length_loop" s = None) /\
  (exists log w',
     execute_async (fun s => s) example_clock loop_graph "r1" (too_long 500)
       submitted
     = Some (Raise (RuntimeError
                      "Execution exceeded maximum iterations (1000)"),
             log, w') /\
     length log = 1000%nat /\
     job_status "r1" w' = Some FAILED /\
     List.filter is_final_event (published (trace w'))
     = [ ("async_execution",
          Error "Execution exceeded maximum iterations (1000)");
         ("async_execution",
          Error ("Async execution failed: "
                 +:+ "Execution exceeded maximum iterations (1000)")) ]).
Proof.
  split.
  - destruct (sync_summary_inv _ _ _ loop_500_sync_summary)
      as (log & Hrun & Hlen).
    eexists _, log. split; [exact Hrun |]. split; [exact Hlen |].
    vm_compute. reflexivity.
  - destruct (summary_inv _ _ _ loop_500_summary)
      as (log & w & Hrun & Hlen & Hst & _ & Hpub).
    cbn [sum_outcome sum_executed sum_status sum_published]
      in Hrun, Hlen, Hst, Hpub.
    exists log, w. auto.
Qed.

(** *** The asynchronous run in general *)

Lemma published_app (tr1 tr2 : list event) :
  published (tr1 ++ tr2) = published tr1 ++ published tr2.
Proof. unfold published. apply omap_app. Qed.

Lemma published_sends (sends : list event) :
  (forall ev, ev ∈ sends -> exists ws m ok, ev = SendText ws m ok) ->
  published sends = [].
Proof.
  induction sends as [|ev sends IH]; intros Hall; [reflexivity |].
  destruct (Hall ev) as (ws & m & ok & ->); [left |].
  cbn. apply IH. intros ev' Hin. apply Hall. right. exact Hin.
Qed.

(** A broadcast leaves the tracker alone and adds its message to the
    published ones. *)
Lemma broadcast_published (graph_id : string) (m : message) (w : World) :
  jobs (broadcast_to_graph graph_id m w) = jobs w /\
  published (trace (broadcast_to_graph graph_id m w))
  = published (trace w) ++ [(graph_id, m)].
Proof.
  destruct (broadcast_to_graph_effect graph_id m w)
    as (Hj & _ & _ & Htr & _).
  split; [exact Hj |]. rewrite Htr, published_app. cbn. f_equal. f_equal.
  apply published_sends. intros ev Hev.
  apply list_elem_of_fmap in Hev as (ws & -> & _). eauto.
Qed.

Section Async.

Variable repr : string -> string.
Variable utcnow : nat -> Z.

Lemma update_job_progress_effect (run_id node : string) (c t : Z)
    (w : World) :
  tracked run_id w ->
  tracked run_id (update_job_progress run_id node c t w) /\
  published (trace (update_job_progress run_id node c t w))
  = published (trace w).
Proof.
  unfold tracked, update_job_progress. intros [job Hjob]. rewrite Hjob.
  cbn [observe set_jobs jobs trace]. rewrite lookup_insert_eq, published_app.
  split; [eauto | apply app_nil_r].
Qed.

Lemma mark_job_completed_effect (run_id : string) (w : World) :
  tracked run_id w ->
  job_status run_id (mark_job_completed utcnow run_id w) = Some COMPLETED /\
  job_percent run_id (mark_job_completed utcnow run_id w) = Some 100 /\
  published (trace (mark_job_completed utcnow run_id w))
  = published (trace w).
Proof.
  unfold tracked, mark_job_completed, job_status, job_percent.
  intros [job Hjob]. rewrite Hjob.
  cbn [observe set_jobs tick jobs trace].
  rewrite lookup_insert_eq, published_app.
  split; [reflexivity |]. split; [reflexivity | apply app_nil_r].
Qed.

Lemma mark_job_failed_effect (run_id msg : string) (w : World) :
  tracked run_id w ->
  tracked run_id (mark_job_failed utcnow run_id msg w) /\
  job_status run_id (mark_job_failed utcnow run_id msg w) = Some FAILED /\
  published (trace (mark_job_failed utcnow run_id msg w))
  = published (trace w).
Proof.
  unfold tracked, mark_job_failed, job_status.
  intros [job Hjob]. rewrite Hjob.
  cbn [observe set_jobs tick jobs trace].
  rewrite lookup_insert_eq, published_app.
  split; [eauto |]. split; [reflexivity | apply app_nil_r].
Qed.

Lemma broadcast_tracked (run_id graph_id : string) (m : message)
    (w : World) :
  tracked run_id w -> tracked run_id (broadcast_to_graph graph_id m w).
Proof.
  unfold tracked. destruct (broadcast_published graph_id m w) as [-> _].
  auto.
Qed.

Lemma broadcast_status (run_id graph_id : string) (m : message)
    (w : World) :
  job_status run_id (broadcast_to_graph graph_id m w) = job_status run_id w /\
  job_percent run_id (broadcast_to_graph graph_id m w)
  = job_percent run_id w.
Proof.
  unfold job_status, job_percent.
  destruct (broadcast_published graph_id m w) as [-> _]. auto.
Qed.

(** The asynchronous loop follows a path of completed nodes as the
    synchronous one does, below the ceiling. *)
Lemma execute_async_loop_path (self : WorkflowGraph)
    (run_id graph_id : string) cur s names cur' s' :
  path self cur s names cur' s' ->
  forall fuel log it w,
    it + Z.of_nat (length names) <= max_iterations ->
    tracked run_id w ->
    exists entries w',
      List.map node entries = names /\
      tracked run_id w' /\
      execute_async_loop repr utcnow (length names + fuel) self run_id
        graph_id cur s log it w
      = execute_async_loop repr utcnow fuel self run_id graph_id cur' s'
          (log ++ entries) (it + Z.of_nat (length names)) w'.
Proof.
  induction 1 as [cur s | n s s1 names cur' s' Hcall Hpath IH];
    intros fuel log it w Hit Htr.
  - exists [], w. cbn [length List.map Nat.add]. rewrite app_nil_r.
    split; [reflexivity |]. split; [assumption |]. f_equal. lia.
  - cbn [length] in Hit. cbn [length Nat.add execute_async_loop].
    destruct (Z.ltb_spec it max_iterations) as [_ | Hlim]; [| lia].
    unfold now. rewrite Hcall.
    set (w1 := update_job_progress run_id n (it + 1 - 1)
                 (Z.of_nat (length (nodes (definition self)))) (tick w)).
    set (entry := mkEntry n (utcnow (ticks w))
                    (utcnow (ticks w1) - utcnow (ticks w)) (it + 1)).
    set (w2 := send_node_executed graph_id n (it + 1) (utcnow (ticks w))
                 (current_length s1, refinement_iterations s1) (tick w1)).
    destruct (IH fuel (log ++ [entry]) (it + 1) w2)
      as (entries & w' & Hn & Htr' & Hrun); [lia | |].
    { apply broadcast_tracked.
      exact (proj1 (update_job_progress_effect run_id n _ _ (tick w) Htr)). }
    exists (entry :: entries), w'. cbn [List.map node]. rewrite Hn.
    split; [reflexivity |]. split; [assumption |].
    rewrite Hrun, <- app_assoc. cbn [app]. f_equal. lia.
Qed.

(** When the traversal ends by finding no successor after [names], the
    asynchronous run marks the job completed and publishes the completion
    event last if fewer than 1000 nodes were executed; when exactly 1000
    were, it marks the job failed and publishes two error events, although
    [execute] returns on the same path. *)
Theorem execute_async_normal_end (self : WorkflowGraph) (run_id : string)
    (initial_state s : WorkflowState) (names : list string) (w : World) :
  path self (Some (entry_point (definition self))) initial_state names
       None s ->
  tracked run_id w ->
  ((length names < 1000)%nat ->
   exists log w',
     execute_async repr utcnow self run_id initial_state w
     = Some (Ok s, log, w') /\
     List.map node log = names /\
     job_status run_id w' = Some COMPLETED /\
     job_percent run_id w' = Some 100 /\
     exists before,
       published (trace w')
       = before ++ [("async_execution",
                     Completed run_id "async_execution")]) /\
  (length names = 1000%nat ->
   (exists log,
      execute repr utcnow self initial_state = Some (Ok s, log) /\
      List.map node log = names) /\
   exists log w',
     execute_async repr utcnow self run_id initial_state w
     = Some (Raise (RuntimeError
                      "Execution exceeded maximum iterations (1000)"),
             log, w') /\
     List.map node log = names /\
     job_status run_id w' = Some FAILED /\
     exists before,
       published (trace w')
       = before ++
         [ ("async_execution",
            Error "Execution exceeded maximum iterations (1000)");
           ("async_execution",
            Error ("Async execution failed: "
                   +:+ "Execution exceeded maximum iterations (1000)")) ]).
Proof.
  intros Hpath Htr.
  set (total := Z.of_nat (length (nodes (definition self)))).
  destruct (update_job_progress_effect run_id "starting" 0 total w Htr)
    as [Htr0 _].
  assert (forall fuel,
            (length names <= 1000)%nat ->
            exists entries w1,
              List.map node entries = names /\ tracked run_id w1 /\
              execute_async_loop repr utcnow (length names + fuel) self
                run_id "async_execution"
                (Some (entry_point (definition self))) initial_state [] 0
                (update_job_progress run_id "starting" 0 total w)
              = Some (Ok (s, Z.of_nat (length names)), entries, w1))
    as Hloop.
  { intros fuel Hle.
    destruct (execute_async_loop_path self run_id "async_execution"
                _ _ _ _ _ Hpath fuel [] 0
                (update_job_progress run_id "starting" 0 total w))
      as (entries & w1 & Hn & Htr1 & Hrun);
      [unfold max_iterations; lia | exact Htr0 |].
    exists entries, w1. split; [assumption |]. split; [assumption |].
    rewrite Hrun. destruct fuel; reflexivity. }
  split.
  - intros Hlen.
    destruct (Hloop (1000 - length names)%nat) as
      (entries & w1 & Hn & Htr1 & Hrun); [lia |].
    replace (length names + (1000 - length names))%nat
      with (Z.to_nat max_iterations) in Hrun
      by (unfold max_iterations; lia).
    unfold execute_async, execute_async_try. fold total. rewrite Hrun.
    destruct (Z.leb_spec max_iterations (Z.of_nat (length names)))
      as [Hlim | _]; [unfold max_iterations in Hlim; lia |].
    eexists entries, _. split; [reflexivity |]. split; [assumption |].
    destruct (mark_job_completed_effect run_id w1 Htr1) as (Hst & Hpc & Hp).
    unfold send_completed.
    destruct (broadcast_status run_id "async_execution"
                (Completed run_id "async_execution")
                (mark_job_completed utcnow run_id w1)) as [-> ->].
    split; [assumption |]. split; [assumption |].
    destruct (broadcast_published "async_execution"
                (Completed run_id "async_execution")
                (mark_job_completed utcnow run_id w1)) as [_ ->].
    eauto.
  - intros Hlen. split.
    + exists (path_log utcnow names 0 0).
      split; [| apply path_log_nodes]. unfold execute.
      replace (S (Z.to_nat max_iterations)) with (length names + 1)%nat
        by (unfold max_iterations; lia).
      rewrite (execute_loop_path repr utcnow self _ _ _ _ _ Hpath)
        by (unfold max_iterations; lia).
      reflexivity.
    + destruct (Hloop 0%nat) as (entries & w1 & Hn & Htr1 & Hrun); [lia |].
      replace (length names + 0)%nat with (Z.to_nat max_iterations) in Hrun
        by (unfold max_iterations; lia).
      unfold execute_async, execute_async_try. fold total. rewrite Hrun.
      destruct (Z.leb_spec max_iterations (Z.of_nat (length names)))
        as [_ | Hlim]; [| unfold max_iterations in Hlim; lia].
      eexists entries, _. split; [reflexivity |]. split; [assumption |].
      unfold send_error.
      set (m1 := "Execution exceeded maximum iterations (1000)").
      set (w2 := mark_job_failed utcnow run_id m1 w1).
      set (w3 := broadcast_to_graph "async_execution" (Error m1) w2).
      set (m2 := "Async execution failed: " +:+ str repr (RuntimeError m1)).
      set (w4 := mark_job_failed utcnow run_id m2 w3).
      destruct (mark_job_failed_effect run_id m1 w1 Htr1) as (Htr2 & _ & Hp2).
      fold w2 in Htr2, Hp2.
      pose proof (broadcast_tracked run_id "async_execution" (Error m1) w2
                    Htr2) as Htr3. fold w3 in Htr3.
      destruct (mark_job_failed_effect run_id m2 w3 Htr3) as (_ & Hst4 & Hp4).
      fold w4 in Hst4, Hp4.
      destruct (broadcast_status run_id "async_execution" (Error m2) w4)
        as [-> _].
      split; [assumption |].
      destruct (broadcast_published "async_execution" (Error m2) w4)
        as [_ ->].
      rewrite Hp4. unfold w3.
      destruct (broadcast_published "async_execution" (Error m1) w2)
        as [_ ->].
      rewrite <- app_assoc. eauto.
Qed.

End Async.

(** * Further properties of the engine *)

Section Trajectories.

Variable repr : string -> string.
Variable utcnow : nat -> Z.

Lemma execute_loop_trajectory (fuel : nat) (self : WorkflowGraph) :
  forall cur s log it clock,
    0 <= it <= max_iterations ->
    (Z.to_nat (max_iterations + 1 - it) <= fuel)%nat ->
    exists out names cur' s',
      execute_loop repr utcnow fuel self cur s log it clock
      = Some (out, log ++ path_log utcnow names it clock) /\
      path self cur s names cur' s' /\
      it + Z.of_nat (length names) <= max_iterations /\
      match out with
      | Ok final => cur' = None /\ s' = final
      | Raise e =>
          exists n,
            cur' = Some n /\
            ((e = iteration_limit_error /\
              it + Z.of_nat (length names) = max_iterations) \/
             (exists e', call_node self n s' = Raise e' /\
                         e = RuntimeError (node_failed repr n e') /\
                         it + Z.of_nat (length names) < max_iterations))
      end.
Proof.
  induction fuel as [|fuel IH]; intros cur s log it clock Hit Hfuel.
  - unfold max_iterations in *. lia.
  - destruct cur as [n|]; cbn [execute_loop].
    + destruct (Z.ltb_spec max_iterations (it + 1)) as [Hlim | Hlim].
      * exists (Raise iteration_limit_error), [], (Some n), s.
        cbn [path_log length]. rewrite app_nil_r.
        split; [reflexivity |]. split; [apply path_nil |]. split; [lia |].
        exists n. split; [reflexivity |]. left. split; [reflexivity | lia].
      * destruct (call_node self n s) as [s1 | e] eqn:Hcall.
        -- destruct (IH (_get_next_node self n s1) s1
                        (log ++ [mkEntry n (utcnow clock)
                                   (utcnow (S clock) - utcnow clock)
                                   (it + 1)])
                        (it + 1) (S (S clock)))
             as (out & names & cur' & s' & Hrun & Hpath & Hle & Hout);
             [lia | lia |].
           exists out, (n :: names), cur', s'.
           rewrite Hrun, <- app_assoc. cbn [path_log length app].
           split; [reflexivity |].
           split; [apply path_step with s1; assumption |].
           split; [lia |].
           destruct out as [final | e]; [exact Hout |].
           destruct Hout as (m & Hm & Hcase). exists m.
           split; [exact Hm |].
           destruct Hcase as [[He Hl] | (e' & Hc & He & Hl)].
           ++ left. split; [exact He | lia].
           ++ right. exists e'. split; [exact Hc |].
              split; [exact He | lia].
        -- exists (Raise (RuntimeError (node_failed repr n e))), [],
             (Some n), s.
           cbn [path_log length]. rewrite app_nil_r.
           split; [reflexivity |]. split; [apply path_nil |]. split; [lia |].
           exists n. split; [reflexivity |]. right. exists e.
           split; [exact Hcall |]. split; [reflexivity | lia].
    + exists (Ok s), [], None, s. cbn [path_log length].
      rewrite app_nil_r. split; [reflexivity |].
      split; [apply path_nil |]. split; [lia |]. split; reflexivity.
Qed.

Lemma execute_trajectory (self : WorkflowGraph)
    (initial_state : WorkflowState) :
  exists out names cur' s',
    execute repr utcnow self initial_state
    = Some (out, path_log utcnow names 0 0) /\
    path self (Some (entry_point (definition self))) initial_state names
         cur' s' /\
    (length names <= 1000)%nat /\
    ends_as repr self out names cur' s'.
Proof.
  destruct (execute_loop_trajectory (S (Z.to_nat max_iterations)) self
              (Some (entry_point (definition self))) initial_state [] 0 0%nat)
    as (out & names & cur' & s' & Hrun & Hpath & Hle & Hout).
  { unfold max_iterations. lia. }
  { unfold max_iterations. lia. }
  exists out, names, cur', s'. unfold max_iterations in Hle, Hout.
  split; [exact Hrun |]. split; [exact Hpath |]. split; [lia |].
  unfold ends_as. destruct out as [final | e]; [exact Hout |].
  destruct Hout as (n & Hn & Hcase). exists n. split; [exact Hn |].
  destruct Hcase as [[He Hl] | (e' & Hc & He & Hl)].
  - left. split; [exact He | lia].
  - right. exists e'. split; [exact Hc |]. split; [exact He | lia].
Qed.

(** X1. Whatever the graph and the initial state, the answer of
    [execute] is read off the traversal: its log holds one entry for each
    node the traversal completed, in order, numbered from 1 and stamped
    with the two clock readings of the node; it returns the state reached
    when no node is next, raises the limit error when 1000 nodes are
    completed and one more is due, and raises the error of the next node
    when its call raises. *)
Theorem execute_follows_path (self : WorkflowGraph)
    (initial_state : WorkflowState) :
  exists out names cur' s',
    execute repr utcnow self initial_state
    = Some (out, path_log utcnow names 0 0) /\
    path self (Some (entry_point (definition self))) initial_state names
         cur' s' /\
    (length names <= 1000)%nat /\
    ends_as repr self out names cur' s'.
Proof. exact (execute_trajectory self initial_state). Qed.

End Trajectories.

(** ** Paths computed and paths followed *)

Lemma follow_path (fuel : nat) (self : WorkflowGraph) :
  forall cur s names cur' s',
    follow fuel self cur s = (names, cur', s') ->
    path self cur s names cur' s'.
Proof.
  induction fuel as [|fuel IH]; intros cur s names cur' s' H.
  - cbn in H. inversion H; subst. apply path_nil.
  - destruct cur as [n|]; cbn [follow] in H.
    + destruct (call_node self n s) as [s1 | e] eqn:Hcall.
      * destruct (follow fuel self (_get_next_node self n s1) s1)
          as [[names1 cur1] s1'] eqn:Hf.
        inversion H; subst. apply path_step with s1; [exact Hcall |].
        apply IH. exact Hf.
      * inversion H; subst. apply path_nil.
    + inversion H; subst. apply path_nil.
Qed.

Section Forward.

Variable repr : string -> string.
Variable utcnow : nat -> Z.

(** X2. When the traversal from the entry point completes the nodes
    [names], at most 1000 of them, and then finds no successor,
    [execute] returns the state reached and a log of one entry per node,
    in order, numbered from 1. *)
Theorem execute_returns (self : WorkflowGraph)
    (initial_state s : WorkflowState) (names : list string) :
  path self (Some (entry_point (definition self))) initial_state names
       None s ->
  (length names <= 1000)%nat ->
  execute repr utcnow self initial_state
  = Some (Ok s, path_log utcnow names 0 0) /\
  List.map node (path_log utcnow names 0 0) = names /\
  List.map iteration (path_log utcnow names 0 0)
  = iterations_from 0 (length names).
Proof.
  intros Hpath Hlen. split; [| apply path_log_nodes].
  unfold execute.
  replace (S (Z.to_nat max_iterations))
    with (length names + (1001 - length names))%nat
    by (unfold max_iterations; lia).
  rewrite (execute_loop_path repr utcnow self _ _ _ _ _ Hpath)
    by (unfold max_iterations; lia).
  destruct (1001 - length names)%nat; reflexivity.
Qed.

(** X3. When the traversal completes 1000 nodes and one more is due,
    [execute] raises the limit error without calling that node, and the
    log holds the 1000 entries. *)
Theorem execute_hits_ceiling (self : WorkflowGraph)
    (initial_state s : WorkflowState) (names : list string) (n : string) :
  path self (Some (entry_point (definition self))) initial_state names
       (Some n) s ->
  length names = 1000%nat ->
  execute repr utcnow self initial_state
  = Some (Raise (RuntimeError
                   ("Execution exceeded maximum iterations (1000). "
                    +:+ "Possible infinite loop detected.")),
          path_log utcnow names 0 0) /\
  forall self',
    definition self' = definition self ->
    (forall m st, m ∈ names -> call_node self' m st = call_node self m st) ->
    execute repr utcnow self' initial_state
    = execute repr utcnow self initial_state.
Proof.
  intros Hpath Hlen.
  assert (forall g,
            path g (Some (entry_point (definition g))) initial_state names
                 (Some n) s ->
            execute repr utcnow g initial_state
            = Some (Raise iteration_limit_error, path_log utcnow names 0 0))
    as Hrun.
  { intros g Hg. unfold execute.
    replace (S (Z.to_nat max_iterations)) with (length names + 1)%nat
      by (unfold max_iterations; lia).
    rewrite (execute_loop_path repr utcnow g _ _ _ _ _ Hg)
      by (unfold max_iterations; lia).
    cbn [execute_loop].
    destruct (Z.ltb_spec max_iterations (0 + Z.of_nat (length names) + 1))
      as [_ | Hlim]; [reflexivity | unfold max_iterations in Hlim; lia]. }
  split; [exact (Hrun self Hpath) |].
  intros self' Hdef Hsame. rewrite (Hrun self Hpath).
  apply Hrun. rewrite Hdef.
  apply (path_agree self); [exact Hdef | exact Hsame | exact Hpath].
Qed.

End Forward.

(** The cycle that refines twice returns after four nodes. *)
Lemma execute_returns_witness :
  execute (fun s => s) example_clock loop_graph (too_long 2)
  = Some (Ok (mkState "" 5 50 [] [] "" "" 10 2 2 ∅),
          path_log example_clock
            ["refine_summary"; "check_length_loop";
             "refine_summary"; "check_length_loop"] 0 0) /\
  List.map node
    (path_log example_clock
       ["refine_summary"; "check_length_loop";
        "refine_summary"; "check_length_loop"] 0 0)
  = ["refine_summary"; "check_length_loop";
     "refine_summary"; "check_length_loop"] /\
  List.map iteration
    (path_log example_clock
       ["refine_summary"; "check_length_loop";
        "refine_summary"; "check_length_loop"] 0 0)
  = iterations_from 0
      (length ["refine_summary"; "check_length_loop";
               "refine_summary"; "check_length_loop"]).
Proof.
  apply (execute_returns (fun s => s) example_clock loop_graph (too_long 2)).
  - apply (follow_path 10). vm_compute. reflexivity.
  - cbn. lia.
Defined.

(** The cycle asked for 501 refinements is stopped at the ceiling. *)
Lemma execute_hits_ceiling_witness :
  execute (fun s => s) example_clock loop_graph (too_long 501)
  = Some (Raise (RuntimeError
                   ("Execution exceeded maximum iterations (1000). "
                    +:+ "Possible infinite loop detected.")),
          path_log example_clock
            (follow 1000 loop_graph (Some "refine_summary")
               (too_long 501)).1.1 0 0) /\
  forall self',
    definition self' = definition loop_graph ->
    (forall m st,
       m ∈ (follow 1000 loop_graph (Some "refine_summary")
              (too_long 501)).1.1 ->
       call_node self' m st = call_node loop_graph m st) ->
    execute (fun s => s) example_clock self' (too_long 501)
    = execute (fun s => s) example_clock loop_graph (too_long 501).
Proof.
  apply (execute_hits_ceiling (fun s => s) example_clock loop_graph
           (too_long 501)
           (follow 1000 loop_graph (Some "refine_summary")
              (too_long 501)).2
           (follow 1000 loop_graph (Some "refine_summary")
              (too_long 501)).1.1
           "refine_summary").
  - apply (follow_path 1000). vm_compute. reflexivity.
  - vm_compute. reflexivity.
Defined.

(** ** Constructed graphs *)

Lemma next_node_is_target (self : WorkflowGraph) (n m : string)
    (s : WorkflowState) :
  _get_next_node self n s = Some m ->
  exists targets,
    edges (definition self) !! n = Some targets /\ m ∈ targets.
Proof.
  unfold _get_next_node.
  destruct (edges (definition self) !! n) as [[|x l]|]; try discriminate.
  case_bool_decide as Hc.
  - intros Hn. unfold _handle_loop_condition in Hn.
    destruct (_ && _); [| discriminate].
    case_bool_decide as Hin; [| discriminate].
    inversion Hn; subst. eauto.
  - intros Hn. inversion Hn; subst. exists (m :: l).
    split; [reflexivity | left].
Qed.

Lemma constructed_inv (self : WorkflowGraph) :
  constructed self ->
  ~ structurally_invalid (definition self) /\
  forall n, n ∈ nodes (definition self) ->
            is_Some (_nodes (registry self) !! n).
Proof.
  unfold constructed, WorkflowGraph_init. intros H.
  destruct (validate_structure_cases (definition self))
    as [[_ [msg Hv]] | [Hgood Hv]]; rewrite Hv in H; cbn [bind] in H;
    [discriminate |].
  split; [exact Hgood |].
  destruct (find_unregistered (definition self) (registry self))
    as [(x & Hf & _) | [_ Hall]]; [rewrite Hf in H; discriminate |].
  exact Hall.
Qed.

Lemma path_stays_declared (self : WorkflowGraph) cur s names cur' s' :
  path self cur s names cur' s' ->
  ~ structurally_invalid (definition self) ->
  (forall n, cur = Some n -> n ∈ nodes (definition self)) ->
  (forall n, n ∈ names -> n ∈ nodes (definition self)) /\
  (forall n, cur' = Some n -> n ∈ nodes (definition self)).
Proof.
  intros Hpath Hvalid.
  induction Hpath as [cur s | n s s1 names cur' s' Hcall Hpath IH];
    intros Hcur.
  - split; [| exact Hcur]. intros n Hn. apply elem_of_nil in Hn. destruct Hn.
  - destruct IH as [IHn IHc].
    + intros m Hm. apply next_node_is_target in Hm as (l & Hl & Hin).
      destruct (decide (m ∈ nodes (definition self))) as [Hd | Hd];
        [exact Hd |].
      exfalso. apply Hvalid. right. right. exists n, l, m. auto.
    + split; [| exact IHc]. intros m Hm.
      apply elem_of_cons in Hm as [-> | Hm]; [apply Hcur; reflexivity |].
      apply IHn. exact Hm.
Qed.

(** X4. In a graph that [WorkflowGraph.__init__] accepted, every node
    the traversal completes or arrives at is a declared node with a
    registry entry: the lookup inside [execute] never fails, and an
    error of a node is the error its registered function raised. *)
Theorem constructed_lookup_succeeds (self : WorkflowGraph)
    (initial_state s : WorkflowState) (names : list string) (n : string) :
  constructed self ->
  path self (Some (entry_point (definition self))) initial_state names
       (Some n) s ->
  (forall m, m ∈ n :: names -> m ∈ nodes (definition self)) /\
  exists func,
    get_node (registry self) n = Ok func /\
    call_node self n s = func s.
Proof.
  intros Hc Hpath. destruct (constructed_inv self Hc) as [Hvalid Hreg].
  destruct (path_stays_declared self _ _ _ _ _ Hpath Hvalid) as [Hn Hcur].
  { intros m Hm. inversion Hm; subst.
    destruct (decide (entry_point (definition self)
                      ∈ nodes (definition self))) as [Hd | Hd];
      [exact Hd |].
    exfalso. apply Hvalid. left. exact Hd. }
  split.
  - intros m Hm. apply elem_of_cons in Hm as [-> | Hm]; auto.
  - destruct (Hreg n (Hcur n eq_refl)) as [func Hf].
    exists func. unfold call_node, get_node. rewrite Hf. split; reflexivity.
Qed.

(** In the cycle, after two completed nodes the traversal stands at a
    registered node. *)
Lemma constructed_lookup_succeeds_witness :
  (forall m, m ∈ ["refine_summary"; "refine_summary"; "check_length_loop"] ->
             m ∈ nodes (definition loop_graph)) /\
  exists func,
    get_node (registry loop_graph) "refine_summary" = Ok func /\
    call_node loop_graph "refine_summary"
      (mkState "" 5 50 [] [] "" "" 10 1 2 ∅)
    = func (mkState "" 5 50 [] [] "" "" 10 1 2 ∅).
Proof.
  apply (constructed_lookup_succeeds loop_graph (too_long 2)
           (mkState "" 5 50 [] [] "" "" 10 1 2 ∅)
           ["refine_summary"; "check_length_loop"] "refine_summary").
  - vm_compute. reflexivity.
  - apply (follow_path 2). vm_compute. reflexivity.
Defined.

(** ** The asynchronous run, in general *)

Lemma executed_events_app (ms1 ms2 : list (string * message)) :
  executed_events (ms1 ++ ms2) = executed_events ms1 ++ executed_events ms2.
Proof. unfold executed_events. apply omap_app. Qed.

Lemma run_effect_refl (run_id graph_id : string) (w : World) :
  run_effect run_id graph_id w w [] [].
Proof.
  unfold run_effect, log_events. cbn [List.map]. rewrite ?app_nil_r.
  repeat split; auto.
Qed.

Lemma run_effect_trans (run_id graph_id : string) (w w1 w2 : World)
    e1 e2 f1 f2 :
  run_effect run_id graph_id w w1 e1 f1 ->
  run_effect run_id graph_id w1 w2 e2 f2 ->
  run_effect run_id graph_id w w2 (e1 ++ e2) (f1 ++ f2).
Proof.
  intros (Ho1 & Hs1 & He1 & Hf1) (Ho2 & Hs2 & He2 & Hf2).
  unfold run_effect. split; [| split; [| split]].
  - intros r Hr. rewrite Ho2, Ho1 by assumption. reflexivity.
  - intros r. rewrite Hs2, Hs1. reflexivity.
  - rewrite He2, He1. unfold log_events. rewrite List.map_app, app_assoc.
    reflexivity.
  - rewrite Hf2, Hf1, app_assoc. reflexivity.
Qed.

(** A change of the record of the run alone, announced by a [JobEvent]. *)
Lemma store_job_effect (run_id graph_id : string) (w w0 : World)
    (job job' : JobInfo) :
  jobs w !! run_id = Some job ->
  jobs w0 = jobs w -> trace w0 = trace w ->
  run_effect run_id graph_id w
    (observe (set_jobs w0 (<[run_id := job']> (jobs w)))
       [JobEvent run_id job']) [] [].
Proof.
  intros Hjob Hj Ht. unfold run_effect, final_events, log_events.
  cbn [observe set_jobs jobs trace List.map].
  rewrite Ht, published_app, ?app_nil_r. cbn.
  rewrite ?app_nil_r. split; [| split; [| split]]; try reflexivity.
  - intros r Hr. rewrite lookup_insert_ne by congruence. reflexivity.
  - intros r. destruct (decide (r = run_id)) as [-> | Hr].
    + rewrite lookup_insert_eq, Hjob. split; eauto.
    + rewrite lookup_insert_ne by congruence. reflexivity.
Qed.

Lemma tick_effect (run_id graph_id : string) (w : World) :
  run_effect run_id graph_id w (tick w) [] [].
Proof. exact (run_effect_refl run_id graph_id w). Qed.

Lemma update_job_progress_run_effect (run_id graph_id node : string)
    (c t : Z) (w : World) :
  run_effect run_id graph_id w (update_job_progress run_id node c t w) [] [].
Proof.
  unfold update_job_progress.
  destruct (jobs w !! run_id) as [job|] eqn:Hjob;
    [| apply run_effect_refl].
  apply store_job_effect with job; auto.
Qed.

Section AsyncGeneral.

Variable repr : string -> string.
Variable utcnow : nat -> Z.

Lemma mark_job_failed_run_effect (run_id graph_id msg : string)
    (w : World) :
  run_effect run_id graph_id w (mark_job_failed utcnow run_id msg w) [] [].
Proof.
  unfold mark_job_failed.
  destruct (jobs w !! run_id) as [job|] eqn:Hjob;
    [| apply run_effect_refl].
  apply store_job_effect with job; auto.
Qed.

Lemma mark_job_completed_run_effect (run_id graph_id : string)
    (w : World) :
  run_effect run_id graph_id w (mark_job_completed utcnow run_id w) [] [].
Proof.
  unfold mark_job_completed.
  destruct (jobs w !! run_id) as [job|] eqn:Hjob;
    [| apply run_effect_refl].
  apply store_job_effect with job; auto.
Qed.

End AsyncGeneral.

Lemma broadcast_run_effect (run_id graph_id : string) (m : message)
    (w : World) :
  run_effect run_id graph_id w (broadcast_to_graph graph_id m w)
    (match m with
     | NodeExecuted n i t _ => [mkEntry n t 0 i]
     | _ => []
     end)
    (match m with
     | NodeExecuted _ _ _ _ => []
     | _ => [(graph_id, m)]
     end).
Proof.
  destruct (broadcast_published graph_id m w) as [Hj Hp].
  unfold run_effect, final_events. rewrite Hj, Hp, executed_events_app.
  rewrite List.filter_app.
  split; [reflexivity |]. split; [reflexivity |].
  destruct m; cbn; rewrite ?app_nil_r; split; reflexivity.
Qed.

Lemma send_node_executed_run_effect (run_id graph_id n : string)
    (i t d : Z) (snap : Z * Z) (w : World) :
  run_effect run_id graph_id w (send_node_executed graph_id n i t snap w)
    [mkEntry n t d i] [].
Proof.
  exact (broadcast_run_effect run_id graph_id (NodeExecuted n i t snap) w).
Qed.

Lemma broadcast_ticks (graph_id : string) (m : message) (w : World) :
  ticks (broadcast_to_graph graph_id m w) = ticks w.
Proof.
  destruct (broadcast_to_graph_effect graph_id m w) as (_ & _ & Ht & _).
  exact Ht.
Qed.

Lemma update_job_progress_ticks (run_id node : string) (c t : Z)
    (w : World) :
  ticks (update_job_progress run_id node c t w) = ticks w.
Proof.
  unfold update_job_progress. destruct (jobs w !! run_id); reflexivity.
Qed.

Section AsyncForward.

Variable repr : string -> string.
Variable utcnow : nat -> Z.

(** Along a path the asynchronous loop takes two clock readings a node,
    as the synchronous one, and announces each entry it logs. *)
Lemma execute_async_loop_along (self : WorkflowGraph)
    (run_id graph_id : string) cur s names cur' s' :
  path self cur s names cur' s' ->
  forall fuel log it w,
    it + Z.of_nat (length names) <= max_iterations ->
    exists w',
      execute_async_loop repr utcnow (length names + fuel) self run_id
        graph_id cur s log it w
      = execute_async_loop repr utcnow fuel self run_id graph_id cur' s'
          (log ++ path_log utcnow names it (ticks w))
          (it + Z.of_nat (length names)) w' /\
      ticks w' = (ticks w + 2 * length names)%nat /\
      run_effect run_id graph_id w w'
        (path_log utcnow names it (ticks w)) [].
Proof.
  induction 1 as [cur s | n s s1 names cur' s' Hcall Hpath IH];
    intros fuel log it w Hit.
  - exists w. cbn [length path_log Nat.add]. rewrite app_nil_r.
    split; [f_equal; lia |]. split; [lia | apply run_effect_refl].
  - cbn [length] in Hit. cbn [length Nat.add execute_async_loop path_log].
    destruct (Z.ltb_spec it max_iterations) as [_ | Hlim]; [| lia].
    unfold now. rewrite Hcall.
    set (w1 := update_job_progress run_id n (it + 1 - 1)
                 (Z.of_nat (length (nodes (definition self)))) (tick w)).
    assert (ticks w1 = S (ticks w)) as Ht1
      by (unfold w1; rewrite update_job_progress_ticks; reflexivity).
    rewrite Ht1.
    set (entry := mkEntry n (utcnow (ticks w))
                    (utcnow (S (ticks w)) - utcnow (ticks w)) (it + 1)).
    set (w2 := send_node_executed graph_id n (it + 1) (utcnow (ticks w))
                 (current_length s1, refinement_iterations s1) (tick w1)).
    assert (ticks w2 = S (S (ticks w))) as Ht2.
    { unfold w2, send_node_executed. rewrite broadcast_ticks.
      cbn [tick ticks]. rewrite Ht1. reflexivity. }
    destruct (IH fuel (log ++ [entry]) (it + 1) w2)
      as (w' & Hrun & Ht' & Heff); [lia |].
    exists w'. rewrite Hrun, Ht2, <- app_assoc. cbn [app].
    split; [f_equal; lia |]. split; [lia |].
    apply (run_effect_trans run_id graph_id w w2 w' [entry] _ [] []);
      [| rewrite Ht2 in Heff; exact Heff].
    apply (run_effect_trans run_id graph_id w w1 w2 [] [entry] [] []).
    + apply (run_effect_trans run_id graph_id w (tick w) w1 [] [] [] []);
        [apply tick_effect | apply update_job_progress_run_effect].
    + apply (run_effect_trans run_id graph_id w1 (tick w1) w2 [] [entry]
               [] []); [apply tick_effect |].
      apply send_node_executed_run_effect.
Qed.

Lemma job_after_failed (run_id msg : string) (w : World) :
  tracked run_id w ->
  job_status run_id (mark_job_failed utcnow run_id msg w) = Some FAILED /\
  job_error run_id (mark_job_failed utcnow run_id msg w) = Some msg.
Proof.
  unfold tracked, mark_job_failed, job_status, job_error.
  intros [job Hjob]. rewrite Hjob. cbn [observe set_jobs tick jobs].
  rewrite lookup_insert_eq. split; reflexivity.
Qed.

Lemma broadcast_job (run_id graph_id : string) (m : message) (w : World) :
  jobs (broadcast_to_graph graph_id m w) !! run_id = jobs w !! run_id.
Proof. destruct (broadcast_published graph_id m w) as [-> _]. reflexivity. Qed.

(** The two handlers of a failure: the job is marked failed twice and
    two error events are published. *)
Lemma fail_twice_effect (run_id msg : string) (w : World) :
  let w' :=
    send_error "async_execution" ("Async execution failed: " +:+ msg)
      (mark_job_failed utcnow run_id ("Async execution failed: " +:+ msg)
         (send_error "async_execution" msg
            (mark_job_failed utcnow run_id msg w))) in
  run_effect run_id "async_execution" w w' []
    [ ("async_execution", Error msg);
      ("async_execution", Error ("Async execution failed: " +:+ msg)) ] /\
  (tracked run_id w ->
   job_status run_id w' = Some FAILED /\
   job_error run_id w' = Some ("Async execution failed: " +:+ msg)).
Proof.
  cbv zeta. unfold send_error.
  set (m2 := "Async execution failed: " +:+ msg).
  set (w1 := mark_job_failed utcnow run_id msg w).
  set (w2 := broadcast_to_graph "async_execution" (Error msg) w1).
  set (w3 := mark_job_failed utcnow run_id m2 w2).
  split.
  - apply (run_effect_trans run_id "async_execution" w w2 _ [] []
             [("async_execution", Error msg)]
             [("async_execution", Error m2)]).
    + apply (run_effect_trans run_id "async_execution" w w1 w2 [] [] []
               [("async_execution", Error msg)]).
      * apply mark_job_failed_run_effect.
      * exact (broadcast_run_effect run_id "async_execution" (Error msg) w1).
    + apply (run_effect_trans run_id "async_execution" w2 w3 _ [] [] []
               [("async_execution", Error m2)]).
      * apply mark_job_failed_run_effect.
      * exact (broadcast_run_effect run_id "async_execution" (Error m2) w3).
  - intros Htr.
    assert (tracked run_id w2) as Htr2.
    { apply broadcast_tracked.
      exact (proj1 (mark_job_failed_effect utcnow run_id msg w Htr)). }
    destruct (job_after_failed run_id m2 w2 Htr2) as [Hst Her].
    unfold job_status, job_error in *. rewrite broadcast_job. auto.
Qed.

Lemma complete_effect (run_id : string) (w : World) :
  let w' :=
    send_completed "async_execution" run_id
      (mark_job_completed utcnow run_id w) in
  run_effect run_id "async_execution" w w' []
    [("async_execution", Completed run_id "async_execution")] /\
  (tracked run_id w ->
   job_status run_id w' = Some COMPLETED /\
   job_percent run_id w' = Some 100).
Proof.
  cbv zeta. unfold send_completed. split.
  - apply (run_effect_trans run_id "async_execution" w
             (mark_job_completed utcnow run_id w) _ [] [] []
             [("async_execution", Completed run_id "async_execution")]).
    + apply mark_job_completed_run_effect.
    + exact (broadcast_run_effect run_id "async_execution"
               (Completed run_id "async_execution")
               (mark_job_completed utcnow run_id w)).
  - intros Htr.
    destruct (mark_job_completed_effect utcnow run_id w Htr)
      as (Hst & Hpc & _).
    unfold job_status, job_percent in *. rewrite broadcast_job. auto.
Qed.

End AsyncForward.

Section AsyncOutcome.

Variable repr : string -> string.
Variable utcnow : nat -> Z.

Lemma execute_async_forward (self : WorkflowGraph) (run_id : string)
    (initial_state : WorkflowState) (w : World)
    (out : result exn WorkflowState) names cur' s' :
  path self (Some (entry_point (definition self))) initial_state names
       cur' s' ->
  (length names <= 1000)%nat ->
  ends_as repr self out names cur' s' ->
  exists w',
    execute_async repr utcnow self run_id initial_state w
    = Some (async_outcome out (length names),
            path_log utcnow names 0 (ticks w), w') /\
    run_effect run_id "async_execution" w w'
      (path_log utcnow names 0 (ticks w))
      (finals_of run_id (str repr) (async_outcome out (length names))) /\
    (tracked run_id w ->
     job_settled run_id (str repr) (async_outcome out (length names)) w').
Proof.
  intros Hpath Hlen Hends.
  set (total := Z.of_nat (length (nodes (definition self)))).
  set (w0 := update_job_progress run_id "starting" 0 total w).
  assert (ticks w0 = ticks w) as Ht0 by apply update_job_progress_ticks.
  assert (run_effect run_id "async_execution" w w0 [] []) as He0
    by apply update_job_progress_run_effect.
  assert (tracked run_id w -> tracked run_id w0) as Htr0.
  { intros Htr. destruct He0 as (_ & Hs & _). apply Hs. exact Htr. }
  destruct (execute_async_loop_along repr utcnow self run_id
              "async_execution" _ _ _ _ _ Hpath
              (1000 - length names) [] 0 w0) as (w1 & Hrun & _ & He1).
  { unfold max_iterations. lia. }
  replace (length names + (1000 - length names))%nat
    with (Z.to_nat max_iterations) in Hrun by (unfold max_iterations; lia).
  rewrite Ht0 in Hrun, He1. cbn [app] in Hrun.
  assert (run_effect run_id "async_execution" w w1
            (path_log utcnow names 0 (ticks w)) []) as Hew1.
  { exact (run_effect_trans run_id "async_execution" w w0 w1 [] _ [] []
             He0 He1). }
  assert (tracked run_id w -> tracked run_id w1) as Htr1.
  { intros Htr. destruct Hew1 as (_ & Hs & _). apply Hs. exact Htr. }
  assert (forall w2 finals,
            run_effect run_id "async_execution" w1 w2 [] finals ->
            run_effect run_id "async_execution" w w2
              (path_log utcnow names 0 (ticks w)) finals) as Hclose.
  { intros w2 finals He2.
    pose proof (run_effect_trans run_id "async_execution" w w1 w2
                  _ [] [] finals Hew1 He2) as He.
    rewrite app_nil_r in He. exact He. }
  unfold execute_async, execute_async_try. fold total. fold w0.
  unfold async_outcome.
  assert (Hlimit :
    length names = 1000%nat ->
    execute_async_loop repr utcnow (1000 - length names) self run_id
      "async_execution" cur' s' (path_log utcnow names 0 (ticks w))
      (0 + Z.of_nat (length names)) w1
    = Some (Ok (s', 0 + Z.of_nat (length names)),
            path_log utcnow names 0 (ticks w), w1) ->
    exists w',
      match
        (if max_iterations <=? 0 + Z.of_nat (length names)
         then
           Some (Raise async_limit_error, path_log utcnow names 0 (ticks w),
                 send_error "async_execution"
                   "Execution exceeded maximum iterations (1000)"
                   (mark_job_failed utcnow run_id
                      "Execution exceeded maximum iterations (1000)" w1))
         else
           Some (Ok s', path_log utcnow names 0 (ticks w),
                 send_completed "async_execution" run_id
                   (mark_job_completed utcnow run_id w1)))
      with
      | Some (Raise e, execution_log, w2) =>
          Some (Raise e, execution_log,
                send_error "async_execution"
                  ("Async execution failed: " +:+ str repr e)
                  (mark_job_failed utcnow run_id
                     ("Async execution failed: " +:+ str repr e) w2))
      | r => r
      end
      = Some (Raise async_limit_error, path_log utcnow names 0 (ticks w), w')
      /\
      run_effect run_id "async_execution" w w'
        (path_log utcnow names 0 (ticks w))
        (finals_of run_id (str repr) (Raise async_limit_error)) /\
      (tracked run_id w ->
       job_settled run_id (str repr) (Raise async_limit_error) w')).
  { intros H1000 _.
    destruct (Z.leb_spec max_iterations (0 + Z.of_nat (length names)))
      as [_ | Hlt]; [| unfold max_iterations in Hlt; lia].
    destruct (fail_twice_effect utcnow run_id
                "Execution exceeded maximum iterations (1000)" w1)
      as [Heff Hjob].
    eexists. split; [reflexivity |].
    split; [apply Hclose; exact Heff |].
    intros Htr. exact (Hjob (Htr1 Htr)). }
  destruct out as [final | e]; cbn [ends_as] in Hends.
  - destruct Hends as [-> ->]. rewrite Hrun.
    assert (execute_async_loop repr utcnow (1000 - length names) self run_id
              "async_execution" None final
              (path_log utcnow names 0 (ticks w))
              (0 + Z.of_nat (length names)) w1
            = Some (Ok (final, 0 + Z.of_nat (length names)),
                    path_log utcnow names 0 (ticks w), w1)) as Hexit
      by (destruct (1000 - length names)%nat; reflexivity).
    rewrite Hexit.
    case_bool_decide as Hcase.
    + destruct (Z.leb_spec max_iterations (0 + Z.of_nat (length names)))
        as [Hge | _]; [unfold max_iterations in Hge; lia |].
      destruct (complete_effect utcnow run_id w1) as [Heff Hjob].
      eexists. split; [reflexivity |].
      split; [apply Hclose; exact Heff |].
      intros Htr. exact (Hjob (Htr1 Htr)).
    + apply Hlimit; [lia | exact Hexit].
  - destruct Hends as (n & -> & [[-> H1000] | (e' & Hcall & -> & Hlt)]).
    + rewrite Hrun.
      assert (execute_async_loop repr utcnow (1000 - length names) self
                run_id "async_execution" (Some n) s'
                (path_log utcnow names 0 (ticks w))
                (0 + Z.of_nat (length names)) w1
              = Some (Ok (s', 0 + Z.of_nat (length names)),
                      path_log utcnow names 0 (ticks w), w1)) as Hexit.
      { rewrite H1000. reflexivity. }
      rewrite Hexit. rewrite bool_decide_eq_false_2 by lia.
      apply Hlimit; [exact H1000 | exact Hexit].
    + rewrite Hrun. rewrite bool_decide_eq_true_2 by exact Hlt.
      destruct (1000 - length names)%nat as [|fuel] eqn:Hfuel; [lia |].
      cbn [execute_async_loop].
      destruct (Z.ltb_spec (0 + Z.of_nat (length names)) max_iterations)
        as [_ | Hge]; [| unfold max_iterations in Hge; lia].
      unfold now. rewrite Hcall.
      set (w2 := update_job_progress run_id n
                   (0 + Z.of_nat (length names) + 1 - 1) total (tick w1)).
      assert (run_effect run_id "async_execution" w1 w2 [] []) as He2.
      { apply (run_effect_trans run_id "async_execution" w1 (tick w1) w2
                 [] [] [] []);
          [apply tick_effect | apply update_job_progress_run_effect]. }
      destruct (fail_twice_effect utcnow run_id (node_failed repr n e') w2)
        as [Heff Hjob].
      eexists. split; [reflexivity |]. split.
      * apply Hclose.
        exact (run_effect_trans run_id "async_execution" w1 w2 _ [] [] [] _
                 He2 Heff).
      * intros Htr. apply Hjob. destruct He2 as (_ & Hs & _). apply Hs.
        exact (Htr1 Htr).
Qed.

End AsyncOutcome.

Section AsyncTheorems.

Variable repr : string -> string.
Variable utcnow : nat -> Z.

Lemma path_log_length (names : list string) (it : Z) (clock : nat) :
  length (path_log utcnow names it clock) = length names.
Proof.
  destruct (path_log_nodes utcnow names it clock) as [Hn _].
  rewrite <- Hn at 2. rewrite length_map. reflexivity.
Qed.

(** Every asynchronous run in terms of the traversal [execute] makes. *)
Lemma execute_async_cases (self : WorkflowGraph) (run_id : string)
    (initial_state : WorkflowState) (w : World) :
  exists out names w',
    execute repr utcnow self initial_state
    = Some (out, path_log utcnow names 0 0) /\
    (length names <= 1000)%nat /\
    execute_async repr utcnow self run_id initial_state w
    = Some (async_outcome out (length names),
            path_log utcnow names 0 (ticks w), w') /\
    run_effect run_id "async_execution" w w'
      (path_log utcnow names 0 (ticks w))
      (finals_of run_id (str repr) (async_outcome out (length names))) /\
    (tracked run_id w ->
     job_settled run_id (str repr) (async_outcome out (length names)) w') /\
    match async_outcome out (length names) with
    | Ok _ => True
    | Raise e => exists msg, e = RuntimeError msg
    end.
Proof.
  destruct (execute_trajectory repr utcnow self initial_state)
    as (out & names & cur' & s' & Hrun & Hpath & Hlen & Hends).
  destruct (execute_async_forward repr utcnow self run_id initial_state w
              out names cur' s' Hpath Hlen Hends) as (w' & Ha & He & Hj).
  exists out, names, w'. repeat (split; [assumption |]).
  unfold async_outcome. case_bool_decide; [| unfold async_limit_error; eauto].
  destruct out as [final | e]; [exact I |].
  destruct Hends as (n & _ & [[-> _] | (e' & _ & -> & _)]);
    unfold iteration_limit_error; eauto.
Qed.

(** X5. Every asynchronous run ends, with at most 1000 log entries, in
    one of two ways.  Either it returns: it has then published one
    completion event carrying the run id and no error event, and a
    tracked job reads COMPLETED at 100 percent.  Or it raises a
    [RuntimeError]: it has then published two error events and no
    completion event, the text of the error and the same text behind
    [Async execution failed: ], and a tracked job reads FAILED with the
    second text as error message. *)
Theorem execute_async_outcome (self : WorkflowGraph) (run_id : string)
    (initial_state : WorkflowState) (w : World) :
  exists out log w',
    execute_async repr utcnow self run_id initial_state w
    = Some (out, log, w') /\
    (length log <= 1000)%nat /\
    final_events w' = final_events w ++ finals_of run_id (str repr) out /\
    (tracked run_id w -> job_settled run_id (str repr) out w') /\
    match out with
    | Ok _ => True
    | Raise e => exists msg, e = RuntimeError msg
    end.
Proof.
  destruct (execute_async_cases self run_id initial_state w)
    as (out & names & w' & _ & Hlen & Ha & He & Hj & Hk).
  exists (async_outcome out (length names)),
    (path_log utcnow names 0 (ticks w)), w'.
  split; [exact Ha |]. split; [rewrite path_log_length; exact Hlen |].
  split; [exact (proj2 (proj2 (proj2 He))) |]. split; assumption.
Qed.

(** X6. The stream tells the log: the [NODE_EXECUTED] events an
    asynchronous run publishes are, in order, the entries of the log it
    ends with (node, iteration and start time), all on the topic
    [async_execution].  The run changes the record of no other run and
    neither creates nor removes a record. *)
Theorem execute_async_announces_log (self : WorkflowGraph)
    (run_id : string) (initial_state : WorkflowState) (w : World) :
  exists out log w',
    execute_async repr utcnow self run_id initial_state w
    = Some (out, log, w') /\
    executed_events (published (trace w'))
    = executed_events (published (trace w))
      ++ log_events "async_execution" log /\
    (forall r, r <> run_id -> jobs w' !! r = jobs w !! r) /\
    (forall r, is_Some (jobs w' !! r) <-> is_Some (jobs w !! r)).
Proof.
  destruct (execute_async_cases self run_id initial_state w)
    as (out & names & w' & _ & _ & Ha & (Ho & Hs & Hev & _) & _).
  exists (async_outcome out (length names)),
    (path_log utcnow names 0 (ticks w)), w'.
  split; [exact Ha |]. split; [exact Hev |]. split; assumption.
Qed.

(** X7. The two engines agree below the ceiling: when [execute] ends
    having completed fewer than 1000 nodes, [execute_async] ends in the
    same way, with the same final state or the same error, and its log is
    the log of [execute] stamped with the readings of the clock that
    follow those already taken. *)
Theorem execute_async_agrees (self : WorkflowGraph) (run_id : string)
    (initial_state : WorkflowState) (w : World) :
  exists out names out' w',
    execute repr utcnow self initial_state
    = Some (out, path_log utcnow names 0 0) /\
    execute_async repr utcnow self run_id initial_state w
    = Some (out', path_log utcnow names 0 (ticks w), w') /\
    ((length names < 1000)%nat -> out' = out).
Proof.
  destruct (execute_async_cases self run_id initial_state w)
    as (out & names & w' & Hs & _ & Ha & _).
  exists out, names, (async_outcome out (length names)), w'.
  split; [exact Hs |]. split; [exact Ha |].
  intros Hlt. unfold async_outcome.
  rewrite bool_decide_eq_true_2 by exact Hlt. reflexivity.
Qed.

End AsyncTheorems.

(** ** Job tracker *)

Lemma fold_delete_lookup (l : list string) (js : gmap string JobInfo)
    (r : string) :
  fold_left (fun js run_id => delete run_id js) l js !! r
  = if bool_decide (r ∈ l) then None else js !! r.
Proof.
  revert js. induction l as [|x l IH]; intros js; cbn [fold_left].
  - rewrite bool_decide_eq_false_2 by apply not_elem_of_nil. reflexivity.
  - rewrite IH. destruct (decide (r = x)) as [-> | Hne].
    + rewrite lookup_delete_eq.
      rewrite (bool_decide_eq_true_2 (x ∈ x :: l)) by left.
      case_bool_decide; reflexivity.
    + rewrite lookup_delete_ne by congruence.
      rewrite (bool_decide_ext (r ∈ x :: l) (r ∈ l)); [reflexivity |].
      rewrite elem_of_cons. tauto.
Qed.

Section CleanupTheorems.

Variable utcnow : nat -> Z.
Variable timestamp : Z -> float.

Lemma is_old_expired (cutoff_time : float) (job : JobInfo) :
  is_old timestamp cutoff_time job = true <->
  expired timestamp cutoff_time job.
Proof.
  unfold is_old, expired. destruct (end_time job) as [t|].
  - rewrite ltb_spec. unfold SFltb. split.
    + intros H. exists t. split; [reflexivity |].
      destruct (SFcompare _ _) as [[]|]; try discriminate. reflexivity.
    + intros (t' & Ht & Hlt). inversion Ht; subst t'. rewrite Hlt.
      reflexivity.
  - split; [discriminate |]. intros (t & Ht & _). discriminate.
Qed.

Lemma swept_lookup (cutoff_time : float) (js : gmap string JobInfo)
    (run_id : string) :
  fold_left (fun js run_id => delete run_id js)
    (List.filter (fun rj => is_old timestamp cutoff_time rj.2)
       (map_to_list js)).*1 js !! run_id
  = match js !! run_id with
    | Some job =>
        if is_old timestamp cutoff_time job then None else Some job
    | None => None
    end.
Proof.
  rewrite fold_delete_lookup.
  destruct (js !! run_id) as [job|] eqn:Hjob.
  - destruct (is_old timestamp cutoff_time job) eqn:Hold.
    + rewrite bool_decide_eq_true_2; [reflexivity |].
      apply list_elem_of_fmap. exists (run_id, job).
      split; [reflexivity |]. apply list_elem_of_In, filter_In.
      split; [| exact Hold].
      apply list_elem_of_In, elem_of_map_to_list. exact Hjob.
    + rewrite bool_decide_eq_false_2; [reflexivity |].
      intros Hin. apply list_elem_of_fmap in Hin as ([r j] & Hr & Hin).
      cbn in Hr. subst r.
      apply list_elem_of_In, filter_In in Hin as [Hin Hj].
      apply list_elem_of_In, elem_of_map_to_list in Hin.
      cbn [snd] in Hj. rewrite Hjob in Hin. inversion Hin; subst j.
      rewrite Hold in Hj. discriminate.
  - case_bool_decide; reflexivity.
Qed.

(** X8. The sweep reads the clock once and leaves the subscribers and
    the stream as they are.  When [max_age_hours * 3600] is beyond the
    range of a float it raises [OverflowError] and removes nothing.
    Otherwise the cutoff is the timestamp of the reading less that many
    seconds, and the sweep removes exactly the jobs that have ended
    with a timestamp strictly below the cutoff: every other job keeps
    its record, a job that has not ended whatever its age, and no record
    appears. *)
Theorem cleanup_old_jobs_spec (max_age_hours : Z) (w : World) :
  match int_to_float (max_age_hours * 3600) with
  | None =>
      cleanup_old_jobs utcnow timestamp max_age_hours w
      = (Raise (OverflowError "int too large to convert to float"), tick w)
  | Some age =>
      let cutoff_time :=
        PrimFloat.sub (timestamp (utcnow (ticks w))) age in
      exists w',
        cleanup_old_jobs utcnow timestamp max_age_hours w = (Ok tt, w') /\
        (forall run_id job,
           jobs w !! run_id = Some job ->
           expired timestamp cutoff_time job ->
           jobs w' !! run_id = None) /\
        (forall run_id job,
           jobs w !! run_id = Some job ->
           ~ expired timestamp cutoff_time job ->
           jobs w' !! run_id = Some job) /\
        (forall run_id job,
           jobs w !! run_id = Some job -> end_time job = None ->
           jobs w' !! run_id = Some job) /\
        (forall run_id,
           jobs w !! run_id = None -> jobs w' !! run_id = None) /\
        active_connections w' = active_connections w /\
        trace w' = trace w /\
        ticks w' = S (ticks w)
  end.
Proof.
  unfold cleanup_old_jobs.
  destruct (int_to_float (max_age_hours * 3600)) as [age|]; [| reflexivity].
  cbv zeta. eexists. split; [reflexivity |].
  cbn [set_jobs tick jobs ticks active_connections trace].
  set (cutoff := PrimFloat.sub _ _).
  assert (forall run_id job,
            jobs w !! run_id = Some job ->
            ~ expired timestamp cutoff job ->
            fold_left (fun js run_id => delete run_id js)
              (List.filter (fun rj => is_old timestamp cutoff rj.2)
                 (map_to_list (jobs w))).*1 (jobs w) !! run_id
            = Some job) as Hkept.
  { intros run_id job Hjob Hnot. rewrite swept_lookup, Hjob.
    destruct (is_old timestamp cutoff job) eqn:Hold; [| reflexivity].
    exfalso. apply Hnot, is_old_expired. exact Hold. }
  split; [| split; [exact Hkept | split; [| split; [| repeat split]]]].
  - intros run_id job Hjob Hexp. rewrite swept_lookup, Hjob.
    apply is_old_expired in Hexp. rewrite Hexp. reflexivity.
  - intros run_id job Hjob Hend. apply Hkept; [exact Hjob |].
    intros (t & Ht & _). congruence.
  - intros run_id Hnone. rewrite swept_lookup, Hnone. reflexivity.
Qed.

End CleanupTheorems.

(** At second 90000 and a maximal age of 24 hours the cutoff is second
    3600: the job that ended at second 0 is removed, the other two are
    kept.  With a maximal age whose seconds exceed [2^63] the cutoff is
    far in the past and nothing is removed; with one beyond the range of
    a float the sweep raises. *)
Example cleanup_old_jobs_examples :
  let sweep := cleanup_old_jobs (fun _ => 90000) seconds in
  (fst (sweep 24 three_jobs) = Ok tt /\
   List.map (fun r =>
               bool_decide (is_Some (jobs (snd (sweep 24 three_jobs)) !! r)))
     ["old"; "recent"; "running"]
   = [false; true; true]) /\
  (fst (sweep 2562047788015216 three_jobs) = Ok tt /\
   List.map (fun r =>
               bool_decide
                 (is_Some
                    (jobs (snd (sweep 2562047788015216 three_jobs)) !! r)))
     ["old"; "recent"; "running"]
   = [true; true; true]) /\
  fst (sweep (2 ^ 1024) three_jobs)
  = Raise (OverflowError "int too large to convert to float").
Proof. vm_compute. repeat split. Qed.


(** ** Event broadcaster *)

(** X9. No operation of the broadcaster leaves a topic with an empty
    subscriber set behind: [connect], [disconnect] and
    [broadcast_to_graph] keep the subscriber map free of empty sets, a
    topic whose last channel leaves or fails being removed from it. *)
Theorem broadcaster_prunes_empty_topics (ws : WebSocket)
    (graph_id : string) (m : message) (w : World) :
  no_empty_topic w ->
  no_empty_topic (connect ws graph_id w) /\
  no_empty_topic (disconnect ws graph_id w) /\
  no_empty_topic (broadcast_to_graph graph_id m w) /\
  (subscribers w graph_id ⊆ {[ws]} ->
   active_connections (disconnect ws graph_id w) !! graph_id = None) /\
  (subscribers w graph_id ⊆ closed w ->
   active_connections (broadcast_to_graph graph_id m w) !! graph_id = None).
Proof.
  intros Hinv. unfold no_empty_topic in *.
  assert (forall (w' : World),
            (forall g, g <> graph_id ->
                       active_connections w' !! g = active_connections w !! g) ->
            (forall conns, active_connections w' !! graph_id = Some conns ->
                           conns <> ∅) ->
            forall g conns,
              active_connections w' !! g = Some conns -> conns <> ∅)
    as Hlift.
  { intros w' Hother Hthis g conns Hg.
    destruct (decide (g = graph_id)) as [-> | Hne]; [eauto |].
    rewrite Hother in Hg by exact Hne. eauto. }
  split; [| split; [| split; [| split]]].
  - apply Hlift.
    + intros g Hg. unfold connect. cbn [set_connections active_connections].
      rewrite lookup_insert_ne by congruence. reflexivity.
    + intros conns. unfold connect.
      cbn [set_connections active_connections]. rewrite lookup_insert_eq.
      intros Hc. inversion Hc; subst. set_solver.
  - unfold disconnect.
    destruct (active_connections w !! graph_id) as [conns0|] eqn:Ec;
      [| exact Hinv].
    case_bool_decide as He; apply Hlift;
      cbn [set_connections active_connections].
    + intros g Hg. rewrite lookup_delete_ne by congruence. reflexivity.
    + intros conns. rewrite lookup_delete_eq. discriminate.
    + intros g Hg. rewrite lookup_insert_ne by congruence. reflexivity.
    + intros conns. rewrite lookup_insert_eq. intros Hc.
      inversion Hc; subst. exact He.
  - destruct (broadcast_to_graph_effect graph_id m w)
      as (_ & _ & _ & _ & Hother & Hsub & _).
    apply Hlift; [exact Hother |].
    unfold broadcast_to_graph. cbn [observe active_connections closed].
    destruct (active_connections w !! graph_id) as [conns0|] eqn:Ec.
    + destruct (send_all (closed w) m (elements conns0)) as [disc sends].
      case_bool_decide as Hnone.
      * cbn [observe active_connections]. intros conns Hc.
        rewrite Ec in Hc. inversion Hc; subst. eauto.
      * case_bool_decide as He; cbn [set_connections active_connections].
        -- intros conns. rewrite lookup_delete_eq. discriminate.
        -- intros conns. rewrite lookup_insert_eq. intros Hc.
           inversion Hc; subst. exact He.
    + cbn [observe active_connections]. intros conns Hc.
      rewrite Ec in Hc. discriminate.
  - intros Hsub. unfold disconnect, subscribers in *.
    destruct (active_connections w !! graph_id) as [conns0|] eqn:Ec;
      [| exact Ec].
    cbn [default] in Hsub.
    rewrite bool_decide_eq_true_2 by set_solver.
    cbn [set_connections active_connections]. apply lookup_delete_eq.
  - intros Hsub.
    destruct (broadcast_to_graph_effect graph_id m w)
      as (_ & _ & _ & _ & _ & Hafter & _).
    cbv zeta in Hafter.
    destruct (active_connections (broadcast_to_graph graph_id m w)
                !! graph_id) as [conns|] eqn:Ec; [| reflexivity].
    exfalso.
    assert (conns = ∅) as ->.
    { unfold subscribers at 1 in Hafter. rewrite Ec in Hafter.
      cbn [default] in Hafter. set_solver. }
    revert Ec. unfold broadcast_to_graph.
    cbn [observe active_connections closed].
    destruct (active_connections w !! graph_id) as [conns0|] eqn:Ec0.
    + destruct (send_all (closed w) m (elements conns0)) as [disc sends].
      case_bool_decide as Hnone.
      * cbn [observe active_connections]. rewrite Ec0. intros Hc.
        inversion Hc; subst. exact (Hinv _ _ Ec0 eq_refl).
      * case_bool_decide as He; cbn [set_connections active_connections].
        -- rewrite lookup_delete_eq. discriminate.
        -- rewrite lookup_insert_eq. intros Hc. inversion Hc.
           congruence.
    + cbn [observe active_connections]. rewrite Ec0. discriminate.
Qed.

(** The only subscriber of a topic, its connection closed: when it
    disconnects, and when a message is sent to the topic, the topic is
    removed. *)
Lemma broadcaster_prunes_empty_topics_witness :
  no_empty_topic (connect 2 "g1" last_subscriber) /\
  no_empty_topic (disconnect 2 "g1" last_subscriber) /\
  no_empty_topic (broadcast_to_graph "g1" (Error "e") last_subscriber) /\
  active_connections (disconnect 2 "g1" last_subscriber) !! "g1" = None /\
  active_connections
    (broadcast_to_graph "g1" (Error "e") last_subscriber) !! "g1" = None /\
  active_connections (disconnect 2 "g1" last_subscriber) !! "g2"
  = Some {[1%positive]}.
Proof.
  assert (subscribers last_subscriber "g1" = {[2%positive]}) as Hsub.
  { unfold subscribers, last_subscriber. cbn [active_connections].
    rewrite lookup_insert_eq. reflexivity. }
  destruct (broadcaster_prunes_empty_topics 2 "g1" (Error "e")
              last_subscriber) as (H1 & H2 & H3 & H4 & H5).
  - intros g conns Hg. unfold last_subscriber in Hg.
    cbn [active_connections] in Hg.
    destruct (decide (g = "g1")) as [-> | Hne1].
    + rewrite lookup_insert_eq in Hg. inversion Hg; subst. set_solver.
    + rewrite lookup_insert_ne in Hg by congruence.
      destruct (decide (g = "g2")) as [-> | Hne2].
      * rewrite lookup_insert_eq in Hg. inversion Hg; subst. set_solver.
      * rewrite lookup_insert_ne, lookup_empty in Hg by congruence.
        discriminate.
  - split; [exact H1 |]. split; [exact H2 |]. split; [exact H3 |].
    split; [apply H4; rewrite Hsub; reflexivity |].
    split; [apply H5; rewrite Hsub; reflexivity |].
    vm_compute. reflexivity.
Defined.

(** X10. Subscribing a channel that was not subscribed and unsubscribing
    it again restores the subscriber map, the topic being removed again
    if the channel was its only one. *)
Theorem connect_disconnect_restores (ws : WebSocket) (graph_id : string)
    (w : World) :
  no_empty_topic w ->
  ws ∉ subscribers w graph_id ->
  disconnect ws graph_id (connect ws graph_id w) = w.
Proof.
  intros Hinv Hnew. unfold disconnect, connect.
  cbn [set_connections active_connections]. rewrite lookup_insert_eq.
  unfold subscribers in *.
  destruct w as [js conns cl tk tr]. cbn [active_connections] in *.
  unfold set_connections. cbn [jobs active_connections closed ticks trace].
  destruct (conns !! graph_id) as [old|] eqn:Ec; cbn [default] in *;
    unfold id in *.
  - assert (({[ws]} ∪ old) ∖ {[ws]} = old) as -> by set_solver.
    rewrite bool_decide_eq_false_2 by (exact (Hinv graph_id old Ec)).
    f_equal. rewrite insert_insert_eq. apply insert_id. exact Ec.
  - assert (({[ws]} ∪ ∅) ∖ {[ws]} = (∅ : gset positive)) as ->
      by set_solver.
    rewrite bool_decide_eq_true_2 by reflexivity.
    f_equal. rewrite delete_insert_eq. apply delete_id. exact Ec.
Qed.

Lemma connect_disconnect_restores_witness :
  disconnect 7 "g1" (connect 7 "g1" three_subscribers) = three_subscribers.
Proof.
  apply (connect_disconnect_restores 7 "g1" three_subscribers).
  - intros g conns Hg. unfold three_subscribers in Hg.
    cbn [active_connections] in Hg.
    destruct (decide (g = "g1")) as [-> | Hne].
    + rewrite lookup_insert_eq in Hg. inversion Hg; subst. set_solver.
    + rewrite lookup_insert_ne, lookup_empty in Hg by congruence.
      discriminate.
  - vm_compute. set_solver.
Defined.

(** ** Node registry *)

Lemma register_all_lookup (self : NodeRegistry)
    (calls : list (string * node_func)) (name : string) :
  _nodes (register_all self calls) !! name
  = match _nodes self !! name with
    | Some func => Some func
    | None => snd <$> List.find (fun c => bool_decide (c.1 = name)) calls
    end.
Proof.
  revert self. induction calls as [|[n f] calls IH]; intros self.
  - cbn. destruct (_nodes self !! name); reflexivity.
  - unfold register_all in *. cbn [fold_left List.find fst snd].
    rewrite IH. unfold register_node.
    destruct (_nodes self !! n) as [g|] eqn:Hn; cbn [snd _nodes].
    + destruct (_nodes self !! name) as [h|] eqn:Hname; [reflexivity |].
      case_bool_decide as Heq; [congruence | reflexivity].
    + case_bool_decide as Heq.
      * subst n. rewrite lookup_insert_eq, Hn. reflexivity.
      * rewrite lookup_insert_ne by congruence.
        destruct (_nodes self !! name); reflexivity.
Qed.

(** X11. A batch of registrations on a registry keeps every function
    the registry already held and, for each new name, the function of the
    first registration of the batch under that name: later registrations
    of a name never replace an earlier one. *)
Theorem register_all_first_wins (self : NodeRegistry)
    (calls : list (string * node_func)) (name : string) :
  _nodes (register_all self calls) !! name
  = match _nodes self !! name with
    | Some func => Some func
    | None => snd <$> List.find (fun c => bool_decide (c.1 = name)) calls
    end.
Proof. exact (register_all_lookup self calls name). Qed.

(** X12. The three queries of the registry agree: [has_node] answers
    true exactly for the names [get_node] finds, and these are exactly
    the names [list_nodes] lists, each once. *)
Theorem registry_queries_agree (self : NodeRegistry) (name : string) :
  (has_node self name = true <-> exists func, get_node self name = Ok func) /\
  (has_node self name = true <-> name ∈ list_nodes self) /\
  NoDup (list_nodes self).
Proof.
  unfold has_node, get_node, list_nodes. split; [| split].
  - rewrite bool_decide_eq_true. split.
    + intros [f Hf]. rewrite Hf. eauto.
    + intros [f Hf]. destruct (_nodes self !! name); [eauto | discriminate].
  - rewrite bool_decide_eq_true, list_elem_of_fmap. split.
    + intros [f Hf]. exists (name, f). split; [reflexivity |].
      apply elem_of_map_to_list. exact Hf.
    + intros ([k f] & -> & Hin). apply elem_of_map_to_list in Hin. eauto.
  - apply NoDup_fst_map_to_list.
Qed.

(** * The nodes of the summarization workflow *)

(** ** What the nodes pass to [copy_with_updates] *)

Lemma copy_chunks_only (s : WorkflowState) (c : list string) :
  copy_with_updates s (kwargs [("chunks", VList c)])
  = Ok (mkState (text s) (max_length s) (chunk_size s) c
          (chunk_summaries s) (merged_summary s) (refined_summary s)
          (current_length s) (refinement_iterations s)
          (max_refinement_iterations s) (execution_metadata s)).
Proof. vm_compute. reflexivity. Qed.

Lemma copy_chunks (s : WorkflowState) (c : list string)
    (md : gmap string meta) :
  copy_with_updates s
    (kwargs [("chunks", VList c); ("execution_metadata", VDict md)])
  = Ok (mkState (text s) (max_length s) (chunk_size s) c
          (chunk_summaries s) (merged_summary s) (refined_summary s)
          (current_length s) (refinement_iterations s)
          (max_refinement_iterations s) md).
Proof. vm_compute. reflexivity. Qed.

Lemma copy_summaries_only (s : WorkflowState) (c : list string) :
  copy_with_updates s (kwargs [("chunk_summaries", VList c)])
  = Ok (mkState (text s) (max_length s) (chunk_size s) (chunks s)
          c (merged_summary s) (refined_summary s)
          (current_length s) (refinement_iterations s)
          (max_refinement_iterations s) (execution_metadata s)).
Proof. vm_compute. reflexivity. Qed.

Lemma copy_summaries (s : WorkflowState) (c : list string)
    (md : gmap string meta) :
  copy_with_updates s
    (kwargs [("chunk_summaries", VList c); ("execution_metadata", VDict md)])
  = Ok (mkState (text s) (max_length s) (chunk_size s) (chunks s)
          c (merged_summary s) (refined_summary s)
          (current_length s) (refinement_iterations s)
          (max_refinement_iterations s) md).
Proof. vm_compute. reflexivity. Qed.

Lemma copy_merged_empty (s : WorkflowState) :
  copy_with_updates s
    (kwargs [("merged_summary", VStr ""); ("current_length", VInt 0)])
  = Ok (mkState (text s) (max_length s) (chunk_size s) (chunks s)
          (chunk_summaries s) "" (refined_summary s)
          0 (refinement_iterations s)
          (max_refinement_iterations s) (execution_metadata s)).
Proof. vm_compute. reflexivity. Qed.

Lemma copy_merged (s : WorkflowState) (m : string) (n : Z)
    (md : gmap string meta) :
  copy_with_updates s
    (kwargs [ ("merged_summary", VStr m); ("current_length", VInt n);
              ("refined_summary", VStr m);
              ("execution_metadata", VDict md) ])
  = Ok (mkState (text s) (max_length s) (chunk_size s) (chunks s)
          (chunk_summaries s) m m n (refinement_iterations s)
          (max_refinement_iterations s) md).
Proof. vm_compute. reflexivity. Qed.

Lemma copy_refined (s : WorkflowState) (r : string) (n it : Z)
    (md : gmap string meta) :
  copy_with_updates s
    (kwargs [ ("refined_summary", VStr r); ("current_length", VInt n);
              ("refinement_iterations", VInt it);
              ("execution_metadata", VDict md) ])
  = Ok (mkState (text s) (max_length s) (chunk_size s) (chunks s)
          (chunk_summaries s) (merged_summary s) r n it
          (max_refinement_iterations s) md).
Proof. vm_compute. reflexivity. Qed.

(** ** Lengths of strings *)

Lemma len_app (a b : string) : len (a +:+ b) = len a + len b.
Proof.
  unfold len. induction a as [|c a IH].
  - change ("" +:+ b) with b. cbn [String.length]. lia.
  - change (String c a +:+ b) with (String c (a +:+ b)).
    cbn [String.length]. lia.
Qed.

Lemma len_nonneg (s : string) : 0 <= len s.
Proof. unfold len. lia. Qed.

Lemma len_lstrip (s : string) : len (lstrip s) <= len s.
Proof.
  unfold len. induction s as [|c s IH]; cbn [lstrip]; [lia |].
  destruct (isspace c); cbn [String.length] in *; lia.
Qed.

Lemma len_rstrip_with (p : ascii -> bool) (s : string) :
  len (rstrip_with p s) <= len s.
Proof.
  unfold len. induction s as [|c s IH]; cbn [rstrip_with]; [lia |].
  destruct (rstrip_with p s) as [|c' r'].
  - destruct (p c); cbn [String.length] in *; lia.
  - cbn [String.length] in *. lia.
Qed.

Lemma len_strip (s : string) : len (strip s) <= len s.
Proof.
  unfold strip. pose proof (len_rstrip_with isspace (lstrip s)).
  pose proof (len_lstrip s). lia.
Qed.

Lemma len_concat_cost (g : list string) :
  g <> [] -> len (String.concat " " g) = group_cost g - 1.
Proof.
  induction g as [|w g IH]; [congruence |]. intros _.
  destruct g as [|w' g].
  - cbn [String.concat group_cost]. lia.
  - change (String.concat " " (w :: w' :: g))
      with (w +:+ " " +:+ String.concat " " (w' :: g)).
    rewrite !len_app, IH by discriminate.
    cbn [group_cost]. change (len " ") with 1. lia.
Qed.

Lemma group_cost_app (g h : list string) :
  group_cost (g ++ h) = group_cost g + group_cost h.
Proof. induction g as [|w g IH]; cbn [app group_cost]; lia. Qed.

(** ** [split_text] *)

Lemma split_fold_invariant (chunk_size : Z) (words : list string) :
  forall chunks cur clen groups,
    chunks = List.map (String.concat " ") groups ->
    Forall (fits chunk_size) groups ->
    clen = group_cost cur ->
    (cur = [] \/ length cur = 1%nat \/ group_cost cur <= chunk_size) ->
    exists groups' cur',
      fold_left (split_step chunk_size) words (chunks, cur, clen)
      = (List.map (String.concat " ") groups', cur', group_cost cur') /\
      Forall (fits chunk_size) groups' /\
      (cur' = [] \/ length cur' = 1%nat \/ group_cost cur' <= chunk_size) /\
      concat groups' ++ cur' = concat groups ++ cur ++ words.
Proof.
  induction words as [|word words IH];
    intros chunks cur clen groups Hch Hfit Hlen Hcur.
  - exists groups, cur. cbn [fold_left]. subst.
    rewrite app_nil_r. auto.
  - cbn [fold_left]. unfold split_step at 2.
    destruct ((chunk_size <? clen + (len word + 1))
              && negb (bool_decide (cur = []))) eqn:Hcond.
    + apply andb_prop in Hcond as [Hbig Hne].
      apply negb_true_iff, bool_decide_eq_false_1 in Hne.
      destruct (IH (chunks ++ [String.concat " " cur]) [word]
                  (len word + 1) (groups ++ [cur]))
        as (groups' & cur' & Hrun & Hfit' & Hcur' & Hcat).
      * subst chunks. rewrite List.map_app. reflexivity.
      * apply Forall_app. split; [exact Hfit |].
        constructor; [| constructor]. split; [exact Hne |].
        destruct Hcur as [Hc | [Hc | Hc]]; [contradiction | auto |].
        right. rewrite len_concat_cost by exact Hne. lia.
      * cbn [group_cost]. lia.
      * right. left. reflexivity.
      * exists groups', cur'. rewrite Hrun.
        split; [reflexivity |]. split; [exact Hfit' |].
        split; [exact Hcur' |].
        rewrite Hcat, concat_app. cbn [concat].
        rewrite app_nil_r, <- !app_assoc. reflexivity.
    + destruct (IH chunks (cur ++ [word]) (clen + (len word + 1)) groups)
        as (groups' & cur' & Hrun & Hfit' & Hcur' & Hcat);
        [exact Hch | exact Hfit | | |].
      * rewrite group_cost_app. cbn [group_cost]. lia.
      * apply andb_false_iff in Hcond as [Hsmall | Hempty].
        -- right. right. rewrite group_cost_app. cbn [group_cost].
           apply Z.ltb_ge in Hsmall. lia.
        -- apply negb_false_iff, bool_decide_eq_true_1 in Hempty.
           subst cur. right. left. reflexivity.
      * exists groups', cur'. rewrite Hrun.
        split; [reflexivity |]. split; [exact Hfit' |].
        split; [exact Hcur' |].
        rewrite Hcat, <- !app_assoc. reflexivity.
Qed.

Lemma split_text_groups (state : WorkflowState) :
  exists groups,
    split_text state
    = Ok (mkState (text state) (max_length state) (chunk_size state)
            (List.map (String.concat " ") groups)
            (chunk_summaries state) (merged_summary state)
            (refined_summary state) (current_length state)
            (refinement_iterations state) (max_refinement_iterations state)
            (if String.eqb (strip (text state)) ""
             then execution_metadata state
             else <["chunks_created" := MInt (Z.of_nat (length groups))]>
                    (execution_metadata state))) /\
    concat groups = split (strip (text state)) /\
    Forall (fits (chunk_size state)) groups /\
    (strip (text state) = "" -> groups = []).
Proof.
  unfold split_text.
  destruct (String.eqb (strip (text state)) "") eqn:Hempty.
  - exists []. rewrite copy_chunks_only.
    apply String.eqb_eq in Hempty. rewrite Hempty.
    split; [reflexivity |]. split; [reflexivity |].
    split; [constructor | reflexivity].
  - destruct (split_fold_invariant (chunk_size state)
                (split (strip (text state))) [] [] 0 [])
      as (groups & cur & Hrun & Hfit & Hcur & Hcat);
      [reflexivity | constructor | reflexivity | left; reflexivity |].
    rewrite Hrun. cbn [concat app] in Hcat.
    apply String.eqb_neq in Hempty.
    case_bool_decide as Hc.
    + subst cur. rewrite app_nil_r in Hcat.
      exists groups. rewrite copy_chunks, length_map.
      split; [reflexivity |]. split; [exact Hcat |].
      split; [exact Hfit | contradiction].
    + exists (groups ++ [cur]). rewrite copy_chunks.
      rewrite List.map_app. cbn [List.map]. rewrite !length_app, length_map.
      cbn [length]. split; [reflexivity |].
      split; [rewrite concat_app; cbn [concat];
              rewrite app_nil_r; exact Hcat |].
      split; [| contradiction].
      apply Forall_app. split; [exact Hfit |].
      constructor; [| constructor]. split; [exact Hc |].
      destruct Hcur as [Hk | [Hk | Hk]]; [contradiction | auto |].
      right. rewrite len_concat_cost by exact Hc. lia.
Qed.

(** X13. [split_text] never raises and changes the chunks and the
    metadata only.  The chunks are the words of the text, all of them
    and in order, cut into groups and each group joined by single
    spaces; no chunk is empty, and a chunk of more than one word is
    shorter than [chunk_size].  A text of white space only gives no
    chunk and leaves the metadata as they are; any other text has the
    number of chunks recorded under [chunks_created]. *)
Theorem split_text_chunks (state : WorkflowState) :
  exists groups,
    split_text state
    = Ok (mkState (text state) (max_length state) (chunk_size state)
            (List.map (String.concat " ") groups)
            (chunk_summaries state) (merged_summary state)
            (refined_summary state) (current_length state)
            (refinement_iterations state) (max_refinement_iterations state)
            (if String.eqb (strip (text state)) ""
             then execution_metadata state
             else <["chunks_created" := MInt (Z.of_nat (length groups))]>
                    (execution_metadata state))) /\
    concat groups = split (strip (text state)) /\
    Forall (fits (chunk_size state)) groups /\
    (strip (text state) = "" -> groups = []).
Proof. exact (split_text_groups state). Qed.

Example split_text_example :
  split_text (mkState "  one two three four  " 9 8 [] [] "" "" 0 0 5 ∅)
  = Ok (mkState "  one two three four  " 9 8 ["one two"; "three"; "four"]
          [] "" "" 0 0 5 (<["chunks_created" := MInt 3]> ∅)).
Proof. vm_compute. reflexivity. Qed.

(** ** [summarize_chunks] *)

Section SummarizeTheorems.

Variable _frequency_based_summarize : string -> string.

(** X14. [summarize_chunks] never raises and changes the summaries and
    the metadata only: there is one summary for each chunk, in the order
    of the chunks, each the summary of its chunk.  With no chunk the
    metadata stay as they are; otherwise they record the number of
    summaries and the method. *)
Theorem summarize_chunks_one_per_chunk (state : WorkflowState) :
  summarize_chunks _frequency_based_summarize state
  = Ok (mkState (text state) (max_length state) (chunk_size state)
          (chunks state)
          (List.map _frequency_based_summarize (chunks state))
          (merged_summary state) (refined_summary state)
          (current_length state) (refinement_iterations state)
          (max_refinement_iterations state)
          (if bool_decide (chunks state = []) then execution_metadata state
           else <["summarization_method" := MStr "frequency_based_scoring"]>
                  (<["summaries_created" :=
                       MInt (Z.of_nat (length (chunks state)))]>
                     (execution_metadata state)))).
Proof.
  unfold summarize_chunks. case_bool_decide as Hc.
  - rewrite copy_summaries_only, Hc. reflexivity.
  - rewrite copy_summaries, length_map. reflexivity.
Qed.

End SummarizeTheorems.

(** ** [merge_summaries] *)

Lemma filter_all_false {A : Type} (p : A -> bool) (l : list A) :
  Forall (fun x => p x = false) l -> List.filter p l = [].
Proof.
  induction 1 as [|x l Hx _ IH]; [reflexivity |].
  cbn [List.filter]. rewrite Hx. exact IH.
Qed.

(** X15. [merge_summaries] never raises and leaves [current_length]
    equal to the length of [merged_summary].  With no summary the merged
    summary is empty and the refined summary is kept; otherwise the
    merged text, at least one character long, is written to both
    [merged_summary] and [refined_summary] and its length is recorded in
    the metadata; summaries of white space only merge into a single
    dot. *)
Theorem merge_summaries_lengths (state : WorkflowState) :
  exists merged refined md,
    merge_summaries state
    = Ok (mkState (text state) (max_length state) (chunk_size state)
            (chunks state) (chunk_summaries state) merged refined
            (len merged) (refinement_iterations state)
            (max_refinement_iterations state) md) /\
    (chunk_summaries state = [] ->
     merged = "" /\ refined = refined_summary state /\
     md = execution_metadata state) /\
    (chunk_summaries state <> [] ->
     merged = merge_text (chunk_summaries state) /\ refined = merged /\
     1 <= len merged /\
     md = <["merged_length" := MInt (len merged)]>
            (execution_metadata state)) /\
    (chunk_summaries state <> [] ->
     Forall (fun s => strip s = "") (chunk_summaries state) ->
     merged = ".").
Proof.
  unfold merge_summaries. case_bool_decide as Hs.
  - exists "", (refined_summary state), (execution_metadata state).
    rewrite copy_merged_empty.
    split; [reflexivity |]. split; [auto |].
    split; intros Hne; contradiction.
  - exists (merge_text (chunk_summaries state)),
      (merge_text (chunk_summaries state)),
      (<["merged_length" := MInt (len (merge_text (chunk_summaries state)))]>
         (execution_metadata state)).
    rewrite copy_merged.
    split; [reflexivity |]. split; [intros He; contradiction |].
    split.
    + intros _. split; [reflexivity |]. split; [reflexivity |].
      split; [| reflexivity].
      unfold merge_text. rewrite len_app. change (len ".") with 1.
      pose proof (len_nonneg
                    (String.concat ". "
                       (List.map (fun s => rstrip_with is_dot (strip s))
                          (List.filter
                             (fun s => negb (String.eqb (strip s) ""))
                             (chunk_summaries state))))).
      lia.
    + intros _ Hblank. unfold merge_text.
      rewrite filter_all_false; [reflexivity |].
      eapply Forall_impl; [exact Hblank |].
      intros s Hb. cbn beta in Hb. rewrite Hb. reflexivity.
Qed.

(** ** [refine_summary] *)

Lemma len_zero (s : string) : len s = 0 -> s = "".
Proof.
  unfold len. destruct s as [|c s]; [reflexivity |].
  cbn [String.length]. lia.
Qed.

Lemma refine_fill_bound (max_len : Z) (parts : list string) :
  forall refined,
    (refined = "" \/ len refined + 1 <= max_len) ->
    refine_fill max_len refined parts = "" \/
    len (refine_fill max_len refined parts) + 1 <= max_len.
Proof.
  induction parts as [|p parts IH]; intros refined Href; [exact Href |].
  cbn [refine_fill].
  destruct (Z.leb_spec (len refined + len p + 2) max_len) as [Hfit | Hno];
    [| exact Href].
  apply IH. right.
  pose proof (len_strip (refined +:+ " " +:+ p)) as Hs.
  rewrite !len_app in Hs. change (len " ") with 1 in Hs. lia.
Qed.

Lemma refine_summary_result (state : WorkflowState) :
  exists refined,
    refined
    = refine_fill (max_length state) ""
        (refine_parts
           (replace_dots (str_or (merged_summary state) (text state)))) /\
    refine_summary state
    = Ok (mkState (text state) (max_length state) (chunk_size state)
            (chunks state) (chunk_summaries state) (merged_summary state)
            (refined +:+ ".") (len (refined +:+ "."))
            (refinement_iterations state + 1)
            (max_refinement_iterations state)
            (<["refinement_" +:+ str_int (refinement_iterations state + 1)
               +:+ "_reduction" :=
                 MInt (len (replace_dots
                              (str_or (merged_summary state) (text state)))
                       - len (refined +:+ "."))]>
               (<["refinement_" +:+ str_int (refinement_iterations state + 1)
                  +:+ "_length" := MInt (len (refined +:+ "."))]>
                  (execution_metadata state)))) /\
    1 <= len (refined +:+ ".") <= Z.max 1 (max_length state) /\
    (refined = "" \/ len (refined +:+ ".") <= max_length state).
Proof.
  eexists. split; [reflexivity |].
  set (refined := refine_fill _ _ _).
  assert (refined = "" \/ len refined + 1 <= max_length state) as Hb
    by (apply refine_fill_bound; left; reflexivity).
  assert (len (refined +:+ ".") = len refined + 1) as Hlen
    by (rewrite len_app; reflexivity).
  pose proof (len_nonneg refined) as Hpos.
  split; [| split].
  - unfold refine_summary. fold refined.
    assert ((if max_length state <? len refined
             then rsplit_head (slice_to (max_length state) refined)
             else refined) = refined) as ->.
    { destruct (Z.ltb_spec (max_length state) (len refined)) as [Hgt | Hle];
        [| reflexivity].
      destruct Hb as [Hb | Hb]; [| lia]. rewrite Hb in *.
      unfold slice_to.
      destruct (0 <=? max_length state);
        [destruct (Z.to_nat (max_length state))
        | destruct (Z.to_nat (len "" + max_length state))]; reflexivity. }
    rewrite copy_refined. reflexivity.
  - rewrite Hlen. destruct Hb as [Hb | Hb].
    + rewrite Hb. change (len "") with 0. lia.
    + lia.
  - rewrite Hlen. destruct Hb as [Hb | Hb]; [left; exact Hb | right; lia].
Qed.

(** X16. [refine_summary] never raises.  The summary it writes is the
    sentences it kept, followed by a dot; the cut at [max_length] never
    shortens it, since the sentences are only added while they fit.  The
    summary is at most [max_length] characters long, unless no sentence
    was kept, when it is the dot alone.  [current_length] is the length
    of the summary, the count of refinements grows by one, and the
    metadata record the length and the reduction under the keys of this
    refinement; the other fields are unchanged. *)
Theorem refine_summary_bound (state : WorkflowState) :
  exists refined,
    refined
    = refine_fill (max_length state) ""
        (refine_parts
           (replace_dots (str_or (merged_summary state) (text state)))) /\
    refine_summary state
    = Ok (mkState (text state) (max_length state) (chunk_size state)
            (chunks state) (chunk_summaries state) (merged_summary state)
            (refined +:+ ".") (len (refined +:+ "."))
            (refinement_iterations state + 1)
            (max_refinement_iterations state)
            (<["refinement_" +:+ str_int (refinement_iterations state + 1)
               +:+ "_reduction" :=
                 MInt (len (replace_dots
                              (str_or (merged_summary state) (text state)))
                       - len (refined +:+ "."))]>
               (<["refinement_" +:+ str_int (refinement_iterations state + 1)
                  +:+ "_length" := MInt (len (refined +:+ "."))]>
                  (execution_metadata state)))) /\
    1 <= len (refined +:+ ".") <= Z.max 1 (max_length state) /\
    (refined = "" \/ len (refined +:+ ".") <= max_length state).
Proof. exact (refine_summary_result state). Qed.

(** ** [create_summarization_graph] *)

Lemma find_named (calls : list (string * node_func)) (name : string) :
  name ∈ calls.*1 ->
  is_Some (List.find (fun c => bool_decide (c.1 = name)) calls).
Proof.
  induction calls as [|[n f] calls IH]; intros Hin.
  - apply elem_of_nil in Hin. contradiction.
  - cbn [List.find fst]. case_bool_decide as Heq; [eauto |].
    apply IH. cbn in Hin. apply elem_of_cons in Hin as [Hin | Hin];
      [congruence | exact Hin].
Qed.

Lemma register_all_registered (calls : list (string * node_func))
    (registry : NodeRegistry) (name : string) :
  name ∈ calls.*1 ->
  is_Some (_nodes (register_all registry calls) !! name).
Proof.
  intros Hin. rewrite register_all_lookup.
  destruct (_nodes registry !! name); [eauto |].
  destruct (find_named calls name Hin) as [c Hc]. rewrite Hc. cbn. eauto.
Qed.

Lemma register_all_cons (registry : NodeRegistry) (n : string)
    (f : node_func) (calls : list (string * node_func)) :
  _nodes registry !! n = None ->
  register_all registry ((n, f) :: calls)
  = register_all (mkRegistry (<[n := f]> (_nodes registry))) calls.
Proof.
  intros Hn. unfold register_all. cbn [fold_left fst snd].
  unfold register_node at 2. rewrite Hn. reflexivity.
Qed.

Lemma register_each_fresh (calls : list (string * node_func)) :
  forall registry,
    NoDup calls.*1 ->
    (forall m, m ∈ calls.*1 -> _nodes registry !! m = None) ->
    register_each registry calls = (Ok tt, register_all registry calls).
Proof.
  induction calls as [|[n f] calls IH]; intros registry Hnd Hfresh;
    [reflexivity |].
  cbn in Hnd. apply NoDup_cons in Hnd as [Hn Hnd].
  assert (_nodes registry !! n = None) as Hnone
    by (apply Hfresh; cbn; apply elem_of_cons; left; reflexivity).
  rewrite register_all_cons by exact Hnone.
  cbn [register_each]. unfold register_node. rewrite Hnone.
  apply IH; [exact Hnd |].
  intros m Hm. cbn [_nodes].
  rewrite lookup_insert_ne by (intros ->; contradiction).
  apply Hfresh. cbn. apply elem_of_cons. right. exact Hm.
Qed.

Lemma register_each_stops (pre : list (string * node_func))
    (c : string * node_func) (post : list (string * node_func)) :
  forall registry,
    NoDup pre.*1 ->
    (forall m, m ∈ pre.*1 -> _nodes registry !! m = None) ->
    is_Some (_nodes registry !! c.1) ->
    register_each registry (pre ++ c :: post)
    = (Raise (ValueError ("Node '" +:+ c.1 +:+ "' is already registered")),
       register_all registry pre).
Proof.
  induction pre as [|[n f] pre IH]; intros registry Hnd Hfresh [g Hg].
  - destruct c as [m h]. cbn [app register_each fst] in *.
    unfold register_node. rewrite Hg. reflexivity.
  - cbn in Hnd. apply NoDup_cons in Hnd as [Hn Hnd].
    assert (_nodes registry !! n = None) as Hnone
      by (apply Hfresh; cbn; apply elem_of_cons; left; reflexivity).
    rewrite register_all_cons by exact Hnone.
    cbn [app register_each]. unfold register_node at 1. rewrite Hnone.
    apply IH; [exact Hnd | |].
    + intros m Hm. cbn [_nodes].
      rewrite lookup_insert_ne by (intros ->; contradiction).
      apply Hfresh. cbn. apply elem_of_cons. right. exact Hm.
    + cbn [_nodes]. destruct (decide (n = c.1)) as [<- | Hne].
      * rewrite lookup_insert_eq. eauto.
      * rewrite lookup_insert_ne by exact Hne. eauto.
Qed.

Lemma fresh_lookup (registry : NodeRegistry) (name : string) :
  has_node registry name = false -> _nodes registry !! name = None.
Proof.
  unfold has_node. intros H. apply bool_decide_eq_false_1 in H.
  destruct (_nodes registry !! name); [exfalso; apply H; eauto | reflexivity].
Qed.

Section WorkflowTheorems.

Variable _frequency_based_summarize : string -> string.
Variable validation_text : string -> string.

Abbreviation shipped_nodes :=
  (summarization_nodes _frequency_based_summarize validation_text).
Abbreviation create :=
  (create_summarization_graph _frequency_based_summarize validation_text).

Lemma shipped_names :
  shipped_nodes.*1 = nodes summarization_definition.
Proof. reflexivity. Qed.

Lemma shipped_names_NoDup : NoDup (nodes summarization_definition).
Proof. apply (bool_decide_unpack _). vm_compute. exact I. Qed.

Lemma shipped_definition_valid :
  validate_structure summarization_definition = Ok tt.
Proof. vm_compute. reflexivity. Qed.

Lemma create_on_fresh (reg : NodeRegistry) :
  (forall m, m ∈ nodes summarization_definition ->
             has_node reg m = false) ->
  create reg
  = (Ok (mkGraph summarization_definition
           (register_all reg shipped_nodes)),
     register_all reg shipped_nodes) /\
  constructed (mkGraph summarization_definition
                 (register_all reg shipped_nodes)).
Proof.
  intros Hfresh.
  assert (WorkflowGraph_init summarization_definition
            (register_all reg shipped_nodes)
          = Ok (mkGraph summarization_definition
                  (register_all reg shipped_nodes))) as Hinit.
  { unfold WorkflowGraph_init. rewrite shipped_definition_valid.
    cbn [bind].
    destruct (find_unregistered summarization_definition
                (register_all reg shipped_nodes))
      as [(x & _ & Hin & Hx) | [-> _]]; [| reflexivity].
    exfalso. rewrite <- shipped_names in Hin.
    destruct (register_all_registered shipped_nodes reg x Hin)
      as [g Hg].
    congruence. }
  split; [| exact Hinit].
  unfold create_summarization_graph.
  rewrite register_each_fresh.
  - rewrite Hinit. reflexivity.
  - rewrite shipped_names. exact shipped_names_NoDup.
  - intros m Hm. apply fresh_lookup, Hfresh.
    rewrite <- shipped_names. exact Hm.
Qed.

(** X17. On a registry that holds none of the five node names,
    [create_summarization_graph] registers the five nodes and returns the
    graph of the shipped definition over that registry, which the
    constructor accepts; the functions registered under other names are
    untouched.  A second call on the same registry raises the error of a
    duplicate registration at the first name and leaves the registry as
    it is. *)
Theorem create_summarization_graph_fresh (reg : NodeRegistry) :
  (forall m, m ∈ nodes summarization_definition ->
             has_node reg m = false) ->
  exists g,
    create reg = (Ok g, registry g) /\
    definition g = summarization_definition /\
    registry g = register_all reg shipped_nodes /\
    constructed g /\
    (forall name, name ∈ nodes summarization_definition ->
                  has_node (registry g) name = true) /\
    (forall name, name ∉ nodes summarization_definition ->
                  get_node (registry g) name = get_node reg name) /\
    create (registry g)
    = (Raise (ValueError "Node 'split_text' is already registered"),
       registry g).
Proof.
  intros Hfresh. destruct (create_on_fresh reg Hfresh) as [Hrun Hc].
  eexists. split; [exact Hrun |]. cbn [definition registry].
  split; [reflexivity |]. split; [reflexivity |]. split; [exact Hc |].
  split; [| split].
  - intros name Hin. unfold has_node. apply bool_decide_eq_true_2.
    apply register_all_registered. rewrite shipped_names. exact Hin.
  - intros name Hout. unfold get_node.
    rewrite register_all_lookup.
    destruct (_nodes reg !! name) as [f|] eqn:Hf; [reflexivity |].
    destruct (List.find _ shipped_nodes) as [[n f]|] eqn:Hfind;
      [| reflexivity].
    exfalso. apply find_some in Hfind as [Hin Hn].
    apply bool_decide_eq_true_1 in Hn. cbn [fst] in Hn. subst n.
    apply Hout. rewrite <- shipped_names.
    apply list_elem_of_fmap. exists (name, f).
    split; [reflexivity | apply list_elem_of_In; exact Hin].
  - unfold create_summarization_graph.
    assert (register_each (register_all reg shipped_nodes) shipped_nodes
            = (Raise (ValueError "Node 'split_text' is already registered"),
               register_all reg shipped_nodes)) as ->; [| reflexivity].
    apply (register_each_stops []
             ("split_text", as_node validation_text split_text)
             (tail shipped_nodes)).
    + constructor.
    + intros m Hm. apply elem_of_nil in Hm. contradiction.
    + apply register_all_registered. rewrite shipped_names.
      apply elem_of_cons. left. reflexivity.
Qed.

End WorkflowTheorems.

(** On an empty registry, with the identity for the two functions the
    workflow is stated over. *)
Lemma create_summarization_graph_fresh_witness :
  exists g,
    create_summarization_graph (fun s => s) (fun s => s) NodeRegistry_init
    = (Ok g, registry g) /\
    definition g = summarization_definition /\
    registry g
    = register_all NodeRegistry_init
        (summarization_nodes (fun s => s) (fun s => s)) /\
    constructed g /\
    (forall name, name ∈ nodes summarization_definition ->
                  has_node (registry g) name = true) /\
    (forall name, name ∉ nodes summarization_definition ->
                  get_node (registry g) name
                  = get_node NodeRegistry_init name) /\
    create_summarization_graph (fun s => s) (fun s => s) (registry g)
    = (Raise (ValueError "Node 'split_text' is already registered"),
       registry g).
Proof.
  apply (create_summarization_graph_fresh (fun s => s) (fun s => s)
           NodeRegistry_init).
  intros m _. reflexivity.
Defined.

Section DuplicateTheorems.

Variable _frequency_based_summarize : string -> string.
Variable validation_text : string -> string.

Abbreviation shipped_nodes :=
  (summarization_nodes _frequency_based_summarize validation_text).
Abbreviation create :=
  (create_summarization_graph _frequency_based_summarize validation_text).

(** X18. On a registry that already holds one of the five node names,
    [create_summarization_graph] raises the error of a duplicate
    registration for the first such name [n], in the order of the calls,
    and builds no graph.  The registrations made before [n] are not
    undone: the registry is left with the names [pre] that precede [n]
    registered as well. *)
Theorem create_summarization_graph_duplicate (reg : NodeRegistry)
    (pre post : list string) (n : string) :
  nodes summarization_definition = pre ++ n :: post ->
  (forall m, m ∈ pre -> has_node reg m = false) ->
  has_node reg n = true ->
  create reg
  = (Raise (ValueError ("Node '" +:+ n +:+ "' is already registered")),
     register_all reg (take (length pre) shipped_nodes)) /\
  (forall m, m ∈ pre ->
     has_node (register_all reg (take (length pre) shipped_nodes)) m
     = true).
Proof.
  intros Hsplit Hfresh Hn.
  pose proof (shipped_names _frequency_based_summarize validation_text)
    as Hnames.
  rewrite Hsplit in Hnames.
  apply fmap_app_inv in Hnames as (l1 & l2 & Hpre & Hrest & Hcalls).
  symmetry in Hrest.
  apply fmap_cons_inv in Hrest as (c & l2' & Hc & _ & ->).
  rewrite Hcalls, take_app_length'
    by (rewrite Hpre, length_fmap; reflexivity).
  split.
  - unfold create_summarization_graph. rewrite Hcalls.
    rewrite register_each_stops.
    + rewrite Hc. reflexivity.
    + rewrite <- Hpre. pose proof shipped_names_NoDup as Hnd.
      rewrite Hsplit in Hnd. apply NoDup_app in Hnd as [Hnd _]. exact Hnd.
    + intros m Hm. apply fresh_lookup, Hfresh. rewrite Hpre. exact Hm.
    + rewrite <- Hc. unfold has_node in Hn.
      apply bool_decide_eq_true_1 in Hn. exact Hn.
  - intros m Hm. unfold has_node. apply bool_decide_eq_true_2.
    apply register_all_registered. rewrite <- Hpre. exact Hm.
Qed.

End DuplicateTheorems.

(** A registry that holds a node under the third name of the workflow:
    the call registers the first two and fails at the third. *)
Lemma create_summarization_graph_duplicate_witness :
  create_summarization_graph (fun s => s) (fun s => s)
    (register_all NodeRegistry_init [("merge_summaries", record_refinement)])
  = (Raise (ValueError ("Node '" +:+ "merge_summaries"
                        +:+ "' is already registered")),
     register_all
       (register_all NodeRegistry_init
          [("merge_summaries", record_refinement)])
       (take (length ["split_text"; "summarize_chunks"])
          (summarization_nodes (fun s => s) (fun s => s)))) /\
  (forall m, m ∈ ["split_text"; "summarize_chunks"] ->
     has_node
       (register_all
          (register_all NodeRegistry_init
             [("merge_summaries", record_refinement)])
          (take (length ["split_text"; "summarize_chunks"])
             (summarization_nodes (fun s => s) (fun s => s)))) m
     = true).
Proof.
  apply (create_summarization_graph_duplicate (fun s => s) (fun s => s)
           (register_all NodeRegistry_init
              [("merge_summaries", record_refinement)])
           ["split_text"; "summarize_chunks"]
           ["refine_summary"; "check_length_loop"] "merge_summaries").
  - reflexivity.
  - intros m Hm.
    apply elem_of_cons in Hm as [-> | Hm]; [vm_compute; reflexivity |].
    apply elem_of_cons in Hm as [-> | Hm]; [vm_compute; reflexivity |].
    apply elem_of_nil in Hm. contradiction.
  - vm_compute. reflexivity.
Defined.

(** ** The shipped workflow, run by the engine *)

Lemma length_rounds {A : Type} (j : nat) (l : list A) :
  length (concat (replicate j l)) = (j * length l)%nat.
Proof.
  induction j as [|j IH]; [reflexivity |].
  cbn [replicate concat]. rewrite length_app, IH. lia.
Qed.

Lemma split_text_shape (s : WorkflowState) :
  exists c md,
    split_text s
    = Ok (mkState (text s) (max_length s) (chunk_size s) c
            (chunk_summaries s) (merged_summary s) (refined_summary s)
            (current_length s) (refinement_iterations s)
            (max_refinement_iterations s) md).
Proof.
  unfold split_text. destruct (String.eqb (strip (text s)) "").
  - rewrite copy_chunks_only. eauto.
  - destruct (fold_left _ _ _) as [[chunks cur] n].
    rewrite copy_chunks. eauto.
Qed.

Lemma summarize_chunks_shape (f : string -> string) (s : WorkflowState) :
  exists c md,
    summarize_chunks f s
    = Ok (mkState (text s) (max_length s) (chunk_size s) (chunks s) c
            (merged_summary s) (refined_summary s)
            (current_length s) (refinement_iterations s)
            (max_refinement_iterations s) md).
Proof.
  unfold summarize_chunks. case_bool_decide.
  - rewrite copy_summaries_only. eauto.
  - rewrite copy_summaries. eauto.
Qed.

Lemma merge_summaries_shape (s : WorkflowState) :
  exists m r n md,
    merge_summaries s
    = Ok (mkState (text s) (max_length s) (chunk_size s) (chunks s)
            (chunk_summaries s) m r n (refinement_iterations s)
            (max_refinement_iterations s) md).
Proof.
  unfold merge_summaries. case_bool_decide.
  - rewrite copy_merged_empty. eauto 6.
  - rewrite copy_merged. eauto 6.
Qed.

Section Pipeline.

Variable repr : string -> string.
Variable utcnow : nat -> Z.
Variable _frequency_based_summarize : string -> string.
Variable validation_text : string -> string.

Abbreviation shipped_nodes :=
  (summarization_nodes _frequency_based_summarize validation_text).
Abbreviation create :=
  (create_summarization_graph _frequency_based_summarize validation_text).
Abbreviation shipped_graph reg :=
  (mkGraph summarization_definition (register_all reg shipped_nodes)).

Lemma shipped_call (reg : NodeRegistry) (name : string)
    (f : node_func) (s : WorkflowState) :
  (forall m, m ∈ nodes summarization_definition ->
             has_node reg m = false) ->
  List.find (fun c => bool_decide (c.1 = name)) shipped_nodes
  = Some (name, f) ->
  call_node (shipped_graph reg) name s = f s.
Proof.
  intros Hfresh Hfind. unfold call_node, get_node. cbn [registry].
  rewrite register_all_lookup, Hfind.
  rewrite fresh_lookup; [reflexivity |].
  apply Hfresh. apply find_some in Hfind as [Hin _].
  rewrite <- (shipped_names _frequency_based_summarize validation_text).
  apply list_elem_of_fmap. exists (name, f).
  split; [reflexivity | apply list_elem_of_In; exact Hin].
Qed.

Lemma as_node_ok (f : WorkflowState -> result validation_error WorkflowState)
    (s s' : WorkflowState) :
  f s = Ok s' -> as_node validation_text f s = Ok s'.
Proof. intros H. unfold as_node. rewrite H. reflexivity. Qed.

(** The nodes from the entry point to the first refinement. *)
Lemma shipped_prefix (reg : NodeRegistry) (state : WorkflowState) :
  (forall m, m ∈ nodes summarization_definition ->
             has_node reg m = false) ->
  exists s3,
    (forall names cur' s',
       path (shipped_graph reg) (Some "refine_summary") s3
            names cur' s' ->
       path (shipped_graph reg) (Some "split_text") state
            ("split_text" :: "summarize_chunks" :: "merge_summaries"
             :: names) cur' s') /\
    text s3 = text state /\ max_length s3 = max_length state /\
    chunk_size s3 = chunk_size state /\
    refinement_iterations s3 = refinement_iterations state /\
    max_refinement_iterations s3 = max_refinement_iterations state.
Proof.
  intros Hfresh.
  destruct (split_text_shape state) as (c1 & md1 & H1).
  set (s1 := mkState _ _ _ _ _ _ _ _ _ _ _) in H1.
  destruct (summarize_chunks_shape _frequency_based_summarize s1)
    as (c2 & md2 & H2).
  set (s2 := mkState _ _ _ _ _ _ _ _ _ _ _) in H2.
  destruct (merge_summaries_shape s2) as (m & r & n & md3 & H3).
  set (s3 := mkState _ _ _ _ _ _ _ _ _ _ _) in H3.
  exists s3. split; [| repeat split].
  intros names cur' s' Hpath.
  apply path_step with s1.
  { rewrite (shipped_call reg "split_text"
               (as_node validation_text split_text)) by (exact Hfresh || reflexivity).
    apply as_node_ok. exact H1. }
  change (_get_next_node (shipped_graph reg) "split_text" s1)
    with (Some "summarize_chunks").
  apply path_step with s2.
  { rewrite (shipped_call reg "summarize_chunks"
               (as_node validation_text
                  (summarize_chunks _frequency_based_summarize)))
      by (exact Hfresh || reflexivity).
    apply as_node_ok. exact H2. }
  change (_get_next_node (shipped_graph reg) "summarize_chunks" s2)
    with (Some "merge_summaries").
  apply path_step with s3.
  { rewrite (shipped_call reg "merge_summaries"
               (as_node validation_text merge_summaries))
      by (exact Hfresh || reflexivity).
    apply as_node_ok. exact H3. }
  change (_get_next_node (shipped_graph reg) "merge_summaries" s3)
    with (Some "refine_summary").
  exact Hpath.
Qed.

Lemma shipped_refine (reg : NodeRegistry) (s : WorkflowState) :
  (forall m, m ∈ nodes summarization_definition ->
             has_node reg m = false) ->
  exists s4,
    call_node (shipped_graph reg) "refine_summary" s = Ok s4 /\
    call_node (shipped_graph reg) "check_length_loop" s4 = Ok s4 /\
    text s4 = text s /\ max_length s4 = max_length s /\
    max_refinement_iterations s4 = max_refinement_iterations s /\
    refinement_iterations s4 = refinement_iterations s + 1 /\
    current_length s4 = len (refined_summary s4) /\
    1 <= len (refined_summary s4) <= Z.max 1 (max_length s) /\
    (refined_summary s4 = "." \/
     len (refined_summary s4) <= max_length s).
Proof.
  intros Hfresh.
  destruct (refine_summary_result s) as (refined & _ & Hrun & Hlen & Hcase).
  set (s4 := mkState _ _ _ _ _ _ _ _ _ _ _) in Hrun.
  exists s4. split; [| split; [| repeat split; try exact (proj1 Hlen);
                                 try exact (proj2 Hlen)]].
  - rewrite (shipped_call reg "refine_summary"
               (as_node validation_text refine_summary))
      by (exact Hfresh || reflexivity).
    apply as_node_ok. exact Hrun.
  - rewrite (shipped_call reg "check_length_loop"
               (fun s => Ok (check_length_loop s)))
      by (exact Hfresh || reflexivity).
    reflexivity.
  - cbn [refined_summary s4].
    destruct Hcase as [-> | Hle]; [left; reflexivity | right; exact Hle].
Qed.

(** One refinement and its check, from a state to the next. *)
Lemma shipped_round (reg : NodeRegistry) (s s4 : WorkflowState)
    (names : list string) (cur' : option string) (s' : WorkflowState) :
  call_node (shipped_graph reg) "refine_summary" s = Ok s4 ->
  call_node (shipped_graph reg) "check_length_loop" s4 = Ok s4 ->
  path (shipped_graph reg)
       (_handle_loop_condition ["refine_summary"] s4) s4 names cur' s' ->
  path (shipped_graph reg) (Some "refine_summary") s
       ("refine_summary" :: "check_length_loop" :: names) cur' s'.
Proof.
  intros Hrefine Hcheck Hpath.
  apply path_step with s4; [exact Hrefine |].
  change (_get_next_node (shipped_graph reg) "refine_summary" s4)
    with (Some "check_length_loop").
  apply path_step with s4; [exact Hcheck |]. exact Hpath.
Qed.

Lemma execute_along (self : WorkflowGraph)
    (initial_state s : WorkflowState) (names : list string) :
  path self (Some (entry_point (definition self))) initial_state names
       None s ->
  (length names <= 1000)%nat ->
  execute repr utcnow self initial_state
  = Some (Ok s, path_log utcnow names 0 0).
Proof.
  intros Hpath Hlen. unfold execute.
  replace (S (Z.to_nat max_iterations))
    with (length names + (1001 - length names))%nat
    by (unfold max_iterations; lia).
  rewrite (execute_loop_path repr utcnow self _ _ _ _ _ Hpath)
    by (unfold max_iterations; lia).
  destruct (1001 - length names)%nat; reflexivity.
Qed.

(** X19. On a registry that holds none of the five node names, the
    graph [create_summarization_graph] returns, run by [execute] on a
    state whose [max_length] is at least 1, completes the five nodes
    once each, in the order of the workflow, and returns: the loop back
    to [refine_summary] is never taken.  In the state returned the
    summary is not empty, is at most [max_length] characters long and
    [current_length] is its length; one refinement is counted; the text
    and the limits are those of the initial state. *)
Theorem summarization_run_once (reg : NodeRegistry)
    (state : WorkflowState) :
  (forall m, m ∈ nodes summarization_definition ->
             has_node reg m = false) ->
  1 <= max_length state ->
  exists g final,
    create reg = (Ok g, registry g) /\
    execute repr utcnow g state
    = Some (Ok final,
            path_log utcnow
              ["split_text"; "summarize_chunks"; "merge_summaries";
               "refine_summary"; "check_length_loop"] 0 0) /\
    1 <= len (refined_summary final) <= max_length state /\
    current_length final = len (refined_summary final) /\
    refinement_iterations final = refinement_iterations state + 1 /\
    text final = text state /\ max_length final = max_length state /\
    max_refinement_iterations final = max_refinement_iterations state.
Proof.
  intros Hfresh Hmax.
  destruct (create_on_fresh _frequency_based_summarize validation_text
              reg Hfresh) as [Hcreate _].
  destruct (shipped_prefix reg state Hfresh)
    as (s3 & Hpre & Ht3 & Hm3 & _ & Hi3 & Hx3).
  destruct (shipped_refine reg s3 Hfresh)
    as (s4 & Hrefine & Hcheck & Ht4 & Hm4 & Hx4 & Hi4 & Hc4 & Hlen & _).
  exists (shipped_graph reg), s4.
  split; [exact Hcreate |].
  split; [| repeat split; try congruence; try lia].
  apply execute_along; [| cbn; lia].
  apply Hpre, (shipped_round reg s3 s4); [exact Hrefine | exact Hcheck |].
  assert (_handle_loop_condition ["refine_summary"] s4 = None) as ->.
  { unfold _handle_loop_condition.
    destruct (Z.ltb_spec (max_length s4) (current_length s4)) as [Hlt | _];
      [lia | reflexivity]. }
  apply path_nil.
Qed.

(** With a [max_length] below 1 every refinement leaves the summary
    [.] of length 1, and the check sends the run back while the budget
    of refinements lasts. *)
Lemma shipped_rounds (reg : NodeRegistry) :
  (forall m, m ∈ nodes summarization_definition ->
             has_node reg m = false) ->
  forall (j : nat) (s : WorkflowState),
    max_length s <= 0 ->
    ((0 < j)%nat ->
     refinement_iterations s + Z.of_nat j < max_refinement_iterations s) ->
    exists s1,
      (forall names cur' s',
         path (shipped_graph reg) (Some "refine_summary") s1
              names cur' s' ->
         path (shipped_graph reg) (Some "refine_summary") s
              (concat (replicate j ["refine_summary"; "check_length_loop"])
               ++ names) cur' s') /\
      text s1 = text s /\ max_length s1 = max_length s /\
      max_refinement_iterations s1 = max_refinement_iterations s /\
      refinement_iterations s1 = refinement_iterations s + Z.of_nat j.
Proof.
  intros Hfresh. induction j as [|j IH]; intros s Hmax Hbudget.
  - exists s. split; [intros names cur' s' H; exact H |].
    repeat split. lia.
  - destruct (shipped_refine reg s Hfresh)
      as (s4 & Hrefine & Hcheck & Ht4 & Hm4 & Hx4 & Hi4 & Hc4 & Hlen & _).
    specialize (Hbudget ltac:(lia)).
    destruct (IH s4) as (s1 & Hpath & Ht1 & Hm1 & Hx1 & Hi1); [lia | lia |].
    exists s1. split; [| repeat split; try congruence; lia].
    intros names cur' s' H.
    cbn [replicate concat app].
    apply (shipped_round reg s s4); [exact Hrefine | exact Hcheck |].
    assert (_handle_loop_condition ["refine_summary"] s4
            = Some "refine_summary") as ->.
    { unfold _handle_loop_condition.
      destruct (Z.ltb_spec (max_length s4) (current_length s4)) as [_ | Hle];
        [| lia].
      destruct (Z.ltb_spec (refinement_iterations s4)
                  (max_refinement_iterations s4)) as [_ | Hle]; [| lia].
      reflexivity. }
    apply Hpath. exact H.
Qed.

Lemma execute_at_ceiling (self : WorkflowGraph)
    (initial_state s : WorkflowState) (names : list string) (n : string) :
  path self (Some (entry_point (definition self))) initial_state names
       (Some n) s ->
  length names = 1000%nat ->
  execute repr utcnow self initial_state
  = Some (Raise iteration_limit_error, path_log utcnow names 0 0).
Proof.
  intros Hpath Hlen. unfold execute.
  replace (S (Z.to_nat max_iterations)) with (length names + 1)%nat
    by (unfold max_iterations; lia).
  rewrite (execute_loop_path repr utcnow self _ _ _ _ _ Hpath)
    by (unfold max_iterations; lia).
  cbn [execute_loop].
  destruct (Z.ltb_spec max_iterations (0 + Z.of_nat (length names) + 1))
    as [_ | Hlim]; [reflexivity | unfold max_iterations in Hlim; lia].
Qed.

(** X20. With a [max_length] below 1 the shipped workflow cannot meet
    it: every refinement leaves the summary [.], of length 1, and the
    check sends the run back to [refine_summary] until the count of
    refinements reaches [max_refinement_iterations].  When that takes
    [r] refinements, at most 498, with [r] the budget left at the start
    and 1 when none is left, [execute] completes the first three nodes
    and [r] rounds of refinement and check, and returns a state whose
    summary is [.] and whose [current_length], 1, exceeds
    [max_length]. *)
Theorem summarization_run_below_minimum (reg : NodeRegistry)
    (state : WorkflowState) (r : nat) :
  (forall m, m ∈ nodes summarization_definition ->
             has_node reg m = false) ->
  max_length state <= 0 ->
  Z.of_nat r
  = Z.max 1 (max_refinement_iterations state - refinement_iterations state) ->
  (r <= 498)%nat ->
  exists g final,
    create reg = (Ok g, registry g) /\
    execute repr utcnow g state
    = Some (Ok final,
            path_log utcnow
              (["split_text"; "summarize_chunks"; "merge_summaries"]
               ++ concat (replicate r
                            ["refine_summary"; "check_length_loop"]))
              0 0) /\
    refined_summary final = "." /\
    current_length final = 1 /\
    max_length final < current_length final /\
    refinement_iterations final = refinement_iterations state + Z.of_nat r.
Proof.
  intros Hfresh Hmax Hr Hsmall.
  destruct r as [|j]; [lia |].
  destruct (create_on_fresh _frequency_based_summarize validation_text
              reg Hfresh) as [Hcreate _].
  destruct (shipped_prefix reg state Hfresh)
    as (s3 & Hpre & Ht3 & Hm3 & _ & Hi3 & Hx3).
  destruct (shipped_rounds reg Hfresh j s3)
    as (s1 & Hrounds & Ht1 & Hm1 & Hx1 & Hi1); [lia | lia |].
  destruct (shipped_refine reg s1 Hfresh)
    as (s4 & Hrefine & Hcheck & Ht4 & Hm4 & Hx4 & Hi4 & Hc4 & Hlen & Hcase).
  assert (refined_summary s4 = ".") as Hdot
    by (destruct Hcase as [Hd | Hle]; [exact Hd | lia]).
  assert (current_length s4 = 1) as Hone
    by (rewrite Hc4, Hdot; reflexivity).
  exists (shipped_graph reg), s4.
  split; [exact Hcreate |].
  split; [| repeat split; try assumption; lia].
  replace (S j) with (j + 1)%nat by lia.
  rewrite replicate_add, concat_app. cbn [replicate concat app].
  apply execute_along.
  - apply Hpre, Hrounds.
    apply (shipped_round reg s1 s4); [exact Hrefine | exact Hcheck |].
    assert (_handle_loop_condition ["refine_summary"] s4 = None) as ->.
    { unfold _handle_loop_condition.
      destruct (Z.ltb_spec (refinement_iterations s4)
                  (max_refinement_iterations s4)) as [Hlt | _]; [lia |].
      rewrite andb_false_r. reflexivity. }
    apply path_nil.
  - cbn [length]. rewrite length_app, length_rounds. cbn [length]. lia.
Qed.

(** X21. With a [max_length] below 1 and a budget of 499 refinements or
    more, the shipped workflow does not return: after the first three
    nodes, 498 rounds of refinement and check and one more refinement,
    1000 nodes are completed, the check is due, and [execute] raises the
    error of the iteration limit. *)
Theorem summarization_run_hits_ceiling (reg : NodeRegistry)
    (state : WorkflowState) :
  (forall m, m ∈ nodes summarization_definition ->
             has_node reg m = false) ->
  max_length state <= 0 ->
  499 <= max_refinement_iterations state - refinement_iterations state ->
  exists g,
    create reg = (Ok g, registry g) /\
    execute repr utcnow g state
    = Some (Raise (RuntimeError
                     ("Execution exceeded maximum iterations (1000). "
                      +:+ "Possible infinite loop detected.")),
            path_log utcnow
              (["split_text"; "summarize_chunks"; "merge_summaries"]
               ++ concat (replicate 498
                            ["refine_summary"; "check_length_loop"])
               ++ ["refine_summary"])
              0 0).
Proof.
  intros Hfresh Hmax Hbudget.
  destruct (create_on_fresh _frequency_based_summarize validation_text
              reg Hfresh) as [Hcreate _].
  destruct (shipped_prefix reg state Hfresh)
    as (s3 & Hpre & Ht3 & Hm3 & _ & Hi3 & Hx3).
  destruct (shipped_rounds reg Hfresh 498 s3)
    as (s1 & Hrounds & Ht1 & Hm1 & Hx1 & Hi1); [lia | lia |].
  destruct (shipped_refine reg s1 Hfresh)
    as (s4 & Hrefine & _).
  exists (shipped_graph reg). split; [exact Hcreate |].
  apply (execute_at_ceiling _ _ s4 _ "check_length_loop").
  - apply Hpre, Hrounds.
    apply path_step with s4; [exact Hrefine |].
    change (_get_next_node (shipped_graph reg) "refine_summary" s4)
      with (Some "check_length_loop").
    apply path_nil.
  - rewrite !length_app, length_rounds. reflexivity.
Qed.

End Pipeline.

(** A document with room for 100 characters, on an empty registry. *)
Lemma summarization_run_once_witness :
  exists g final,
    create_summarization_graph (fun s => s) (fun s => s) NodeRegistry_init
    = (Ok g, registry g) /\
    execute (fun s => s) example_clock g (document 100 5)
    = Some (Ok final,
            path_log example_clock
              ["split_text"; "summarize_chunks"; "merge_summaries";
               "refine_summary"; "check_length_loop"] 0 0) /\
    1 <= len (refined_summary final) <= max_length (document 100 5) /\
    current_length final = len (refined_summary final) /\
    refinement_iterations final
    = refinement_iterations (document 100 5) + 1 /\
    text final = text (document 100 5) /\
    max_length final = max_length (document 100 5) /\
    max_refinement_iterations final
    = max_refinement_iterations (document 100 5).
Proof.
  apply (summarization_run_once (fun s => s) example_clock
           (fun s => s) (fun s => s) NodeRegistry_init (document 100 5)).
  - intros m _. reflexivity.
  - cbn. lia.
Defined.

(** A document with no room at all and five refinements allowed. *)
Lemma summarization_run_below_minimum_witness :
  exists g final,
    create_summarization_graph (fun s => s) (fun s => s) NodeRegistry_init
    = (Ok g, registry g) /\
    execute (fun s => s) example_clock g (document 0 5)
    = Some (Ok final,
            path_log example_clock
              (["split_text"; "summarize_chunks"; "merge_summaries"]
               ++ concat (replicate 5
                            ["refine_summary"; "check_length_loop"]))
              0 0) /\
    refined_summary final = "." /\
    current_length final = 1 /\
    max_length final < current_length final /\
    refinement_iterations final
    = refinement_iterations (document 0 5) + Z.of_nat 5.
Proof.
  apply (summarization_run_below_minimum (fun s => s) example_clock
           (fun s => s) (fun s => s) NodeRegistry_init (document 0 5) 5).
  - intros m _. reflexivity.
  - cbn. lia.
  - reflexivity.
  - lia.
Defined.

(** A document with no room at all and 600 refinements allowed. *)
Lemma summarization_run_hits_ceiling_witness :
  exists g,
    create_summarization_graph (fun s => s) (fun s => s) NodeRegistry_init
    = (Ok g, registry g) /\
    execute (fun s => s) example_clock g (document 0 600)
    = Some (Raise (RuntimeError
                     ("Execution exceeded maximum iterations (1000). "
                      +:+ "Possible infinite loop detected.")),
            path_log example_clock
              (["split_text"; "summarize_chunks"; "merge_summaries"]
               ++ concat (replicate 498
                            ["refine_summary"; "check_length_loop"])
               ++ ["refine_summary"])
              0 0).
Proof.
  apply (summarization_run_hits_ceiling (fun s => s) example_clock
           (fun s => s) (fun s => s) NodeRegistry_init (document 0 600)).
  - intros m _. reflexivity.
  - cbn. lia.
  - cbn. lia.
Defined.

(** ** Words: [split], [strip] and [join] *)

Lemma app_string_assoc (a b c : string) : (a +:+ b) +:+ c = a +:+ (b +:+ c).
Proof.
  induction a as [|x a IH]; [reflexivity |].
  change ((String x a +:+ b) +:+ c) with (String x ((a +:+ b) +:+ c)).
  rewrite IH. reflexivity.
Qed.

Lemma app_string_empty (a b : string) : a +:+ b = "" -> a = "" /\ b = "".
Proof. destruct a; [auto | discriminate]. Qed.

Lemma has_space_app (a b : string) :
  has_space (a +:+ b) = has_space a || has_space b.
Proof.
  induction a as [|x a IH]; [reflexivity |].
  change (String x a +:+ b) with (String x (a +:+ b)).
  cbn [has_space]. rewrite IH, orb_assoc. reflexivity.
Qed.

Lemma split_from_words (s : string) :
  forall cur,
    has_space cur = false -> Forall is_word (split_from cur s).
Proof.
  induction s as [|c s IH]; intros cur Hcur; cbn [split_from].
  - destruct (String.eqb_spec cur ""); constructor; [| constructor].
    split; assumption.
  - destruct (isspace c) eqn:Hc.
    + destruct (String.eqb_spec cur "").
      * apply IH. reflexivity.
      * constructor; [split; assumption | apply IH; reflexivity].
    + apply IH. rewrite has_space_app, Hcur. cbn [has_space].
      rewrite Hc. reflexivity.
Qed.

Lemma split_words (s : string) : Forall is_word (split s).
Proof. apply split_from_words. reflexivity. Qed.

Lemma split_from_word (w : string) :
  forall cur rest,
    has_space w = false ->
    split_from cur (w +:+ rest) = split_from (cur +:+ w) rest.
Proof.
  induction w as [|c w IH]; intros cur rest Hw.
  - replace (cur +:+ "") with cur; [reflexivity |].
    clear. induction cur as [|x cur IH]; [reflexivity |].
    change (String x cur +:+ "") with (String x (cur +:+ "")).
    rewrite <- IH. reflexivity.
  - cbn [has_space] in Hw. apply orb_false_iff in Hw as [Hc Hw].
    change (String c w +:+ rest) with (String c (w +:+ rest)).
    cbn [split_from]. rewrite Hc, IH by exact Hw.
    rewrite app_string_assoc. reflexivity.
Qed.

(** Joining words by single spaces and splitting again gives the
    words. *)
Lemma split_join (ws : list string) :
  Forall is_word ws -> split (String.concat " " ws) = ws.
Proof.
  unfold split. induction 1 as [|w ws [Hne Hw] Hws IH]; [reflexivity |].
  destruct ws as [|w' ws].
  - cbn [String.concat].
    replace w with (w +:+ "") at 1
      by (clear; induction w as [|x w IH]; [reflexivity |];
          change (String x w +:+ "") with (String x (w +:+ ""));
          rewrite IH; reflexivity).
    rewrite split_from_word by exact Hw. cbn [split_from].
    destruct (String.eqb_spec ("" +:+ w) ""); [contradiction | reflexivity].
  - change (String.concat " " (w :: w' :: ws))
      with (w +:+ String " " (String.concat " " (w' :: ws))).
    rewrite split_from_word by exact Hw.
    change ("" +:+ w) with w. cbn [split_from].
    change (isspace " ") with true. cbn iota.
    destruct (String.eqb_spec w ""); [contradiction |].
    rewrite IH. reflexivity.
Qed.

Lemma split_lstrip (s : string) : split (lstrip s) = split s.
Proof.
  unfold split. induction s as [|c s IH]; [reflexivity |].
  cbn [lstrip split_from]. destruct (isspace c) eqn:Hc.
  - rewrite IH. reflexivity.
  - cbn [split_from]. rewrite Hc. reflexivity.
Qed.

Lemma split_from_blank (s : string) :
  forall cur,
    rstrip_with isspace s = "" -> split_from cur s = split_from cur "".
Proof.
  induction s as [|c s IH]; intros cur Hs; [reflexivity |].
  cbn [rstrip_with] in Hs.
  destruct (rstrip_with isspace s) eqn:Hr; [| discriminate].
  destruct (isspace c) eqn:Hc; [| discriminate].
  cbn [split_from]. rewrite Hc, (IH "") by reflexivity.
  cbn [split_from]. reflexivity.
Qed.

Lemma split_from_rstrip (s : string) :
  forall cur, split_from cur (rstrip_with isspace s) = split_from cur s.
Proof.
  induction s as [|c s IH]; intros cur; [reflexivity |].
  cbn [rstrip_with].
  destruct (rstrip_with isspace s) as [|c' r'] eqn:Hr.
  - destruct (isspace c) eqn:Hc.
    + symmetry. apply split_from_blank. cbn [rstrip_with].
      rewrite Hr, Hc. reflexivity.
    + cbn [split_from]. rewrite Hc.
      symmetry. apply split_from_blank. exact Hr.
  - rewrite <- Hr in IH. rewrite <- Hr. cbn [split_from].
    destruct (isspace c); rewrite !IH; reflexivity.
Qed.

Lemma split_strip (s : string) : split (strip s) = split s.
Proof.
  unfold strip, split at 1. rewrite split_from_rstrip.
  apply split_lstrip.
Qed.

Lemma Forall_concat_inv {A : Type} (P : A -> Prop) (ls : list (list A)) :
  Forall P (concat ls) -> Forall (Forall P) ls.
Proof.
  induction ls as [|l ls IH]; intros H; constructor.
  - cbn [concat] in H. apply Forall_app in H. exact (proj1 H).
  - apply IH. cbn [concat] in H. apply Forall_app in H. exact (proj2 H).
Qed.

Lemma split_join_groups (groups : list (list string)) :
  Forall (Forall is_word) groups ->
  List.map split (List.map (String.concat " ") groups) = groups.
Proof.
  induction 1 as [|g groups Hg _ IH]; [reflexivity |].
  cbn [List.map]. rewrite split_join by exact Hg. rewrite IH. reflexivity.
Qed.

(** X22. [split_text] loses no word and adds none: the words of the
    chunks, read chunk after chunk, are the words of the text.  Each
    chunk holds a word at least and is its own words joined by single
    spaces, so that it has no white space at either end and no run of
    white space inside. *)
Theorem split_text_keeps_words (state : WorkflowState) :
  exists after,
    split_text state = Ok after /\
    concat (List.map split (chunks after)) = split (text state) /\
    Forall (fun chunk =>
              split chunk <> [] /\
              String.concat " " (split chunk) = chunk)
           (chunks after).
Proof.
  destruct (split_text_groups state) as (groups & Hrun & Hcat & Hfit & _).
  eexists. split; [exact Hrun |]. cbn [chunks].
  assert (Forall (Forall is_word) groups) as Hwords.
  { apply Forall_concat_inv. rewrite Hcat. apply split_words. }
  split.
  - rewrite split_join_groups by exact Hwords.
    rewrite Hcat. apply split_strip.
  - clear Hrun Hcat.
    induction Hfit as [|g groups [Hne _] _ IH]; [constructor |].
    apply Forall_cons_1 in Hwords as [Hg Hrest].
    cbn [List.map]. constructor; [| exact (IH Hrest)].
    rewrite split_join by exact Hg. split; [exact Hne | reflexivity].
Qed.

(** ** [_compress_sentence] *)

(** X23. The words of what [_compress_sentence] returns: all the words
    of the sentence when they are at most [max_words]; otherwise those
    that the slice [words[:max_words]] keeps, which for a negative
    [max_words] are all but the last ones.  For a [max_words] that is
    not negative the result has at most [max_words] words. *)
Theorem compress_sentence_words (sentence : string) (max_words : Z) :
  split (_compress_sentence sentence max_words)
  = (if Z.of_nat (length (split sentence)) <=? max_words
     then split sentence
     else take_to max_words (split sentence)) /\
  (0 <= max_words ->
   Z.of_nat (length (split (_compress_sentence sentence max_words)))
   <= max_words) /\
  (max_words < 0 ->
   Z.of_nat (length (split (_compress_sentence sentence max_words)))
   = Z.max 0 (Z.of_nat (length (split sentence)) + max_words)).
Proof.
  assert (split (_compress_sentence sentence max_words)
          = (if Z.of_nat (length (split sentence)) <=? max_words
             then split sentence
             else take_to max_words (split sentence))) as Hwords.
  { unfold _compress_sentence.
    destruct (Z.of_nat (length (split sentence)) <=? max_words).
    - apply split_strip.
    - rewrite split_strip. apply split_join.
      unfold take_to.
      destruct (0 <=? max_words); apply Forall_take, split_words. }
  split; [exact Hwords |]. rewrite Hwords. unfold take_to.
  split; intros Hk.
  - destruct (Z.leb_spec (Z.of_nat (length (split sentence))) max_words)
      as [Hle | Hgt]; [exact Hle |].
    destruct (Z.leb_spec 0 max_words) as [_ | Hneg]; [| lia].
    rewrite length_take. lia.
  - destruct (Z.leb_spec (Z.of_nat (length (split sentence))) max_words)
      as [Hle | Hgt]; [lia |].
    destruct (Z.leb_spec 0 max_words) as [Hpos | _]; [lia |].
    rewrite length_take. lia.
Qed.
